(** * netvent: the Value/Table model, its serializer and its parser

    A shallow embedding of [netvent.hpp].  [std::string] is [string] (a
    sequence of 8-bit characters), [int] is a [Z] kept inside the 32-bit
    range, [float] is a binary32 number given by its sign and its
    magnitude in units of [2^-149], [std::map<Value,Value>] is the list
    of its pairs in the order of [operator<], a
    [std::shared_ptr<Table>] is an address together with the table it
    points to, and a thrown [std::runtime_error] is an explicit
    result.  The library functions the code calls ([std::stoi],
    [std::stof], the stream output of numbers) are modelled after the
    C and C++ standards and glibc. *)

From Stdlib Require Import ZArith NArith List String Ascii Bool Lia.
From Stdlib Require Import Sorted RelationClasses.
Import ListNotations.
Local Open Scope string_scope.

(** ** [std::string] operations used by the parser *)

Module Str.

(** A position as returned by [find]: [None] is [std::string::npos]. *)
Definition pos := option nat.

Definition empty (s : string) : bool :=
  match s with EmptyString => true | String _ _ => false end.

Definition front (s : string) : option ascii :=
  match s with EmptyString => None | String c _ => Some c end.

Fixpoint back (s : string) : option ascii :=
  match s with
  | EmptyString => None
  | String c EmptyString => Some c
  | String _ s' => back s'
  end.

Fixpoint mem (c : ascii) (set : string) : bool :=
  match set with
  | EmptyString => false
  | String d set' => Ascii.eqb c d || mem c set'
  end.

(** [s.find(c)] *)
Fixpoint find (c : ascii) (s : string) : pos :=
  match s with
  | EmptyString => None
  | String d s' =>
      if Ascii.eqb d c then Some 0%nat
      else match find c s' with Some i => Some (S i) | None => None end
  end.

(** [s.find_first_not_of(set)] *)
Fixpoint find_first_not_of (set : string) (s : string) : pos :=
  match s with
  | EmptyString => None
  | String d s' =>
      if mem d set
      then match find_first_not_of set s' with
           | Some i => Some (S i) | None => None end
      else Some 0%nat
  end.

(** [s.find_last_not_of(set)] *)
Fixpoint find_last_not_of (set : string) (s : string) : pos :=
  match s with
  | EmptyString => None
  | String d s' =>
      match find_last_not_of set s' with
      | Some i => Some (S i)
      | None => if mem d set then None else Some 0%nat
      end
  end.

(** [s.substr(p)] and [s.substr(p, n)], for [p <= s.length()] *)
Fixpoint substr_from (p : nat) (s : string) : string :=
  match p, s with
  | O, _ => s
  | S p', String _ s' => substr_from p' s'
  | S _, EmptyString => EmptyString
  end.

Fixpoint prefix (n : nat) (s : string) : string :=
  match n, s with
  | S n', String c s' => String c (prefix n' s')
  | _, _ => EmptyString
  end.

Definition substr (p n : nat) (s : string) : string :=
  prefix n (substr_from p s).

(** [s.erase(0, n)]: drops the first [n] characters, all of them when
    [n] is [npos]. *)
Definition erase_front (n : pos) (s : string) : string :=
  match n with
  | None => EmptyString
  | Some k => substr_from k s
  end.

(** [s.erase(p + 1)] where [p] is a position: keeps the first [p + 1]
    characters; [npos + 1] wraps to [0], which keeps nothing. *)
Definition erase_after (p : pos) (s : string) : string :=
  match p with
  | None => EmptyString
  | Some k => prefix (S k) s
  end.

(** The two [erase] calls the parser uses on every segment, key and
    value: strip leading, then trailing, blanks and tabs. *)
Definition blanks : string := String " " (String "009" EmptyString).

Definition trim (item : string) : string :=
  let item := erase_front (find_first_not_of blanks item) item in
  erase_after (find_last_not_of blanks item) item.

Definition starts_with (c : ascii) (s : string) : bool :=
  match front s with Some d => Ascii.eqb d c | None => false end.

Definition ends_with (c : ascii) (s : string) : bool :=
  match back s with Some d => Ascii.eqb d c | None => false end.

(** [s.find(pat)] for a string [pat]: where [pat] first occurs. *)
Fixpoint find_str (pat s : string) : pos :=
  if String.prefix pat s then Some 0%nat
  else
    match s with
    | EmptyString => None
    | String _ s' =>
        match find_str pat s' with Some i => Some (S i) | None => None end
    end.

(** [s.find_first_not_of(set, p)], for [p <= s.length()] *)
Definition find_first_not_of_from (set : string) (p : nat) (s : string) : pos :=
  match find_first_not_of set (substr_from p s) with
  | Some i => Some (p + i)%nat
  | None => None
  end.

End Str.

(** ** Integers: [operator<<(int)] and [std::stoi] *)

Module Int.

Definition min_int : Z := - 2 ^ 31.
Definition max_int : Z := 2 ^ 31 - 1.

Definition in_range (z : Z) : bool := (min_int <=? z)%Z && (z <=? max_int)%Z.

(** [static_cast<int>(i)] of a [size_t]: reduction modulo [2^32] into
    the signed range. *)
Definition of_size_t (i : nat) : Z :=
  let r := (Z.of_nat i mod 2 ^ 32)%Z in
  if (r <=? max_int)%Z then r else (r - 2 ^ 32)%Z.

Definition digit_char (d : N) : ascii := ascii_of_N (48 + d).

Definition is_digit (c : ascii) : bool :=
  let n := N_of_ascii c in (48 <=? n)%N && (n <=? 57)%N.

Definition digit_val (c : ascii) : N := N_of_ascii c - 48.

(** Decimal digits of [n], most significant first, in front of [acc]. *)
Fixpoint digits_aux (fuel : nat) (n : N) (acc : string) : string :=
  match fuel with
  | O => String (digit_char (n mod 10)) acc
  | S fuel' =>
      if (n <? 10)%N then String (digit_char n) acc
      else digits_aux fuel' (n / 10) (String (digit_char (n mod 10)) acc)
  end.

Definition N_to_string (n : N) : string :=
  digits_aux (N.to_nat (N.log2 n)) n EmptyString.

(** [ss << i] for an [int] *)
Definition to_string (z : Z) : string :=
  match z with
  | Zneg p => String "-" (N_to_string (Npos p))
  | _ => N_to_string (Z.to_N z)
  end.

(** The longest prefix of decimal digits, read as a number in front of
    which [acc] was already read; returns the number, how many digits
    were read and the rest. *)
Fixpoint read_digits (s : string) (acc : N) (cnt : nat) : N * nat * string :=
  match s with
  | String c s' =>
      if is_digit c then read_digits s' (acc * 10 + digit_val c) (S cnt)
      else (acc, cnt, s)
  | EmptyString => (acc, cnt, s)
  end.

(** [isspace] in the C locale *)
Definition is_space (c : ascii) : bool :=
  let n := N_of_ascii c in (n =? 32)%N || ((9 <=? n)%N && (n <=? 13)%N).

Fixpoint skip_space (s : string) : string :=
  match s with
  | String c s' => if is_space c then skip_space s' else s
  | EmptyString => s
  end.

(** An optional sign: [true] for a minus. *)
Definition read_sign (s : string) : bool * string :=
  match s with
  | String "-" s' => (true, s')
  | String "+" s' => (false, s')
  | _ => (false, s)
  end.

(** [std::stoi(s)]: [strtol] in base 10 on the longest prefix that
    reads as white space, an optional sign and digits; [None] when it
    throws ([std::invalid_argument] without a digit,
    [std::out_of_range] outside [int]).  What follows the digits is
    ignored. *)
Definition stoi (s : string) : option Z :=
  let '(neg, s1) := read_sign (skip_space s) in
  let '(n, cnt, _) := read_digits s1 0 0 in
  match cnt with
  | O => None
  | S _ =>
      let z := if neg then (- Z.of_N n)%Z else Z.of_N n in
      if in_range z then Some z else None
  end.

End Int.


(** ** Floats: the [float] of the source, its comparisons, its
    [std::fixed << std::setprecision(1)] output and [std::stof]

    A finite binary32 number is a signed integer multiple of [2^-149]
    (the spacing of the subnormal numbers): [Ffin neg k] is
    [(-1)^neg * k * 2^-149].  It is a [float] of the program when [k]
    has at most 24 significant bits and stays below [2^277]. *)

Module Float32.

Inductive float : Type :=
| Fnan (neg : bool)
| Finf (neg : bool)
| Ffin (neg : bool) (k : N).

Definition unit_exp : N := 149.

(** [k] is the magnitude of a binary32 number, in units of [2^-149]. *)
Definition representable (k : N) : bool :=
  (k <? 2 ^ 277)%N &&
  ((k =? 0)%N || (N.log2 k <? 24)%N || (k mod 2 ^ (N.log2 k - 23) =? 0)%N).

Definition valid (f : float) : bool :=
  match f with
  | Ffin _ k => representable k
  | _ => true
  end.

Definition is_finite (f : float) : bool :=
  match f with Ffin _ _ => true | _ => false end.

Definition signed (neg : bool) (k : N) : Z :=
  if neg then (- Z.of_N k)%Z else Z.of_N k.

(** [a < b] on floats: false as soon as one side is a NaN. *)
Definition lt (a b : float) : bool :=
  match a, b with
  | Fnan _, _ | _, Fnan _ => false
  | Finf na, Finf nb => na && negb nb
  | Finf na, Ffin _ _ => na
  | Ffin _ _, Finf nb => negb nb
  | Ffin na ka, Ffin nb kb => (signed na ka <? signed nb kb)%Z
  end.

(** [a == b] on floats: a NaN equals nothing, the two zeros are equal. *)
Definition eq (a b : float) : bool :=
  match a, b with
  | Fnan _, _ | _, Fnan _ => false
  | Finf na, Finf nb => Bool.eqb na nb
  | Ffin na ka, Ffin nb kb => (signed na ka =? signed nb kb)%Z
  | _, _ => false
  end.

(** [a / b] rounded to the nearest integer, ties to the even one. *)
Definition div_rne (a b : N) : N :=
  let q := (a / b)%N in
  let r := (a mod b)%N in
  match (2 * r ?= b)%N with
  | Lt => q
  | Gt => (q + 1)%N
  | Eq => if N.even q then q else (q + 1)%N
  end.

(** The magnitude in tenths, as [printf("%.1f")] rounds it. *)
Definition tenths (k : N) : N := div_rne (10 * k) (2 ^ unit_exp).

Definition sign_prefix (neg : bool) (s : string) : string :=
  if neg then String "-" s else s.

(** [ss << std::fixed << std::setprecision(1) << f] *)
Definition fixed1 (f : float) : string :=
  match f with
  | Fnan neg => sign_prefix neg "nan"
  | Finf neg => sign_prefix neg "inf"
  | Ffin neg k =>
      let t := tenths k in
      sign_prefix neg
        (Int.N_to_string (t / 10) ++
         String "." (String (Int.digit_char (t mod 10)) EmptyString))
  end.

(** The binary32 number nearest to [num / den] (ties to even), in units
    of [2^-149]; [None] where [strtof] reports [ERANGE]: on overflow, and
    on a subnormal result that is not exact. *)
Definition round_ratio (num den : N) : option N :=
  let scaled := (num * 2 ^ unit_exp)%N in
  let bits := N.size (scaled / den) in
  let shift := (bits - 24)%N in
  let k := (div_rne scaled (den * 2 ^ shift) * 2 ^ shift)%N in
  if (2 ^ 277 <=? k)%N then None
  else if (k <? 2 ^ 23)%N && negb (k * den =? scaled)%N then None
  else Some k.

Definition lower (c : ascii) : ascii :=
  let n := N_of_ascii c in
  if (65 <=? n)%N && (n <=? 90)%N then ascii_of_N (n + 32) else c.

(** [s] starts with [p], ignoring case ([p] is in lower case). *)
Fixpoint prefix_ci (p s : string) : bool :=
  match p, s with
  | EmptyString, _ => true
  | String a p', String b s' => Ascii.eqb a (lower b) && prefix_ci p' s'
  | String _ _, EmptyString => false
  end.

Definition hex_val (c : ascii) : option N :=
  let n := N_of_ascii (lower c) in
  if (48 <=? n)%N && (n <=? 57)%N then Some (n - 48)%N
  else if (97 <=? n)%N && (n <=? 102)%N then Some (n - 87)%N
  else None.

Fixpoint read_hex (s : string) (acc : N) (cnt : nat) : N * nat * string :=
  match s with
  | String c s' =>
      match hex_val c with
      | Some d => read_hex s' (acc * 16 + d) (S cnt)
      | None => (acc, cnt, s)
      end
  | EmptyString => (acc, cnt, s)
  end.

(** An exponent part: the marker [mark] (in lower case), an optional
    sign and at least one digit; [0] when there is none. *)
Definition read_exponent (mark : ascii) (s : string) : Z :=
  match s with
  | String c s' =>
      if Ascii.eqb (lower c) mark then
        let '(neg, s1) := Int.read_sign s' in
        let '(n, cnt, _) := Int.read_digits s1 0 0 in
        match cnt with
        | O => 0%Z
        | S _ => signed neg n
        end
      else 0%Z
  | EmptyString => 0%Z
  end.

(** [mant * base^e] as a fraction *)
Definition scale (base mant : N) (e : Z) : N * N :=
  match e with
  | Zneg p => (mant, base ^ Npos p)%N
  | _ => (mant * base ^ Z.to_N e, 1)%N
  end.

Definition of_ratio (neg : bool) (nd : N * N) : option float :=
  match round_ratio (fst nd) (snd nd) with
  | Some k => Some (Ffin neg k)
  | None => None
  end.

(** Digits, an optional point and more digits, then an optional
    exponent; [None] without any digit. *)
Definition read_decimal (neg : bool) (s : string) : option float :=
  let '(ip, ci, s1) := Int.read_digits s 0 0 in
  let '(mant, cf, s2) :=
    match s1 with
    | String "." s1' =>
        let '(m, c, r) := Int.read_digits s1' ip 0 in (m, c, r)
    | _ => (ip, O, s1)
    end in
  match (ci + cf)%nat with
  | O => None
  | S _ =>
      of_ratio neg (scale 10 mant (read_exponent "e" s2 - Z.of_nat cf))
  end.

(** The same in base 16 after [0x], with a binary exponent after [p];
    without any hexadecimal digit only the [0] is read. *)
Definition read_hexadecimal (neg : bool) (s : string) : option float :=
  let '(ip, ci, s1) := read_hex s 0 0 in
  let '(mant, cf, s2) :=
    match s1 with
    | String "." s1' =>
        let '(m, c, r) := read_hex s1' ip 0 in (m, c, r)
    | _ => (ip, O, s1)
    end in
  match (ci + cf)%nat with
  | O => Some (Ffin neg 0)
  | S _ =>
      of_ratio neg (scale 2 mant (read_exponent "p" s2 - 4 * Z.of_nat cf))
  end.

(** [std::stof(s)]: [strtof] on the longest prefix that reads as white
    space, an optional sign and a decimal or hexadecimal number,
    [inf]/[infinity] or [nan]; [None] when it throws
    ([std::invalid_argument] when nothing converts, [std::out_of_range]
    on [ERANGE]).  What follows the number is ignored. *)
Definition stof (s : string) : option float :=
  let '(neg, s1) := Int.read_sign (Int.skip_space s) in
  if prefix_ci "inf" s1 then Some (Finf neg)
  else if prefix_ci "nan" s1 then Some (Fnan neg)
  else if prefix_ci "0x" s1 then read_hexadecimal neg (Str.substr_from 2 s1)
  else read_decimal neg s1.

End Float32.


(** ** The data model: [Value] and [Table] *)

Definition float := Float32.float.

(** The address held by a [std::shared_ptr<Table>]. *)
Definition addr := N.

(** [class Table]: the [std::map<Value, Value>], as its pairs in
    iteration order, and the [is_array] flag. *)
Record TableOf (V : Type) : Type := mkTable {
  data : list (V * V);
  is_array : bool
}.
Arguments mkTable {V} _ _.
Arguments data {V} _.
Arguments is_array {V} _.

Set Warnings "-register-all".

(** [class Value]: the [std::variant<int, float, bool, std::string,
    std::shared_ptr<Table>>], alternatives in declaration order.  The
    table alternative is the address of the shared table and the table
    stored there. *)
Inductive Value : Type :=
| VInt (i : Z)
| VFloat (f : float)
| VBool (b : bool)
| VString (s : string)
| VTable (p : addr) (t : TableOf Value).

Definition Table := TableOf Value.
Definition Map := list (Value * Value).

(** [Value()] *)
Definition Value_default : Value := VInt 0.

(** [data.index()] *)
Definition index (v : Value) : nat :=
  match v with
  | VInt _ => 0
  | VFloat _ => 1
  | VBool _ => 2
  | VString _ => 3
  | VTable _ _ => 4
  end.

Definition is_int (v : Value) := match v with VInt _ => true | _ => false end.
Definition is_float (v : Value) := match v with VFloat _ => true | _ => false end.
Definition is_bool (v : Value) := match v with VBool _ => true | _ => false end.
Definition is_string (v : Value) := match v with VString _ => true | _ => false end.
Definition is_table (v : Value) := match v with VTable _ _ => true | _ => false end.

(** [operator<(const Value&, const Value&)] *)
Definition Value_lt (lhs rhs : Value) : bool :=
  if negb (index lhs =? index rhs)%nat then (index lhs <? index rhs)%nat
  else
    match lhs, rhs with
    | VInt a, VInt b => (a <? b)%Z
    | VFloat a, VFloat b => Float32.lt a b
    | VBool a, VBool b => negb a && b
    | VString a, VString b => String.ltb a b
    | VTable p _, VTable q _ => (p <? q)%N
    | _, _ => false
    end.

(** [operator==(const Value&, const Value&)] *)
Definition Value_eq (lhs rhs : Value) : bool :=
  if negb (index lhs =? index rhs)%nat then false
  else
    match lhs, rhs with
    | VInt a, VInt b => (a =? b)%Z
    | VFloat a, VFloat b => Float32.eq a b
    | VBool a, VBool b => Bool.eqb a b
    | VString a, VString b => String.eqb a b
    | VTable p _, VTable q _ => (p =? q)%N
    | _, _ => true
    end.

(** A float that compares false with everything. *)
Definition is_nan (v : Value) : bool :=
  match v with
  | VFloat (Float32.Fnan _) => true
  | _ => false
  end.

(** ** [std::map<Value, Value>] under [operator<] *)

(** [m[k] = v]: the pairs stay in ascending key order; a key equivalent
    to [k] (neither below the other) keeps its place and its key.  The
    map is searched from its smallest key on, which finds what the tree
    of [std::map] finds whenever [operator<] is a strict weak order on
    the keys at hand (it is one away from NaN, see [Value_lt_trans] and
    [Value_eq_mirrors_lt]). *)
Fixpoint map_set (k v : Value) (m : Map) : Map :=
  match m with
  | [] => [(k, v)]
  | (k', v') :: m' =>
      if Value_lt k k' then (k, v) :: m
      else if Value_lt k' k then (k', v') :: map_set k v m'
      else (k', v) :: m'
  end.

(** [m.find(k)] *)
Fixpoint map_find (k : Value) (m : Map) : option Value :=
  match m with
  | [] => None
  | (k', v') :: m' =>
      if Value_lt k k' then None
      else if Value_lt k' k then map_find k m'
      else Some v'
  end.

(** [m[k]] read: an absent key is inserted with [Value()]. *)
Definition map_at (k : Value) (m : Map) : Map * Value :=
  match map_find k m with
  | Some v => (m, v)
  | None => (map_set k Value_default m, Value_default)
  end.

(** ** [Table]: constructors and accessors *)

(** [Table()] *)
Definition Table_empty : Table := mkTable [] false.

(** [Table(const std::map<Value, Value>&)] *)
Definition Table_of_map (d : Map) : Table := mkTable d false.

(** The loop of [Table(const std::vector<Value>&)], from index [i]. *)
Fixpoint fill_from (i : nat) (d : list Value) (m : Map) : Map :=
  match d with
  | [] => m
  | x :: d' => fill_from (S i) d' (map_set (VInt (Int.of_size_t i)) x m)
  end.

(** [Table(const std::vector<Value>&)] *)
Definition Table_of_vector (d : list Value) : Table :=
  mkTable (fill_from 0 d []) true.

(** [Table::operator[]], read through the returned reference. *)
Definition Table_index (t : Table) (key : Value) : Table * Value :=
  let '(m, v) := map_at key (data t) in (mkTable m (is_array t), v).

(** [t[key] = v]: [Table::operator[]], written through the reference. *)
Definition Table_assign (t : Table) (key v : Value) : Table :=
  mkTable (map_set key v (data t)) (is_array t).

Definition get_is_array (t : Table) : bool := is_array t.

(** [Table::get_data] *)
Definition get_data (t : Table) : Map + list Value :=
  if is_array t then inr (map snd (data t)) else inl (data t).

(** ** The serializer *)

Definition dquote : ascii := "034"%char.

Definition quoted (s : string) : string :=
  String dquote (s ++ String dquote EmptyString).

Section Serialize.

Variable ser : Value -> string.

(** The loop of the array branch of [Table::serialize]. *)
Fixpoint array_items (first : bool) (m : Map) : string :=
  match m with
  | [] => EmptyString
  | (_, v) :: m' =>
      (if first then EmptyString else ",") ++ ser v ++ array_items false m'
  end.

(** The loop of the map branch of [Table::serialize]. *)
Fixpoint map_items (first : bool) (m : Map) : string :=
  match m with
  | [] => EmptyString
  | (k, v) :: m' =>
      (if first then EmptyString else ",") ++
      ser k ++ "=" ++ ser v ++ map_items false m'
  end.

Definition Table_serialize_with (t : Table) : string :=
  if is_array t then "[" ++ array_items true (data t) ++ "]"
  else "{" ++ map_items true (data t) ++ "}".

End Serialize.

(** [Value::serialize] *)
Fixpoint Value_serialize (v : Value) : string :=
  match v with
  | VInt i => Int.to_string i
  | VFloat f => Float32.fixed1 f
  | VBool b => if b then "true" else "false"
  | VString s => quoted s
  | VTable _ t => Table_serialize_with Value_serialize t
  end.

(** [Table::serialize] *)
Definition Table_serialize (t : Table) : string :=
  Table_serialize_with Value_serialize t.

(** ** The parser *)

(** The [std::runtime_error]s of the parser, by message. *)
Inductive error : Type :=
| EmptyData        (* "Empty data" *)
| MalformedArray   (* "Malformed array" *)
| MalformedTable   (* "Malformed table" *)
| MissingEquals    (* "Invalid table format: missing '='" *)
| UnknownType.     (* "Unknown type" *)

(** The outcome of a call: a returned value, a thrown error, or a
    recursion bound that was too small. *)
Inductive result (A : Type) : Type :=
| Ok (a : A)
| Throw (e : error)
| OutOfFuel.
Arguments Ok {A} _.
Arguments Throw {A} _.
Arguments OutOfFuel {A}.

(** A computation that allocates shared tables: it runs from the next
    free address and returns the new one with its value. *)
Definition M (A : Type) : Type := addr -> result (A * addr).

Definition ret {A} (a : A) : M A := fun n => Ok (a, n).
Definition throw {A} (e : error) : M A := fun _ => Throw e.
Definition out_of_fuel {A} : M A := fun _ => OutOfFuel.
Definition bind {A B} (m : M A) (k : A -> M B) : M B :=
  fun n =>
    match m n with
    | Ok (a, n') => k a n'
    | Throw e => Throw e
    | OutOfFuel => OutOfFuel
    end.

Notation "x <- m ;; k" := (bind m (fun x => k))
  (at level 61, m at next level, right associativity).

(** [Value(const Table&)]: [std::make_shared<Table>(v)] at a fresh
    address. *)
Definition Value_of_table (t : Table) : M Value :=
  fun n => Ok (VTable n t, N.succ n).

Definition is_open (c : ascii) : bool := Ascii.eqb c "[" || Ascii.eqb c "{".
Definition is_close (c : ascii) : bool := Ascii.eqb c "]" || Ascii.eqb c "}".

Section TableDeserialize.

(** The recursive call [Value::deserialize]. *)
Variable deser : string -> M Value.

(** A segment of the array form: skipped when empty, or empty once
    trimmed. *)
Definition array_item (item : string) (vec : list Value) : M (list Value) :=
  if negb (Str.empty item) then
    let item := Str.trim item in
    if negb (Str.empty item) then
      v <- deser item ;; ret (vec ++ [v])%list
    else ret vec
  else ret vec.

(** A segment of the object form.  In [map[Value::deserialize(key)] =
    Value::deserialize(value)] the right operand of the assignment is
    evaluated first (C++17). *)
Definition object_item (item : string) (map : Map) : M Map :=
  if negb (Str.empty item) then
    let item := Str.trim item in
    if negb (Str.empty item) then
      match Str.find "=" item with
      | None => throw MissingEquals
      | Some equals =>
          let key := Str.substr 0 equals item in
          let value := Str.substr_from (S equals) item in
          let key := Str.trim key in
          let value := Str.trim value in
          if negb (Str.empty key) && negb (Str.empty value) then
            v <- deser value ;;
            k <- deser key ;;
            ret (map_set k v map)
          else ret map
      end
    else ret map
  else ret map.

(** The scan [for (size_t i = 0; i < content.length(); i++)], shared by
    the two forms: [rest] is [content] from [i] on, [pos] the start of
    the current segment, [acc] the vector or map built so far and
    [item] what is done with a segment.  Returns [acc], [pos] and
    [depth] at the end of the scan. *)
Fixpoint scan {A} (item : string -> A -> M A) (content rest : string)
         (i pos : nat) (depth : Z) (acc : A) : M (A * nat * Z) :=
  match rest with
  | EmptyString => ret (acc, pos, depth)
  | String c rest' =>
      if is_open c then scan item content rest' (S i) pos (depth + 1)%Z acc
      else if is_close c then scan item content rest' (S i) pos (depth - 1)%Z acc
      else if Ascii.eqb c "," && (depth =? 0)%Z then
        acc' <- item (Str.substr pos (i - pos) content) acc ;;
        scan item content rest' (S i) (S i) depth acc'
      else scan item content rest' (S i) pos depth acc
  end.

(** [Table::deserialize], over the recursive call. *)
Definition Table_deserialize_with (data : string) : M Table :=
  if Str.empty data then throw EmptyData
  else if Str.starts_with "[" data then
    if (String.length data <? 2)%nat || negb (Str.ends_with "]" data)
    then throw MalformedArray
    else if (String.length data =? 2)%nat
    then ret (Table_of_vector [])
    else
      let content := Str.substr 1 (String.length data - 2) data in
      r <- scan array_item content content 0 0 0%Z [] ;;
      let '(vec, pos, _) := r in
      vec <- array_item (Str.substr_from pos content) vec ;;
      ret (Table_of_vector vec)
  else if Str.starts_with "{" data then
    if (String.length data <? 2)%nat || negb (Str.ends_with "}" data)
    then throw MalformedTable
    else if (String.length data =? 2)%nat
    then ret Table_empty
    else
      let content := Str.substr 1 (String.length data - 2) data in
      r <- scan object_item content content 0 0 0%Z [] ;;
      let '(map, pos, _) := r in
      map <- object_item (Str.substr_from pos content) map ;;
      ret (Table_of_map map)
  else throw UnknownType.

End TableDeserialize.

(** The numeric attempt of [Value::deserialize]: the [try] block;
    [None] when [std::stof] or [std::stoi] throws. *)
Definition numeric (data : string) : option Value :=
  match Str.find "." data with
  | Some _ => option_map VFloat (Float32.stof data)
  | None => option_map VInt (Int.stoi data)
  end.

Definition is_quoted (data : string) : bool :=
  (2 <=? String.length data)%nat &&
  Str.starts_with dquote data && Str.ends_with dquote data.

(** [Value::deserialize], with a bound on the depth of the recursion
    through [Table::deserialize]. *)
Fixpoint Value_deserialize_fuel (fuel : nat) (data : string) : M Value :=
  match fuel with
  | O => out_of_fuel
  | S fuel' =>
      if Str.empty data then throw EmptyData
      else
        match numeric data with
        | Some v => ret v
        | None =>
            if String.eqb data "true" then ret (VBool true)
            else if String.eqb data "false" then ret (VBool false)
            else if is_quoted data
            then ret (VString (Str.substr 1 (String.length data - 2) data))
            else if Str.starts_with "[" data || Str.starts_with "{" data
            then
              t <- Table_deserialize_with (Value_deserialize_fuel fuel') data ;;
              Value_of_table t
            else ret (VString data)
        end
  end.

(** [Value::deserialize]: every nested fragment is shorter than the
    fragment around it, so the length bounds the recursion. *)
Definition Value_deserialize (data : string) : M Value :=
  Value_deserialize_fuel (S (String.length data)) data.

(** [Table::deserialize] *)
Definition Table_deserialize (data : string) : M Table :=
  Table_deserialize_with (Value_deserialize_fuel (String.length data)) data.


(** ** The scan, seen as a split

    What the scan of [Table::deserialize] hands to [array_item] or
    [object_item]: the segments before each comma met at depth zero,
    then the segment left after the last one.  [cur] is the part of the
    current segment already read. *)

Record split : Type := mkSplit {
  closed : list string;   (* the segments ended by a comma *)
  last : string;          (* the segment after the last comma *)
  final_depth : Z         (* [depth] when the scan ends *)
}.

Fixpoint segments (rest cur : string) (depth : Z) : split :=
  match rest with
  | EmptyString => mkSplit [] cur depth
  | String c rest' =>
      let cur' := cur ++ String c EmptyString in
      if is_open c then segments rest' cur' (depth + 1)%Z
      else if is_close c then segments rest' cur' (depth - 1)%Z
      else if Ascii.eqb c "," && (depth =? 0)%Z then
        let r := segments rest' EmptyString depth in
        mkSplit (cur :: closed r) (last r) (final_depth r)
      else segments rest' cur' depth
  end.

(** All the segments of [content], in order. *)
Definition all_segments (content : string) : list string :=
  let r := segments content EmptyString 0%Z in
  (closed r ++ [last r])%list.

(** [item] run over the segments from left to right. *)
Fixpoint fold_items {A} (item : string -> A -> M A) (segs : list string)
         (acc : A) : M A :=
  match segs with
  | [] => ret acc
  | s :: segs' => acc' <- item s acc ;; fold_items item segs' acc'
  end.

(** A fragment between two given characters. *)
Definition enclosed (c d : ascii) (content : string) : string :=
  String c (content ++ String d EmptyString).

(** ** Tables as the program builds them *)

(** A sequence of assignments [t[k] = v], in order. *)
Definition assign_all (ops : list (Value * Value)) (t : Table) : Table :=
  fold_left (fun t kv => Table_assign t (fst kv) (snd kv)) ops t.

(** The texts of [l] with [sep] between them, and nothing after the
    last one. *)
Fixpoint join (sep : string) (l : list string) : string :=
  match l with
  | [] => EmptyString
  | [a] => a
  | a :: l' => a ++ sep ++ join sep l'
  end.

(** The text of one pair of the map form. *)
Definition pair_text (kv : Value * Value) : string :=
  Value_serialize (fst kv) ++ "=" ++ Value_serialize (snd kv).

Definition keys (m : Map) : list Value := List.map fst m.

(** [a < b] holds. *)
Definition key_lt (a b : Value) : Prop := Value_lt a b = true.

(** The keys [0, 1, ..., n-1] of an array. *)
Definition array_keys (n : nat) : list Value :=
  List.map (fun i => VInt (Z.of_nat i)) (seq 0 n).

(** The invariant of the array mode. *)
Definition array_invariant (t : Table) : Prop :=
  is_array t = true -> keys (data t) = array_keys (List.length (data t)).

(** The tables a caller can make with the constructors and
    [operator[]]. *)
Inductive constructed : Table -> Prop :=
| constructed_empty : constructed Table_empty
| constructed_map (m : Map) : constructed (Table_of_map m)
| constructed_vector (d : list Value) : constructed (Table_of_vector d)
| constructed_index (t : Table) (key : Value) :
    constructed t -> constructed (fst (Table_index t key))
| constructed_assign (t : Table) (key v : Value) :
    constructed t -> constructed (Table_assign t key v).

(** The other kind of bracket: [[] for [{], []] for [}], and back. *)
Definition swap_kind (c : ascii) : ascii :=
  if Ascii.eqb c "[" then "{"%char
  else if Ascii.eqb c "{" then "["%char
  else if Ascii.eqb c "]" then "}"%char
  else if Ascii.eqb c "}" then "]"%char
  else c.

Fixpoint swap_brackets (s : string) : string :=
  match s with
  | EmptyString => EmptyString
  | String c s' => String (swap_kind c) (swap_brackets s')
  end.

(** ** When parsing fails, in the words of the specification

    A fragment fails to parse when it is empty; when it starts with [[]
    or [{] and does not end with the matching bracket; in the object
    form, when an entry (a segment that is not empty once trimmed) has
    no [=]; or when a nested fragment fails: a trimmed segment of the
    array form, the trimmed key or value text of an entry with both.
    The recursion is bounded by the length of the fragment. *)

Definition closes (d : ascii) (data : string) : bool :=
  (2 <=? String.length data)%nat && Str.ends_with d data.

Definition inner (data : string) : string :=
  Str.substr 1 (String.length data - 2) data.

Fixpoint decode_fails_fuel (fuel : nat) (data : string) : bool :=
  match fuel with
  | O => false
  | S fuel' =>
      if Str.empty data then true
      else if Str.starts_with "[" data then
        negb (closes "]" data) ||
        existsb (fun seg =>
                   let s := Str.trim seg in
                   negb (Str.empty s) && decode_fails_fuel fuel' s)
                (all_segments (inner data))
      else if Str.starts_with "{" data then
        negb (closes "}" data) ||
        existsb (fun seg =>
                   let s := Str.trim seg in
                   negb (Str.empty s) &&
                   match Str.find "=" s with
                   | None => true
                   | Some e =>
                       let k := Str.trim (Str.substr 0 e s) in
                       let v := Str.trim (Str.substr_from (S e) s) in
                       negb (Str.empty k) && negb (Str.empty v) &&
                       (decode_fails_fuel fuel' v || decode_fails_fuel fuel' k)
                   end)
                (all_segments (inner data))
      else false
  end.

Definition decode_fails (data : string) : bool :=
  decode_fails_fuel (S (String.length data)) data.

(** A call throws. *)
Definition throws {A} (r : result A) : Prop := exists e, r = Throw e.

(** A call returns. *)
Definition returns_value {A} (r : result A) : Prop := exists a, r = Ok a.

(** The outcome [r] is a throw when [b] holds and a returned value
    otherwise. *)
Definition fails_iff {A} (b : bool) (r : result A) : Prop :=
  if b then throws r else returns_value r.

(** What makes an entry of the object form fail, given what makes a
    nested fragment fail. *)
Definition entry_fails (nested : string -> bool) (seg : string) : bool :=
  let s := Str.trim seg in
  negb (Str.empty s) &&
  match Str.find "=" s with
  | None => true
  | Some e =>
      let k := Str.trim (Str.substr 0 e s) in
      let v := Str.trim (Str.substr_from (S e) s) in
      negb (Str.empty k) && negb (Str.empty v) && (nested v || nested k)
  end.

(** The same for a segment of the array form. *)
Definition element_fails (nested : string -> bool) (seg : string) : bool :=
  let s := Str.trim seg in negb (Str.empty s) && nested s.

(** ** Decimal texts *)

(** [ds] is a decimal notation of [n]: digits only, at least one, that
    [read_digits] reads as [n]. *)
Definition decimal_of (ds : string) (n : N) : Prop :=
  ds <> EmptyString /\
  (forall c, Str.mem c ds = true -> Int.is_digit c = true) /\
  (forall a cnt rest,
     Int.read_digits (ds ++ rest) a cnt
     = Int.read_digits rest (a * 10 ^ N.of_nat (String.length ds) + n)
                       (cnt + String.length ds)).

(** ** Characters of the texts the serializer writes *)

(** Every character of [s] satisfies [P]. *)
Definition chars_in (P : ascii -> bool) (s : string) : Prop :=
  forall c, Str.mem c s = true -> P c = true.

(** A character that the scan of [Table::deserialize] passes over:
    no bracket, no brace, no comma. *)
Definition inert (c : ascii) : bool :=
  negb (is_open c || is_close c || Ascii.eqb c ",").

Definition not_blank (c : ascii) : bool := negb (Str.mem c Str.blanks).

Definition not_equals (c : ascii) : bool := negb (Ascii.eqb c "=").

(** The characters of a number as it is written. *)
Definition number_char (c : ascii) : bool :=
  Int.is_digit c || Ascii.eqb c "-" || Ascii.eqb c ".".

(** ** Round trips: what is compared, and on which values *)

Section All2.

Variable f : Value -> Value -> bool.

(** Two maps of the same length whose values, and keys when
    [with_keys], are related by [f] place by place. *)
Fixpoint all2_pairs (with_keys : bool) (l1 l2 : Map) : bool :=
  match l1, l2 with
  | [], [] => true
  | (k1, v1) :: l1', (k2, v2) :: l2' =>
      (if with_keys then f k1 k2 else true) && f v1 v2 &&
      all2_pairs with_keys l1' l2'
  | _, _ => false
  end.

End All2.

(** The same alternative and the same content: integers, booleans and
    strings equal, floats equal once written with one decimal, tables
    of the same mode with the same content place by place (the values
    in order for an array, the pairs in order for a map).  The address
    of a table is not compared. *)
Fixpoint same_content (a b : Value) : bool :=
  match a, b with
  | VInt i, VInt j => (i =? j)%Z
  | VFloat f, VFloat g => String.eqb (Float32.fixed1 f) (Float32.fixed1 g)
  | VBool x, VBool y => Bool.eqb x y
  | VString s, VString u => String.eqb s u
  | VTable _ t, VTable _ u =>
      Bool.eqb (is_array t) (is_array u) &&
      all2_pairs same_content (negb (is_array t)) (data t) (data u)
  | _, _ => false
  end.

(** [parse(serialize(v))] returns a value with the content of [v]. *)
Definition round_trips (v : Value) : Prop :=
  forall n, exists v' n',
    Value_deserialize (Value_serialize v) n = Ok (v', n') /\
    same_content v v' = true.

Fixpoint all_chars (P : ascii -> bool) (s : string) : bool :=
  match s with
  | EmptyString => true
  | String c s' => P c && all_chars P s'
  end.

(** The values the round trip is claimed for: an [int] is in range, a
    float is a binary32 number, no string contains a double quote and
    no key of a table is a table. *)
Fixpoint in_claim_scope (v : Value) : bool :=
  match v with
  | VInt i => Int.in_range i
  | VFloat f => Float32.valid f
  | VBool _ => true
  | VString s => negb (Str.mem dquote s)
  | VTable _ t =>
      forallb (fun kv => let '(k, x) := kv in
                         negb (is_table k) && in_claim_scope k && in_claim_scope x)
              (data t)
  end.

(** Where a value sits: alone, in a table (as an element of an array
    or a value of a map), or as a key of a map. *)
Inductive place : Type := Top | Element | Key.

Definition string_ok (pl : place) (s : string) : bool :=
  match pl with
  | Top => true
  | Element => all_chars inert s
  | Key => all_chars inert s && all_chars not_equals s
  end.

(** A float in tenths, as it is written with one decimal; the two
    zeros are the same. *)
Definition round1 (f : float) : Z :=
  match f with
  | Float32.Ffin neg k => Float32.signed neg (Float32.tenths k)
  | _ => 0%Z
  end.

(** [operator<] on keys, two floats being compared in tenths. *)
Definition key_lt1 (a b : Value) : bool :=
  match a, b with
  | VFloat f, VFloat g => (round1 f <? round1 g)%Z
  | _, _ => Value_lt a b
  end.

Fixpoint ascending1 (l : list Value) : bool :=
  match l with
  | [] => true
  | k :: l' => forallb (key_lt1 k) l' && ascending1 l'
  end.

(** The values that do round-trip: an [int] is in range; a float is a
    finite binary32 number; a string inside a table contains no comma,
    bracket or brace, and no [=] when it is a key; an array has at most
    [2^31] elements; the keys of a map are no tables and are strictly
    ascending, two float keys being different also in tenths. *)
Fixpoint roundtrippable (pl : place) (v : Value) : bool :=
  match v with
  | VInt i => Int.in_range i
  | VFloat f => Float32.valid f && Float32.is_finite f
  | VBool _ => true
  | VString s => string_ok pl s
  | VTable _ t =>
      match pl with
      | Key => false
      | _ =>
          if is_array t then
            (Z.of_nat (List.length (data t)) <=? 2 ^ 31)%Z &&
            forallb (fun kv => let '(_, x) := kv in roundtrippable Element x)
                    (data t)
          else
            forallb (fun kv => let '(k, x) := kv in
                               roundtrippable Key k && roundtrippable Element x)
                    (data t) &&
            ascending1 (keys (data t))
      end
  end.

(** A scalar as it is read back: a float becomes the float that its text
    denotes. *)
Definition reread (v : Value) : Value :=
  match v with
  | VFloat f =>
      match Float32.stof (Float32.fixed1 f) with
      | Some g => VFloat g
      | None => v
      end
  | _ => v
  end.

(** The scan, started at a depth of at least [lo], passes over [s]
    without ending a segment and comes back to the depth it started
    from. *)
Definition chunk_at (lo : Z) (s : string) : Prop :=
  forall d, (lo <= d)%Z ->
  forall rest cur, segments (s ++ rest) cur d = segments rest (cur ++ s) d.

(** The text of an element of the array form. *)
Definition element_text (kv : Value * Value) : string :=
  Value_serialize (snd kv).

(** A text that is not empty and has no blank at either end. *)
Definition ends_ok (s : string) : Prop :=
  exists c d, Str.front s = Some c /\ Str.back s = Some d /\
              not_blank c = true /\ not_blank d = true.

(** What the round trip gives for [v]: a value with the content of
    [v], which is [reread v] when [v] is no table. *)
Definition reads_back (v : Value) : Prop :=
  forall pl, roundtrippable pl v = true ->
  forall n, exists v' n',
    Value_deserialize (Value_serialize v) n = Ok (v', n') /\
    same_content v v' = true /\
    (is_table v = false -> v' = reread v).

(** ** A value of the tests, for the examples *)

(** The float nearest to a decimal text ([0.] for a text that is no
    number). *)
Definition float_of_text (s : string) : float :=
  match Float32.stof s with
  | Some f => f
  | None => Float32.Ffin false 0
  end.

Definition tenth : float := Eval vm_compute in float_of_text "0.1".
Definition minus_42_5 : float := Eval vm_compute in float_of_text "-42.5".

(** An array of a map (with a nested array), a float, a boolean and a
    string with a blank. *)
Definition sample : Value :=
  VTable 7%N
    (Table_of_vector
       [VTable 3%N
          (assign_all
             [(VString "y", VFloat tenth);
              (VString "name", VString "this person");
              (VString "height", VInt 50);
              (VFloat tenth, VTable 4%N (Table_of_vector [VInt (-1); VBool false]));
              (VInt 2, VString "=")]
             Table_empty);
        VFloat minus_42_5;
        VBool true;
        VString " x y "]).

(** ** The tables of [test.cpp] *)

Definition rect (x y width height : Z) : Table :=
  assign_all
    [(VString "x", VInt x); (VString "y", VInt y);
     (VString "width", VInt width); (VString "height", VInt height)]
    Table_empty.

Definition rectangles : Table :=
  Table_of_vector [VTable 1%N (rect 10 20 100 50); VTable 2%N (rect 30 40 200 75)].

Definition rectangles_text : string :=
  "[{" ++ quoted "height" ++ "=50," ++ quoted "width" ++ "=100," ++
  quoted "x" ++ "=10," ++ quoted "y" ++ "=20},{" ++
  quoted "height" ++ "=75," ++ quoted "width" ++ "=200," ++
  quoted "x" ++ "=30," ++ quoted "y" ++ "=40}]".

(** [Value::as_table]: [None] when [std::get] throws
    [std::bad_variant_access]. *)
Definition as_table (v : Value) : option Table :=
  match v with
  | VTable _ t => Some t
  | _ => None
  end.

(** [v.as_table()[key]], read. *)
Definition field (v key : Value) : option Value :=
  option_map (fun t => snd (Table_index t key)) (as_table v).

(** ** The event format: [serialize_to_netvent] and
    [deserialize_from_netvent] *)

(** [std::map<std::string, Value>]: its pairs in the order of
    [std::string]'s [operator<]. *)
Definition Fields := list (string * Value).

(** [m[k] = v] on such a map. *)
Fixpoint fields_set (k : string) (v : Value) (m : Fields) : Fields :=
  match m with
  | [] => [(k, v)]
  | (k', v') :: m' =>
      if String.ltb k k' then (k, v) :: m
      else if String.ltb k' k then (k', v') :: fields_set k v m'
      else (k', v) :: m'
  end.

(** [m.find(k)] on such a map. *)
Fixpoint fields_find (k : string) (m : Fields) : option Value :=
  match m with
  | [] => None
  | (k', v') :: m' =>
      if String.ltb k k' then None
      else if String.ltb k' k then fields_find k m'
      else Some v'
  end.

Definition newline : ascii := "010"%char.

(** The loop of [serialize_to_netvent]: one line for each pair. *)
Fixpoint field_lines (data : Fields) : string :=
  match data with
  | [] => EmptyString
  | (k, v) :: data' =>
      k ++ " " ++ Value_serialize v ++ String newline (field_lines data')
  end.

(** [serialize_to_netvent] *)
Definition serialize_to_netvent (event_name : Value) (data : Fields) : string :=
  Value_serialize event_name ++ String newline (field_lines data).

(** The characters up to the first line feed, and what follows it. *)
Fixpoint read_line (ss : string) : string * string :=
  match ss with
  | EmptyString => (EmptyString, EmptyString)
  | String c ss' =>
      if Ascii.eqb c newline then (EmptyString, ss')
      else let '(line, rest) := read_line ss' in (String c line, rest)
  end.

(** [std::getline(ss, line)] on what is left to read of the stream:
    [None] when it fails, at the end of the stream; otherwise the line
    and what is left after it. *)
Definition getline (ss : string) : option (string * string) :=
  match ss with
  | EmptyString => None
  | String _ _ => Some (read_line ss)
  end.

(** The lines that [std::getline] returns, call after call, until it
    fails (see [stream_lines_getline]). *)
Fixpoint stream_lines (ss : string) : list string :=
  match ss with
  | EmptyString => []
  | String c ss' =>
      if Ascii.eqb c newline then EmptyString :: stream_lines ss'
      else
        match stream_lines ss' with
        | [] => [String c EmptyString]
        | line :: rest => String c line :: rest
        end
  end.

(** The test [line.empty() || line.substr(0, 2) == "//" || line[0] == '#'] *)
Definition skipped (line : string) : bool :=
  Str.empty line || String.eqb (Str.substr 0 2 line) "//" ||
  Str.starts_with "#" line.

(** What the first loop makes of a line before that test. *)
Definition event_line (line : string) : string :=
  let line := Str.erase_front (Str.find_first_not_of Str.blanks line) line in
  let line :=
    match Str.find_str "//" line with
    | Some comment_pos => Str.substr 0 comment_pos line
    | None => line
    end in
  Str.erase_after (Str.find_last_not_of Str.blanks line) line.

(** What the second loop makes of a line before that test: the end of
    the line is trimmed only where a comment was cut. *)
Definition field_line (line : string) : string :=
  let line := Str.erase_front (Str.find_first_not_of Str.blanks line) line in
  match Str.find_str "//" line with
  | Some comment_pos =>
      let line := Str.substr 0 comment_pos line in
      Str.erase_after (Str.find_last_not_of Str.blanks line) line
  | None => line
  end.

(** The first loop: the event name is read from the first line that is
    not skipped; returns it with the lines left in the stream. *)
Fixpoint read_event (lines : list string) : M (Value * list string) :=
  match lines with
  | [] => ret (Value_default, [])
  | line :: rest =>
      let line := event_line line in
      if skipped line then read_event rest
      else event_name <- Value_deserialize line ;; ret (event_name, rest)
  end.

(** The body of the second loop. *)
Definition read_field (line : string) (result : Fields) : M Fields :=
  let line := field_line line in
  if skipped line then ret result
  else
    match Str.find " " line with
    | None => ret result
    | Some space_pos =>
        let key := Str.substr 0 space_pos line in
        match Str.find_first_not_of_from Str.blanks space_pos line with
        | None => ret result
        | Some value_start =>
            let value := Str.substr_from value_start line in
            v <- Value_deserialize value ;; ret (fields_set key v result)
        end
    end.

(** The second loop. *)
Fixpoint read_fields (lines : list string) (result : Fields) : M Fields :=
  match lines with
  | [] => ret result
  | line :: rest =>
      result' <- read_field line result ;; read_fields rest result'
  end.

(** The two loops, on the lines of the stream. *)
Definition read_lines (lines : list string) : M (Value * Fields) :=
  r <- read_event lines ;;
  result <- read_fields (snd r) [] ;;
  ret (fst r, result).

(** [deserialize_from_netvent] *)
Definition deserialize_from_netvent (data : string) : M (Value * Fields) :=
  read_lines (stream_lines data).

(** ** Texts of the event format *)

(** The lines [ls], each ended by a line feed. *)
Fixpoint unlines (ls : list string) : string :=
  match ls with
  | [] => EmptyString
  | l :: ls' => l ++ String newline (unlines ls')
  end.

(** A text without a line feed. *)
Definition one_line (s : string) : bool := negb (Str.mem newline s).

(** A text in which [//] does not occur. *)
Definition no_comment (s : string) : bool :=
  match Str.find_str "//" s with
  | None => true
  | Some _ => false
  end.

(** A line with nothing but blanks, or whose first character after the
    leading blanks is [#], or that starts there with [//]. *)
Definition ignorable (line : string) : bool :=
  let line := Str.erase_front (Str.find_first_not_of Str.blanks line) line in
  Str.empty line || Str.starts_with "#" line || String.prefix "//" line.

(** A key that [serialize_to_netvent] writes so that it is read back:
    not empty, without a space or a line feed, not starting with a tab
    or with [#], and without [//]. *)
Definition field_name_ok (k : string) : bool :=
  negb (Str.empty k) &&
  all_chars (fun c => negb (Ascii.eqb c " ") && negb (Ascii.eqb c newline)) k &&
  negb (Str.starts_with "009" k) && negb (Str.starts_with "#" k) &&
  no_comment k.

(** A value that round-trips and whose text fits on a line of the
    format: no line feed and no [//] in it. *)
Definition line_value (v : Value) : bool :=
  roundtrippable Top v &&
  one_line (Value_serialize v) && no_comment (Value_serialize v).

(** Strictly ascending strings. *)
Fixpoint names_ascending (l : list string) : bool :=
  match l with
  | [] => true
  | k :: l' => forallb (String.ltb k) l' && names_ascending l'
  end.

(** The same keys in the same order, with values of the same content. *)
Definition same_fields (a b : Fields) : Prop :=
  Forall2 (fun kv kv' => fst kv = fst kv' /\
                         same_content (snd kv) (snd kv') = true) a b.

(** A line that has no comment yet and to which one can be added: no
    line feed and no [//] in it, and no blank and no [/] at its end. *)
Definition plain_line (l : string) : bool :=
  one_line l && no_comment l &&
  match Str.back l with
  | Some d => negb (Str.mem d Str.blanks) && negb (Ascii.eqb d "/")
  | None => true
  end.

(** [line], blanks, and a comment. *)
Definition commented (x : string * string * string) : string :=
  let '(line, pad, comment) := x in line ++ pad ++ "//" ++ comment.

(** The errors about the shape of a table. *)
Definition structural (e : error) : bool :=
  match e with
  | MalformedArray | MalformedTable | MissingEquals => true
  | EmptyData | UnknownType => false
  end.

(** The line without its leading blanks, without its trailing blanks. *)
Definition lstrip (s : string) : string :=
  Str.erase_front (Str.find_first_not_of Str.blanks s) s.

Definition rstrip (s : string) : string :=
  Str.erase_after (Str.find_last_not_of Str.blanks s) s.

(** A text of spaces and tabs. *)
Definition blank_text (s : string) : bool :=
  all_chars (fun c => Str.mem c Str.blanks) s.

(** The line up to its comment. *)
Definition cut_comment (s : string) : string :=
  match Str.find_str "//" s with
  | Some comment_pos => Str.substr 0 comment_pos s
  | None => s
  end.

(** A line, blanks and a comment that can be put together. *)
Definition can_comment (x : string * string * string) : Prop :=
  plain_line (fst (fst x)) = true /\ blank_text (snd (fst x)) = true /\
  one_line (snd x) = true.

(** ** The event of [test_netvent_format] *)

Definition shoot_fields : Fields :=
  [("gun_active", VBool true); ("player_name", VString "this person");
   ("x", VInt 0); ("y", VFloat tenth)].

Definition shoot_input : string :=
  "// comments can also be like this" ++ String newline
  (quoted "shoot" ++ " // event name" ++ String newline
  ("x 0 // int" ++ String newline
  ("y 0.1 // float" ++ String newline
  ("player_name " ++ quoted "this person" ++ " // string" ++ String newline
   "gun_active true // bool")))).

(** A scalar whose number the program can hold: an [int] in range, a
    [float] that is a binary32 number. *)
Definition scalar_in_range (v : Value) : bool :=
  match v with
  | VInt i => Int.in_range i
  | VFloat f => Float32.valid f
  | VBool _ | VString _ => true
  | VTable _ _ => false
  end.

(** What [Value::deserialize] returns for the text of a scalar [v]:
    [v] itself, but for a float, where it is a float with the same text
    (the text has one decimal) when it is finite, and the text itself,
    as a string, when it is an infinity or a NaN. *)
Definition read_back_scalar (v v' : Value) : Prop :=
  match v with
  | VFloat f =>
      if Float32.is_finite f
      then exists g, v' = VFloat g /\ Float32.fixed1 g = Float32.fixed1 f
      else v' = VString (Float32.fixed1 f)
  | _ => v' = v
  end.

(** ** Blanks in the text of a table *)

(** The brackets and braces of [s] are balanced from [depth] open ones
    on, and no comma stands outside all of them. *)
Fixpoint balanced_from (depth : nat) (s : string) : bool :=
  match s with
  | EmptyString => (depth =? 0)%nat
  | String c s' =>
      if is_open c then balanced_from (S depth) s'
      else if is_close c then
        match depth with
        | O => false
        | S d => balanced_from d s'
        end
      else if Ascii.eqb c "," then
        negb (depth =? 0)%nat && balanced_from depth s'
      else balanced_from depth s'
  end.

Definition balanced (s : string) : bool := balanced_from 0 s.

(** A text with blanks before and after it. *)
Record spaced : Type := mkSpaced {
  before : string;
  text : string;
  after : string
}.

Definition spaced_text (x : spaced) : string :=
  before x ++ text x ++ after x.

Definition spaced_ok (x : spaced) : bool :=
  blank_text (before x) && balanced (text x) && blank_text (after x).

(** An entry of the object form, with and without the blanks. *)
Definition spaced_entry (kv : spaced * spaced) : string :=
  spaced_text (fst kv) ++ "=" ++ spaced_text (snd kv).

Definition plain_entry (kv : spaced * spaced) : string :=
  text (fst kv) ++ "=" ++ text (snd kv).

Definition spaced_entry_ok (kv : spaced * spaced) : bool :=
  spaced_ok (fst kv) && spaced_ok (snd kv) &&
  all_chars not_equals (text (fst kv)).

(** The text of a value on a line of the event format: it starts with
    no blank and holds no line feed and no [//]. *)
Definition value_text_ok (t : string) : bool :=
  match t with
  | String c _ => negb (Str.mem c Str.blanks)
  | EmptyString => false
  end && one_line t && no_comment t.

(** * Properties *)

(** ** The order and the equality of [Value] *)

Lemma Value_lt_other_tag (a b : Value) :
  index a <> index b -> Value_lt a b = (index a <? index b)%nat.
Proof.
  intros H. unfold Value_lt.
  apply Nat.eqb_neq in H. now rewrite H.
Qed.

Lemma Value_eq_other_tag (a b : Value) :
  index a <> index b -> Value_eq a b = false.
Proof.
  intros H. unfold Value_eq.
  apply Nat.eqb_neq in H. now rewrite H.
Qed.


(** ** Strings *)

Module StrFacts.

Lemma append_nil_r (s : string) : s ++ EmptyString = s.
Proof. induction s; simpl; congruence. Qed.

Lemma append_assoc (a b c : string) : (a ++ b) ++ c = a ++ (b ++ c).
Proof. induction a; simpl; congruence. Qed.

Lemma length_append (a b : string) :
  String.length (a ++ b) = (String.length a + String.length b)%nat.
Proof. induction a; simpl; congruence. Qed.

Lemma substr_from_app (a b : string) :
  Str.substr_from (String.length a) (a ++ b) = b.
Proof. induction a; simpl; auto. Qed.

Lemma prefix_app (a b : string) : Str.prefix (String.length a) (a ++ b) = a.
Proof.
  induction a; simpl.
  - destruct b; reflexivity.
  - now rewrite IHa.
Qed.

Lemma prefix_all (a : string) : Str.prefix (String.length a) a = a.
Proof. rewrite <- (append_nil_r a) at 2. apply prefix_app. Qed.

Lemma substr_mid (a b c : string) :
  Str.substr (String.length a) (String.length b) (a ++ b ++ c) = b.
Proof. unfold Str.substr. now rewrite substr_from_app, prefix_app. Qed.

Lemma empty_true (s : string) : Str.empty s = true <-> s = EmptyString.
Proof. destruct s; simpl; split; congruence. Qed.

Lemma empty_false (s : string) : Str.empty s = false <-> s <> EmptyString.
Proof. destruct s; simpl; split; congruence. Qed.

Lemma back_app_char (a : string) (c : ascii) :
  Str.back (a ++ String c EmptyString) = Some c.
Proof.
  induction a as [|d a IH]; simpl; auto.
  rewrite IH. destruct a; reflexivity.
Qed.

Lemma back_cons (c : ascii) (s : string) :
  s <> EmptyString -> Str.back (String c s) = Str.back s.
Proof. destruct s; simpl; congruence. Qed.

Lemma find_none_app (c : ascii) (a b : string) :
  Str.find c a = None -> Str.find c (a ++ String c b) = Some (String.length a).
Proof.
  induction a as [|d a IH]; simpl.
  - now rewrite Ascii.eqb_refl.
  - destruct (Ascii.eqb d c); [discriminate|].
    destruct (Str.find c a); [discriminate|].
    intros _. now rewrite IH.
Qed.

Lemma find_some_split (c : ascii) (s : string) (i : nat) :
  Str.find c s = Some i ->
  exists a b, s = a ++ String c b /\ String.length a = i /\ Str.find c a = None.
Proof.
  revert i. induction s as [|d s IH]; simpl; intros i H; [discriminate|].
  destruct (Ascii.eqb_spec d c) as [->|Hd].
  - injection H as <-. exists EmptyString, s. auto.
  - destruct (Str.find c s) as [j|] eqn:E; [|discriminate].
    injection H as <-.
    destruct (IH j eq_refl) as (a & b & -> & Hl & Hn).
    exists (String d a), b. simpl. repeat split; auto.
    apply Ascii.eqb_neq in Hd. now rewrite Hd, Hn.
Qed.

End StrFacts.

(** ** The scan hands the segments of [segments] to [item], in order *)

Lemma bind_ret_l {A B} (a : A) (k : A -> M B) (n : addr) :
  bind (ret a) k n = k a n.
Proof. reflexivity. Qed.

Lemma bind_assoc {A B C} (m : M A) (k : A -> M B) (h : B -> M C) (n : addr) :
  bind (bind m k) h n = bind m (fun a => bind (k a) h) n.
Proof. unfold bind. destruct (m n) as [[a n']| |]; reflexivity. Qed.

Lemma bind_ext {A B} (m : M A) (k k' : A -> M B) (n : addr) :
  (forall a n', k a n' = k' a n') -> bind m k n = bind m k' n.
Proof. intros H. unfold bind. destruct (m n) as [[a n']| |]; auto. Qed.

Lemma scan_segments {A} (item : string -> A -> M A) (rest : string) :
  forall (p1 cur : string) (depth : Z),
  exists pos',
    Str.substr_from pos' (p1 ++ cur ++ rest) = last (segments rest cur depth) /\
    forall acc n,
      scan item (p1 ++ cur ++ rest) rest
           (String.length p1 + String.length cur) (String.length p1) depth acc n
      = bind (fold_items item (closed (segments rest cur depth)) acc)
             (fun acc' => ret (acc', pos', final_depth (segments rest cur depth))) n.
Proof.
  induction rest as [|c rest IH]; intros p1 cur depth.
  - exists (String.length p1). split; [|reflexivity].
    simpl. rewrite StrFacts.append_nil_r. apply StrFacts.substr_from_app.
  - assert (Hstep : forall d,
      exists pos',
        Str.substr_from pos' (p1 ++ cur ++ String c rest)
        = last (segments rest (cur ++ String c EmptyString) d) /\
        forall acc n,
          scan item (p1 ++ cur ++ String c rest) rest
               (S (String.length p1 + String.length cur)) (String.length p1) d acc n
          = bind (fold_items item
                    (closed (segments rest (cur ++ String c EmptyString) d)) acc)
              (fun acc' => ret (acc', pos',
                 final_depth (segments rest (cur ++ String c EmptyString) d))) n).
    { intros d.
      destruct (IH p1 (cur ++ String c EmptyString) d) as (pos' & H1 & H2).
      rewrite StrFacts.append_assoc in H1, H2. simpl in H1, H2.
      rewrite StrFacts.length_append in H2. simpl in H2.
      replace (String.length p1 + (String.length cur + 1))%nat
        with (S (String.length p1 + String.length cur)) in H2 by lia.
      exists pos'. split; auto. }
    simpl. destruct (is_open c); [apply Hstep|].
    destruct (is_close c); [apply Hstep|].
    destruct (Ascii.eqb_spec c ","%char) as [->|Hc]; simpl; [|apply Hstep].
    destruct (Z.eqb depth 0); simpl; [|apply Hstep].
    destruct (IH (p1 ++ cur ++ String ","%char EmptyString) EmptyString depth)
      as (pos' & H1 & H2).
    rewrite !StrFacts.append_assoc in H1, H2. simpl in H1, H2.
    rewrite !StrFacts.length_append in H2. simpl in H2.
    replace (String.length p1 + (String.length cur + 1) + 0)%nat
      with (S (String.length p1 + String.length cur)) in H2 by lia.
    replace (String.length p1 + (String.length cur + 1))%nat
      with (S (String.length p1 + String.length cur)) in H2 by lia.
    exists pos'. split; auto.
    intros acc n.
    replace (String.length p1 + String.length cur - String.length p1)%nat
      with (String.length cur) by lia.
    rewrite StrFacts.substr_mid.
    rewrite bind_assoc. apply bind_ext. intros a n'. apply H2.
Qed.

Lemma fold_items_app {A} (item : string -> A -> M A) (l1 l2 : list string) :
  forall acc n,
    fold_items item (l1 ++ l2) acc n
    = bind (fold_items item l1 acc) (fun acc' => fold_items item l2 acc') n.
Proof.
  induction l1 as [|s l1 IH]; intros acc n; simpl; [reflexivity|].
  rewrite bind_assoc. apply bind_ext. intros a n'. apply IH.
Qed.

Lemma bind_ret_r {A} (m : M A) (n : addr) : bind m (fun a => ret a) n = m n.
Proof. unfold bind. destruct (m n) as [[a n']| |]; reflexivity. Qed.

Lemma enclosed_length (c d : ascii) (content : string) :
  String.length (enclosed c d content) = S (S (String.length content)).
Proof. unfold enclosed. simpl. rewrite StrFacts.length_append. simpl. lia. Qed.

Lemma enclosed_back (c d : ascii) (content : string) :
  Str.back (enclosed c d content) = Some d.
Proof.
  unfold enclosed.
  change (String c (content ++ String d EmptyString))
    with ((String c content) ++ String d EmptyString).
  apply StrFacts.back_app_char.
Qed.

Lemma enclosed_content (c d : ascii) (content : string) :
  Str.substr 1 (String.length (enclosed c d content) - 2) (enclosed c d content)
  = content.
Proof.
  rewrite enclosed_length. simpl. rewrite Nat.sub_0_r.
  unfold Str.substr. simpl. apply StrFacts.prefix_app.
Qed.

Lemma enclosed_intro (c d : ascii) (data : string) :
  Str.starts_with c data = true -> Str.ends_with d data = true ->
  (2 <= String.length data)%nat ->
  exists content, data = enclosed c d content.
Proof.
  unfold Str.starts_with, Str.ends_with.
  destruct data as [|c0 s]; simpl; [discriminate|].
  intros Hc. apply Ascii.eqb_eq in Hc. subst c0.
  revert c. induction s as [|e s IH]; intros c Hd Hl; simpl in *; [lia|].
  destruct s as [|e' s].
  - apply Ascii.eqb_eq in Hd. subst. now exists EmptyString.
  - destruct (IH e Hd) as [content Hcontent]; [simpl; lia|].
    exists (String e content). unfold enclosed in *. simpl.
    injection Hcontent as ->. reflexivity.
Qed.

(** [Table::deserialize] on a bracketed fragment runs the item function
    over the segments of what is between the brackets. *)
Lemma Table_deserialize_with_array (deser : string -> M Value)
      (content : string) (n : addr) :
  Table_deserialize_with deser (enclosed "[" "]" content) n
  = bind (fold_items (array_item deser) (all_segments content) [])
         (fun vec => ret (Table_of_vector vec)) n.
Proof.
  unfold Table_deserialize_with.
  change (Str.empty (enclosed "[" "]" content)) with false.
  change (Str.starts_with "[" (enclosed "[" "]" content)) with true.
  cbv iota.
  unfold Str.ends_with. rewrite enclosed_back, enclosed_content.
  rewrite enclosed_length. cbn [Ascii.eqb Bool.eqb negb orb andb Nat.ltb Nat.leb Nat.eqb].
  destruct content as [|c content]; [reflexivity|].
  cbn [String.length Nat.eqb].
  destruct (scan_segments (array_item deser) (String c content)
              EmptyString EmptyString 0%Z) as (pos' & H1 & H2).
  cbn [append String.length Nat.add] in H1, H2.
  unfold all_segments, bind. rewrite H2. unfold bind.
  rewrite fold_items_app. unfold bind.
  set (sp := segments (String c content) EmptyString 0%Z) in *. clearbody sp.
  destruct (fold_items _ _ _ n) as [[vec n']| |]; auto.
  cbn. rewrite H1. unfold bind.
  destruct (array_item deser _ vec n') as [[vec' n'']| |]; auto.
Qed.

Lemma Table_deserialize_with_object (deser : string -> M Value)
      (content : string) (n : addr) :
  Table_deserialize_with deser (enclosed "{" "}" content) n
  = bind (fold_items (object_item deser) (all_segments content) [])
         (fun map => ret (Table_of_map map)) n.
Proof.
  unfold Table_deserialize_with.
  change (Str.empty (enclosed "{" "}" content)) with false.
  change (Str.starts_with "[" (enclosed "{" "}" content)) with false.
  change (Str.starts_with "{" (enclosed "{" "}" content)) with true.
  cbv iota.
  unfold Str.ends_with. rewrite enclosed_back, enclosed_content.
  rewrite enclosed_length. cbn [Ascii.eqb Bool.eqb negb orb andb Nat.ltb Nat.leb Nat.eqb].
  destruct content as [|c content]; [reflexivity|].
  cbn [String.length Nat.eqb].
  destruct (scan_segments (object_item deser) (String c content)
              EmptyString EmptyString 0%Z) as (pos' & H1 & H2).
  cbn [append String.length Nat.add] in H1, H2.
  unfold all_segments, bind. rewrite H2. unfold bind.
  rewrite fold_items_app. unfold bind.
  set (sp := segments (String c content) EmptyString 0%Z) in *. clearbody sp.
  destruct (fold_items _ _ _ n) as [[vec n']| |]; auto.
  cbn. rewrite H1. unfold bind.
  destruct (object_item deser _ vec n') as [[vec' n'']| |]; auto.
Qed.

(** ** Trimming and lengths *)

Module TrimFacts.

Lemma substr_from_length (p : nat) (s : string) :
  (String.length (Str.substr_from p s) <= String.length s)%nat.
Proof.
  revert s. induction p as [|p IH]; intros s; simpl; [lia|].
  destruct s as [|c s]; simpl; [lia|]. specialize (IH s). lia.
Qed.

Lemma prefix_length (k : nat) (s : string) :
  (String.length (Str.prefix k s) <= String.length s)%nat.
Proof.
  revert s. induction k as [|k IH]; intros s; simpl; [lia|].
  destruct s as [|c s]; simpl; [lia|]. specialize (IH s). lia.
Qed.

Lemma substr_length (p k : nat) (s : string) :
  (String.length (Str.substr p k s) <= String.length s)%nat.
Proof.
  unfold Str.substr.
  pose proof (prefix_length k (Str.substr_from p s)).
  pose proof (substr_from_length p s). lia.
Qed.

Lemma erase_front_length (p : Str.pos) (s : string) :
  (String.length (Str.erase_front p s) <= String.length s)%nat.
Proof. destruct p; simpl; [apply substr_from_length | lia]. Qed.

Lemma erase_after_length (p : Str.pos) (s : string) :
  (String.length (Str.erase_after p s) <= String.length s)%nat.
Proof. destruct p; [apply prefix_length | simpl; lia]. Qed.

Lemma trim_length (s : string) :
  (String.length (Str.trim s) <= String.length s)%nat.
Proof.
  unfold Str.trim.
  pose proof (erase_front_length (Str.find_first_not_of Str.blanks s) s).
  pose proof (erase_after_length
    (Str.find_last_not_of Str.blanks
       (Str.erase_front (Str.find_first_not_of Str.blanks s) s))
    (Str.erase_front (Str.find_first_not_of Str.blanks s) s)).
  lia.
Qed.

(** Nothing is stripped in front of a character that is no blank. *)
Lemma erase_front_id (c : ascii) (s : string) :
  Str.mem c Str.blanks = false ->
  Str.erase_front (Str.find_first_not_of Str.blanks (String c s)) (String c s)
  = String c s.
Proof. intros H. cbn [Str.find_first_not_of]. now rewrite H. Qed.

Lemma find_last_not_of_back (s : string) (c : ascii) :
  Str.back s = Some c -> Str.mem c Str.blanks = false ->
  Str.find_last_not_of Str.blanks s = Some (String.length s - 1)%nat.
Proof.
  induction s as [|d s IH]; simpl; [discriminate|].
  destruct s as [|e s].
  - intros [= ->] H. simpl. now rewrite H.
  - intros Hb H. rewrite (IH Hb H). simpl. now rewrite Nat.sub_0_r.
Qed.

(** Nothing is stripped behind a character that is no blank. *)
Lemma erase_after_id (s : string) (c : ascii) :
  Str.back s = Some c -> Str.mem c Str.blanks = false ->
  Str.erase_after (Str.find_last_not_of Str.blanks s) s = s.
Proof.
  intros Hb H. rewrite (find_last_not_of_back s c Hb H).
  destruct s as [|d s]; [discriminate|].
  cbn [String.length Nat.sub Str.erase_after]. rewrite Nat.sub_0_r.
  apply (StrFacts.prefix_all (String d s)).
Qed.

Lemma trim_id (s : string) (c d : ascii) :
  Str.front s = Some c -> Str.back s = Some d ->
  Str.mem c Str.blanks = false -> Str.mem d Str.blanks = false ->
  Str.trim s = s.
Proof.
  intros Hf Hb Hc Hd. unfold Str.trim.
  destruct s as [|c0 s]; [discriminate|]. injection Hf as ->.
  rewrite (erase_front_id c s Hc). now apply erase_after_id with d.
Qed.

End TrimFacts.

(** ** The length of the segments *)

Lemma segments_length (rest : string) :
  forall cur depth s,
    In s (closed (segments rest cur depth) ++ [last (segments rest cur depth)]) ->
    (String.length s <= String.length cur + String.length rest)%nat.
Proof.
  induction rest as [|c rest IH]; intros cur depth s; simpl.
  - intros [<-|[]]. lia.
  - assert (Hstep : forall d,
      In s (closed (segments rest (cur ++ String c EmptyString) d) ++
            [last (segments rest (cur ++ String c EmptyString) d)]) ->
      (String.length s <= String.length cur + S (String.length rest))%nat).
    { intros d H. apply IH in H. rewrite StrFacts.length_append in H.
      simpl in H. lia. }
    destruct (is_open c); [apply Hstep|].
    destruct (is_close c); [apply Hstep|].
    destruct (Ascii.eqb c ","%char && (depth =? 0)%Z); [|apply Hstep].
    simpl. intros [<-|H]; [lia|]. apply IH in H. simpl in H. lia.
Qed.

Lemma all_segments_length (content s : string) :
  In s (all_segments content) ->
  (String.length s <= String.length content)%nat.
Proof. intros H. apply segments_length in H. simpl in H. lia. Qed.

(** ** The recursion bound is enough *)

Lemma Table_deserialize_with_cases (data : string) :
  (exists content, data = enclosed "[" "]" content) \/
  (exists content, data = enclosed "{" "}" content) \/
  (exists e, forall deser n, Table_deserialize_with deser data n = Throw e).
Proof.
  destruct (Str.empty data) eqn:He.
  { right; right. exists EmptyData. intros. unfold Table_deserialize_with.
    now rewrite He. }
  destruct (Str.starts_with "[" data) eqn:Ha.
  { destruct ((String.length data <? 2)%nat || negb (Str.ends_with "]" data)) eqn:Hb.
    - right; right. exists MalformedArray. intros. unfold Table_deserialize_with.
      now rewrite He, Ha, Hb.
    - left. apply orb_false_iff in Hb. destruct Hb as [Hl Hb].
      apply Nat.ltb_ge in Hl. apply negb_false_iff in Hb.
      now apply enclosed_intro. }
  destruct (Str.starts_with "{" data) eqn:Ho.
  { destruct ((String.length data <? 2)%nat || negb (Str.ends_with "}" data)) eqn:Hb.
    - right; right. exists MalformedTable. intros. unfold Table_deserialize_with.
      now rewrite He, Ha, Ho, Hb.
    - right; left. apply orb_false_iff in Hb. destruct Hb as [Hl Hb].
      apply Nat.ltb_ge in Hl. apply negb_false_iff in Hb.
      now apply enclosed_intro. }
  right; right. exists UnknownType. intros. unfold Table_deserialize_with.
  now rewrite He, Ha, Ho.
Qed.

Section ItemsUpTo.

(** Two recursive calls that agree on all fragments of length at most
    [L], the first of which returns or throws on them. *)
Variables deser1 deser2 : string -> M Value.
Variable L : nat.
Hypothesis agree :
  forall s n, (String.length s <= L)%nat -> deser1 s n = deser2 s n.
Hypothesis returns :
  forall s n, (String.length s <= L)%nat -> deser1 s n <> OutOfFuel.

Lemma array_item_upto (item : string) (vec : list Value) (n : addr) :
  (String.length item <= L)%nat ->
  array_item deser1 item vec n = array_item deser2 item vec n /\
  array_item deser1 item vec n <> OutOfFuel.
Proof.
  intros Hl. unfold array_item.
  destruct (Str.empty item); cbn [negb]; [split; [reflexivity|discriminate]|].
  destruct (Str.empty (Str.trim item)); cbn [negb];
    [split; [reflexivity|discriminate]|].
  pose proof (TrimFacts.trim_length item) as Ht.
  unfold bind. rewrite <- agree by lia.
  pose proof (returns (Str.trim item) n ltac:(lia)) as Hr.
  destruct (deser1 (Str.trim item) n) as [[v n']| |];
    split; auto; discriminate.
Qed.

Lemma object_item_upto (item : string) (map : Map) (n : addr) :
  (String.length item <= L)%nat ->
  object_item deser1 item map n = object_item deser2 item map n /\
  object_item deser1 item map n <> OutOfFuel.
Proof.
  intros Hl. unfold object_item.
  destruct (Str.empty item); cbn [negb]; [split; [reflexivity|discriminate]|].
  destruct (Str.empty (Str.trim item)); cbn [negb];
    [split; [reflexivity|discriminate]|].
  pose proof (TrimFacts.trim_length item) as Ht.
  destruct (Str.find "=" (Str.trim item)) as [e|]; [|split; [reflexivity|discriminate]].
  set (key := Str.trim (Str.substr 0 e (Str.trim item))).
  set (value := Str.trim (Str.substr_from (S e) (Str.trim item))).
  assert (Hk : (String.length key <= L)%nat).
  { pose proof (TrimFacts.trim_length (Str.substr 0 e (Str.trim item))).
    pose proof (TrimFacts.substr_length 0 e (Str.trim item)). unfold key. lia. }
  assert (Hv : (String.length value <= L)%nat).
  { pose proof (TrimFacts.trim_length (Str.substr_from (S e) (Str.trim item))).
    pose proof (TrimFacts.substr_from_length (S e) (Str.trim item)).
    unfold value. lia. }
  destruct (negb (Str.empty key) && negb (Str.empty value));
    [|split; [reflexivity|discriminate]].
  unfold bind. rewrite <- agree by lia.
  pose proof (returns value n Hv) as Hr.
  destruct (deser1 value n) as [[v n']| |]; [|split; auto; discriminate|easy].
  rewrite <- agree by lia.
  pose proof (returns key n' Hk) as Hr'.
  destruct (deser1 key n') as [[k n'']| |]; split; auto; discriminate.
Qed.

Lemma fold_items_upto {A} (item1 item2 : string -> A -> M A) (segs : list string) :
  (forall s acc n, In s segs ->
     item1 s acc n = item2 s acc n /\ item1 s acc n <> OutOfFuel) ->
  forall acc n,
    fold_items item1 segs acc n = fold_items item2 segs acc n /\
    fold_items item1 segs acc n <> OutOfFuel.
Proof.
  induction segs as [|s segs IH]; intros H acc n; simpl.
  - split; [reflexivity|discriminate].
  - unfold bind. destruct (H s acc n (or_introl eq_refl)) as [H1 H2].
    rewrite <- H1.
    destruct (item1 s acc n) as [[a n']| |]; [|split; auto; discriminate|easy].
    apply IH. intros. apply H. now right.
Qed.

Lemma Table_deserialize_with_upto (data : string) (n : addr) :
  (String.length data <= L + 2)%nat ->
  Table_deserialize_with deser1 data n = Table_deserialize_with deser2 data n /\
  Table_deserialize_with deser1 data n <> OutOfFuel.
Proof.
  intros Hl.
  destruct (Table_deserialize_with_cases data)
    as [[content ->]|[[content ->]|[e He]]].
  - rewrite !Table_deserialize_with_array. rewrite enclosed_length in Hl.
    unfold bind.
    destruct (fold_items_upto (array_item deser1) (array_item deser2)
                (all_segments content)) with (acc := @nil Value) (n := n)
      as [H1 H2].
    { intros s acc n' Hs. apply array_item_upto.
      apply all_segments_length in Hs. lia. }
    rewrite <- H1.
    destruct (fold_items _ _ _ n) as [[a n']| |]; split; auto; discriminate.
  - rewrite !Table_deserialize_with_object. rewrite enclosed_length in Hl.
    unfold bind.
    destruct (fold_items_upto (object_item deser1) (object_item deser2)
                (all_segments content)) with (acc := @nil (Value * Value)) (n := n)
      as [H1 H2].
    { intros s acc n' Hs. apply object_item_upto.
      apply all_segments_length in Hs. lia. }
    rewrite <- H1.
    destruct (fold_items _ _ _ n) as [[a n']| |]; split; auto; discriminate.
  - rewrite !He. split; [reflexivity|discriminate].
Qed.

End ItemsUpTo.

Lemma Value_deserialize_fuel_enough (fuel1 : nat) :
  forall fuel2 data n,
    (String.length data < fuel1)%nat -> (String.length data < fuel2)%nat ->
    Value_deserialize_fuel fuel1 data n = Value_deserialize_fuel fuel2 data n /\
    Value_deserialize_fuel fuel1 data n <> OutOfFuel.
Proof.
  induction fuel1 as [|fuel1 IH]; intros fuel2 data n H1 H2; [lia|].
  destruct fuel2 as [|fuel2]; [lia|].
  cbn [Value_deserialize_fuel].
  destruct (Str.empty data) eqn:He; [split; [reflexivity|discriminate]|].
  destruct (numeric data); [split; [reflexivity|discriminate]|].
  destruct (data =? "true")%string; [split; [reflexivity|discriminate]|].
  destruct (data =? "false")%string; [split; [reflexivity|discriminate]|].
  destruct (is_quoted data); [split; [reflexivity|discriminate]|].
  destruct (Str.starts_with "[" data || Str.starts_with "{" data);
    [|split; [reflexivity|discriminate]].
  assert (Hd : (1 <= String.length data)%nat).
  { destruct data; [discriminate|simpl; lia]. }
  destruct (Table_deserialize_with_upto
              (Value_deserialize_fuel fuel1) (Value_deserialize_fuel fuel2)
              (String.length data - 2)) with (data := data) (n := n)
    as [E R].
  - intros s n' Hs. apply IH; lia.
  - intros s n' Hs. apply (IH fuel2); lia.
  - lia.
  - unfold bind. rewrite <- E.
    destruct (Table_deserialize_with _ data n) as [[t n']| |];
      [split; [reflexivity|discriminate]|split; [reflexivity|discriminate]|easy].
Qed.

(** [Value::deserialize] and [Table::deserialize] return or throw: the
    bound of the model is never reached. *)
Lemma Value_deserialize_returns (data : string) (n : addr) :
  Value_deserialize data n <> OutOfFuel.
Proof. apply (Value_deserialize_fuel_enough _ (S (String.length data))); lia. Qed.

Lemma Value_deserialize_fuel_eq (fuel : nat) (data : string) (n : addr) :
  (String.length data < fuel)%nat ->
  Value_deserialize_fuel fuel data n = Value_deserialize data n.
Proof. intros H. apply Value_deserialize_fuel_enough; lia. Qed.

(** The recursive call inside [Table::deserialize] is
    [Value::deserialize] itself. *)
Lemma Table_deserialize_unfold (data : string) (n : addr) :
  Table_deserialize data n = Table_deserialize_with Value_deserialize data n.
Proof.
  destruct data as [|c data]; [reflexivity|].
  apply (Table_deserialize_with_upto _ _ (String.length (String c data) - 2)).
  - intros s n' Hs. apply Value_deserialize_fuel_eq. simpl in *. lia.
  - intros s n' Hs. apply (Value_deserialize_fuel_enough _ (S (String.length s))).
    + simpl in *; lia.
    + lia.
  - simpl. lia.
Qed.


Lemma Table_deserialize_returns (data : string) (n : addr) :
  Table_deserialize data n <> OutOfFuel.
Proof.
  rewrite Table_deserialize_unfold.
  apply (Table_deserialize_with_upto _ Value_deserialize (String.length data)).
  - reflexivity.
  - intros. apply Value_deserialize_returns.
  - lia.
Qed.

(** ** The dispatch of [Value::deserialize] *)

Lemma Value_deserialize_unfold (data : string) (n : addr) :
  Value_deserialize data n =
  if Str.empty data then Throw EmptyData
  else
    match numeric data with
    | Some v => Ok (v, n)
    | None =>
        if String.eqb data "true" then Ok (VBool true, n)
        else if String.eqb data "false" then Ok (VBool false, n)
        else if is_quoted data
        then Ok (VString (Str.substr 1 (String.length data - 2) data), n)
        else if Str.starts_with "[" data || Str.starts_with "{" data
        then bind (Table_deserialize data) Value_of_table n
        else Ok (VString data, n)
    end.
Proof.
  unfold Value_deserialize. cbn [Value_deserialize_fuel].
  destruct (Str.empty data); [reflexivity|].
  destruct (numeric data); [reflexivity|].
  destruct (data =? "true")%string; [reflexivity|].
  destruct (data =? "false")%string; [reflexivity|].
  destruct (is_quoted data); [reflexivity|].
  destruct (Str.starts_with "[" data || Str.starts_with "{" data); reflexivity.
Qed.

(** C3: on a non-empty fragment [Value::deserialize] first tries a
    number: [std::stof] when the fragment contains a point, [std::stoi]
    otherwise, and only that one; when it throws, the fragment is
    compared with [true] and [false]; then it is a string when it has a
    double quote at both ends (two characters at least, [is_quoted]);
    then it goes to [Table::deserialize] when
    it starts with a bracket or a brace; otherwise the whole fragment is
    returned as a string, not an error. *)
Theorem C3_dispatch_precedence (data : string) (n : addr) :
  data <> EmptyString ->
  (forall f, Str.find "." data <> None -> Float32.stof data = Some f ->
     Value_deserialize data n = Ok (VFloat f, n)) /\
  (forall i, Str.find "." data = None -> Int.stoi data = Some i ->
     Value_deserialize data n = Ok (VInt i, n)) /\
  ((Str.find "." data <> None /\ Float32.stof data = None) \/
   (Str.find "." data = None /\ Int.stoi data = None) ->
   (data = "true" -> Value_deserialize data n = Ok (VBool true, n)) /\
   (data = "false" -> Value_deserialize data n = Ok (VBool false, n)) /\
   (data <> "true" -> data <> "false" ->
    (is_quoted data = true ->
     Value_deserialize data n
     = Ok (VString (Str.substr 1 (String.length data - 2) data), n)) /\
    (is_quoted data = false ->
     (Str.starts_with "[" data = true \/ Str.starts_with "{" data = true ->
      Value_deserialize data n = bind (Table_deserialize data) Value_of_table n) /\
     (Str.starts_with "[" data = false -> Str.starts_with "{" data = false ->
      Value_deserialize data n = Ok (VString data, n))))).
Proof.
  intros Hne. apply StrFacts.empty_false in Hne.
  rewrite Value_deserialize_unfold, Hne. unfold numeric.
  split; [|split].
  - intros f Hp Hf. destruct (Str.find "." data); [|congruence].
    now rewrite Hf.
  - intros i Hp Hi. now rewrite Hp, Hi.
  - intros Hnum.
    assert (Hnone : match Str.find "." data with
                    | Some _ => option_map VFloat (Float32.stof data)
                    | None => option_map VInt (Int.stoi data)
                    end = None).
    { destruct Hnum as [[Hp Hf]|[Hp Hi]].
      - destruct (Str.find "." data); [now rewrite Hf|congruence].
      - now rewrite Hp, Hi. }
    rewrite Hnone. split; [|split].
    + now intros ->.
    + now intros ->.
    + intros Ht Hf. apply String.eqb_neq in Ht, Hf. rewrite Ht, Hf.
      split; [now intros ->|]. intros ->. split.
      * intros [H|H]; rewrite H; [reflexivity|now rewrite orb_true_r].
      * now intros -> ->.
Qed.

Lemma C3_dispatch_precedence_witness :
  Value_deserialize "12abc" 0%N = Ok (VInt 12, 0%N).
Proof.
  apply (C3_dispatch_precedence "12abc" 0%N); [discriminate | reflexivity..].
Defined.

(** The precedence at work: a number in front wins over the fallback,
    the literals over the fallback, quotes over brackets. *)
Example dispatch_number_prefix :
  Value_deserialize "1.5.6" 0%N = Ok (VFloat (Float32.Ffin false (3 * 2 ^ 148)), 0%N) /\
  Value_deserialize " 7" 0%N = Ok (VInt 7, 0%N) /\
  Value_deserialize "truely" 0%N = Ok (VString "truely", 0%N) /\
  Value_deserialize (quoted "[1]") 0%N = Ok (VString "[1]", 0%N) /\
  Value_deserialize "-" 0%N = Ok (VString "-", 0%N) /\
  Value_deserialize (String dquote EmptyString) 0%N
  = Ok (VString (String dquote EmptyString), 0%N).
Proof. repeat split; vm_compute; reflexivity. Qed.

(** ** Segments: what is skipped, what is split *)

Lemma trim_empty_item (item : string) :
  Str.empty item = true -> Str.empty (Str.trim item) = true.
Proof. destruct item; [reflexivity|discriminate]. Qed.

(** A segment of the array form is parsed once trimmed, and skipped when
    nothing is left of it. *)
Lemma array_item_trimmed (deser : string -> M Value) (item : string)
      (vec : list Value) (n : addr) :
  array_item deser item vec n =
  if Str.empty (Str.trim item) then Ok (vec, n)
  else bind (deser (Str.trim item)) (fun v => ret (vec ++ [v])%list) n.
Proof.
  unfold array_item.
  destruct (Str.empty item) eqn:E; cbn [negb].
  - now rewrite (trim_empty_item item E).
  - destruct (Str.empty (Str.trim item)); reflexivity.
Qed.

Lemma substr_from_after (a b : string) (c : ascii) :
  Str.substr_from (S (String.length a)) (a ++ String c b) = b.
Proof. induction a; simpl; auto. Qed.

(** A segment of the object form with its first [=] made explicit: the
    key text is what precedes it, the value text all that follows. *)
Lemma object_item_split (deser : string -> M Value) (item key value : string)
      (map : Map) (n : addr) :
  Str.trim item = key ++ String "=" value ->
  Str.find "=" key = None ->
  object_item deser item map n =
  if negb (Str.empty (Str.trim key)) && negb (Str.empty (Str.trim value))
  then bind (deser (Str.trim value))
         (fun v => bind (deser (Str.trim key))
                     (fun k => ret (map_set k v map))) n
  else Ok (map, n).
Proof.
  intros Ht Hk. unfold object_item.
  assert (Hne : Str.empty (Str.trim item) = false).
  { rewrite Ht. destruct key; reflexivity. }
  destruct (Str.empty item) eqn:E.
  { rewrite (trim_empty_item item E) in Hne. discriminate. }
  cbn [negb]. rewrite Hne. cbn [negb].
  rewrite Ht, (StrFacts.find_none_app "=" key value Hk).
  rewrite substr_from_after.
  unfold Str.substr. cbn [Str.substr_from].
  rewrite StrFacts.prefix_app.
  destruct (negb (Str.empty (Str.trim key)) && negb (Str.empty (Str.trim value)));
    reflexivity.
Qed.

Lemma segments_app_comma (rest : string) :
  forall cur depth,
    final_depth (segments rest cur depth) = 0%Z ->
    segments (rest ++ ",") cur depth
    = mkSplit (closed (segments rest cur depth) ++ [last (segments rest cur depth)])
              EmptyString 0%Z.
Proof.
  induction rest as [|c rest IH]; intros cur depth; simpl.
  - intros ->. reflexivity.
  - destruct (is_open c); [apply IH|].
    destruct (is_close c); [apply IH|].
    destruct (Ascii.eqb c ","%char && (depth =? 0)%Z); [|apply IH].
    simpl. intros H. now rewrite (IH _ _ H).
Qed.

Lemma all_segments_trailing_comma (content : string) :
  final_depth (segments content EmptyString 0%Z) = 0%Z ->
  all_segments (content ++ ",") = (all_segments content ++ [EmptyString])%list.
Proof.
  intros H. unfold all_segments. now rewrite (segments_app_comma _ _ _ H).
Qed.





Lemma fold_items_skip {A} (item : string -> A -> M A) (s : string)
      (l1 l2 : list string) :
  (forall acc n, item s acc n = Ok (acc, n)) ->
  forall acc n,
    fold_items item (l1 ++ s :: l2) acc n = fold_items item (l1 ++ l2) acc n.
Proof.
  intros H acc n. rewrite !fold_items_app. apply bind_ext. intros a n'.
  simpl. unfold bind. now rewrite H.
Qed.

(** C10: a segment of the object form that has its [=] but nothing
    (once trimmed) on the key side or on the value side raises no error
    and stores nothing: the table is the one the other segments give;
    [{"a"=}] and [{=1}] parse to the empty map. *)
Theorem C10_empty_side_dropped (deser : string -> M Value)
        (item key value : string) :
  Str.trim item = key ++ String "=" value ->
  Str.find "=" key = None ->
  Str.trim key = EmptyString \/ Str.trim value = EmptyString ->
  (forall map n, object_item deser item map n = Ok (map, n)) /\
  (forall l1 l2 map n,
     fold_items (object_item deser) (l1 ++ item :: l2) map n
     = fold_items (object_item deser) (l1 ++ l2) map n) /\
  (forall n, Table_deserialize ("{" ++ quoted "a" ++ "=}") n = Ok (Table_empty, n)) /\
  (forall n, Table_deserialize "{=1}" n = Ok (Table_empty, n)).
Proof.
  intros Ht Hk Hside.
  assert (H : forall map n, object_item deser item map n = Ok (map, n)).
  { intros map n.
    rewrite (object_item_split deser item key value map n Ht Hk).
    destruct Hside as [-> | ->]; [reflexivity|].
    now rewrite andb_false_r. }
  split; [exact H|]. split; [|split; reflexivity].
  intros l1 l2 map n. now apply fold_items_skip.
Qed.

Lemma C10_empty_side_dropped_witness :
  (forall map n, object_item Value_deserialize "x= " map n = Ok (map, n)) /\
  Table_deserialize "{1=2,x= ,3=4}" 0%N = Table_deserialize "{1=2,3=4}" 0%N.
Proof.
  split.
  - apply (C10_empty_side_dropped Value_deserialize "x= " "x" EmptyString);
      [reflexivity | reflexivity | right; reflexivity].
  - reflexivity.
Defined.

(** ** [operator<] is transitive; [std::map] keeps its keys ascending *)


Module OrderFacts.

Lemma ascii_compare_lt_trans (a b c : ascii) :
  Ascii.compare a b = Lt -> Ascii.compare b c = Lt -> Ascii.compare a c = Lt.
Proof.
  unfold Ascii.compare. rewrite !N.compare_lt_iff. lia.
Qed.

Lemma string_compare_lt_trans (s1 : string) :
  forall s2 s3,
    String.compare s1 s2 = Lt -> String.compare s2 s3 = Lt ->
    String.compare s1 s3 = Lt.
Proof.
  induction s1 as [|a s1 IH]; intros [|b s2] [|c s3]; simpl; try congruence.
  destruct (Ascii.compare a b) eqn:Eab; try discriminate;
    destruct (Ascii.compare b c) eqn:Ebc; try discriminate.
  - apply Ascii.compare_eq_iff in Eab, Ebc. subst.
    assert (E : Ascii.compare c c = Eq) by (unfold Ascii.compare; apply N.compare_refl).
    rewrite E. apply IH.
  - apply Ascii.compare_eq_iff in Eab. subst. now rewrite Ebc.
  - apply Ascii.compare_eq_iff in Ebc. subst. now rewrite Eab.
  - now rewrite (ascii_compare_lt_trans a b c Eab Ebc).
Qed.

Lemma string_ltb_trans (s1 s2 s3 : string) :
  String.ltb s1 s2 = true -> String.ltb s2 s3 = true -> String.ltb s1 s3 = true.
Proof.
  unfold String.ltb.
  destruct (String.compare s1 s2) eqn:E1; try discriminate.
  destruct (String.compare s2 s3) eqn:E2; try discriminate.
  now rewrite (string_compare_lt_trans s1 s2 s3 E1 E2).
Qed.

Lemma float_lt_trans (a b c : float) :
  Float32.lt a b = true -> Float32.lt b c = true -> Float32.lt a c = true.
Proof.
  destruct a as [|[|]|na ka], b as [|[|]|nb kb], c as [|[|]|nc kc];
    simpl; try congruence.
  rewrite !Z.ltb_lt. lia.
Qed.

Lemma Value_lt_index (a b : Value) :
  Value_lt a b = true -> (index a <= index b)%nat.
Proof.
  unfold Value_lt. destruct (index a =? index b)%nat eqn:E; simpl.
  - apply Nat.eqb_eq in E. lia.
  - rewrite Nat.ltb_lt. lia.
Qed.

Lemma Value_lt_trans (a b c : Value) :
  Value_lt a b = true -> Value_lt b c = true -> Value_lt a c = true.
Proof.
  intros Hab Hbc.
  pose proof (Value_lt_index a b Hab) as Iab.
  pose proof (Value_lt_index b c Hbc) as Ibc.
  destruct (Nat.eq_dec (index a) (index c)) as [Eac|Nac].
  - assert (Eab : index a = index b) by lia.
    destruct a, b, c; simpl in Eab, Eac; try discriminate;
      unfold Value_lt in *; simpl in *.
    + rewrite Z.ltb_lt in *. lia.
    + eapply float_lt_trans; eassumption.
    + destruct b0, b, b1; simpl in *; congruence.
    + eapply string_ltb_trans; eassumption.
    + rewrite N.ltb_lt in *. lia.
  - rewrite Value_lt_other_tag by assumption. apply Nat.ltb_lt. lia.
Qed.

Lemma Value_lt_irrefl (a : Value) : Value_lt a a = false.
Proof.
  unfold Value_lt. rewrite Nat.eqb_refl. simpl.
  destruct a as [i|f|b|s|p t].
  - apply Z.ltb_irrefl.
  - destruct f as [|[|]|nf kf]; simpl; auto. apply Z.ltb_irrefl.
  - destruct b; reflexivity.
  - unfold String.ltb.
    assert (E : String.compare s s = Eq).
    { induction s as [|c s IH]; simpl; auto.
      assert (Ec : Ascii.compare c c = Eq)
        by (unfold Ascii.compare; apply N.compare_refl).
      now rewrite Ec. }
    now rewrite E.
  - apply N.ltb_irrefl.
Qed.

End OrderFacts.


Lemma string_compare_refl (s : string) : String.compare s s = Eq.
Proof.
  induction s as [|c s IH]; simpl; auto.
  assert (Ec : Ascii.compare c c = Eq)
    by (unfold Ascii.compare; apply N.compare_refl).
  now rewrite Ec.
Qed.

Lemma string_eqb_mirrors_ltb (s u : string) :
  String.eqb s u = negb (String.ltb s u) && negb (String.ltb u s).
Proof.
  unfold String.ltb. rewrite (String.compare_antisym u s).
  destruct (String.compare s u) eqn:E; simpl.
  - apply String.compare_eq_iff in E. subst. apply String.eqb_refl.
  - apply String.eqb_neq. intros ->.
    rewrite string_compare_refl in E. discriminate.
  - apply String.eqb_neq. intros ->.
    rewrite string_compare_refl in E. discriminate.
Qed.

Lemma float_eq_mirrors_lt (f g : float) :
  is_nan (VFloat f) = false -> is_nan (VFloat g) = false ->
  Float32.eq f g = negb (Float32.lt f g) && negb (Float32.lt g f).
Proof.
  destruct f as [nf|nf|nf kf], g as [ng|ng|ng kg]; simpl; try discriminate;
    intros _ _.
  - destruct nf, ng; reflexivity.
  - destruct nf; reflexivity.
  - destruct ng; reflexivity.
  - destruct (Z.eqb_spec (Float32.signed nf kf) (Float32.signed ng kg));
      destruct (Z.ltb_spec (Float32.signed nf kf) (Float32.signed ng kg));
      destruct (Z.ltb_spec (Float32.signed ng kg) (Float32.signed nf kf));
      simpl; try reflexivity; lia.
Qed.

(** Away from NaN two values are equal exactly when neither is below
    the other. *)
Lemma Value_eq_mirrors_lt (a b : Value) :
  is_nan a = false -> is_nan b = false ->
  Value_eq a b = negb (Value_lt a b) && negb (Value_lt b a).
Proof.
  intros Ha Hb.
  destruct (Nat.eq_dec (index a) (index b)) as [E|NE].
  - destruct a as [i|f|x|s|p t], b as [j|g|y|u|q w]; try discriminate;
      unfold Value_eq, Value_lt; simpl.
    + destruct (Z.eqb_spec i j); destruct (Z.ltb_spec i j);
        destruct (Z.ltb_spec j i); simpl; try reflexivity; lia.
    + now apply float_eq_mirrors_lt.
    + destruct x, y; reflexivity.
    + apply string_eqb_mirrors_ltb.
    + destruct (N.eqb_spec p q); destruct (N.ltb_spec p q);
        destruct (N.ltb_spec q p); simpl; try reflexivity; lia.
  - rewrite Value_eq_other_tag, !Value_lt_other_tag by congruence.
    destruct (Nat.ltb_spec (index a) (index b));
      destruct (Nat.ltb_spec (index b) (index a)); simpl; try reflexivity; lia.
Qed.



Lemma map_set_head (k v : Value) (m : Map) (k0 : Value) :
  key_lt k0 k -> HdRel key_lt k0 (keys m) -> HdRel key_lt k0 (keys (map_set k v m)).
Proof.
  intros Hk Hm. destruct m as [|[k' v'] m]; simpl.
  - now constructor.
  - inversion Hm; subst.
    destruct (Value_lt k k'); [now constructor|].
    destruct (Value_lt k' k); now constructor.
Qed.

(** [m[k] = v] keeps the keys ascending. *)
Lemma map_set_sorted (k v : Value) (m : Map) :
  Sorted key_lt (keys m) -> Sorted key_lt (keys (map_set k v m)).
Proof.
  induction m as [|[k' v'] m IH]; simpl; intros Hs.
  - repeat constructor.
  - inversion Hs as [|? ? Hs' Hh]; subst.
    destruct (Value_lt k k') eqn:E1.
    + simpl. constructor; [exact Hs|]. now constructor.
    + destruct (Value_lt k' k) eqn:E2; simpl.
      * constructor; [now apply IH|]. now apply map_set_head.
      * now constructor.
Qed.

Lemma assign_all_sorted (ops : list (Value * Value)) :
  forall t, Sorted key_lt (keys (data t)) ->
            Sorted key_lt (keys (data (assign_all ops t))).
Proof.
  induction ops as [|[k v] ops IH]; intros t Hs; simpl; [exact Hs|].
  apply IH. simpl. now apply map_set_sorted.
Qed.

Lemma assign_all_mode (ops : list (Value * Value)) :
  forall t, is_array (assign_all ops t) = is_array t.
Proof.
  induction ops as [|[k v] ops IH]; intros t; simpl; [reflexivity|].
  now rewrite IH.
Qed.

Lemma key_lt_transitive : Transitive key_lt.
Proof. intros a b c. apply OrderFacts.Value_lt_trans. Qed.

(** The loop of the map form writes the pairs with a comma between
    them. *)
Lemma join_cons (sep a : string) (l : list string) :
  join sep (a :: l) = a ++ fold_right (fun x acc => sep ++ x ++ acc) EmptyString l.
Proof.
  revert a. induction l as [|b l IH]; intros a.
  - simpl. now rewrite StrFacts.append_nil_r.
  - change (join sep (a :: b :: l)) with (a ++ sep ++ join sep (b :: l)).
    rewrite IH. reflexivity.
Qed.

Lemma map_items_rest (m : Map) :
  map_items Value_serialize false m
  = fold_right (fun x acc => "," ++ x ++ acc) EmptyString (List.map pair_text m).
Proof.
  induction m as [|[k v] m IH]; [reflexivity|].
  cbn [map_items List.map fold_right]. rewrite IH.
  unfold pair_text at 2. cbn [fst snd].
  now rewrite !StrFacts.append_assoc.
Qed.

Lemma map_items_join (m : Map) :
  map_items Value_serialize true m = join "," (List.map pair_text m).
Proof.
  destruct m as [|[k v] m]; [reflexivity|].
  cbn [map_items List.map]. rewrite join_cons, map_items_rest.
  unfold pair_text at 2. cbn [fst snd].
  now rewrite !StrFacts.append_assoc.
Qed.

(** C5: the map form is written in the order of the map, which is
    ascending in [operator<] whatever the order of the insertions: the
    pairs, a comma between two of them and none after the last, between
    braces.  A map to which [y] was added before [x] is written with
    [x] first. *)
Theorem C5_map_serialized_in_key_order :
  (forall ops : list (Value * Value),
     let t := assign_all ops Table_empty in
     is_array t = false /\
     StronglySorted key_lt (keys (data t)) /\
     Table_serialize t = "{" ++ join "," (List.map pair_text (data t)) ++ "}") /\
  Table_serialize
    (assign_all [(VString "y", VInt 1); (VString "x", VInt 2)] Table_empty)
  = "{" ++ quoted "x" ++ "=2," ++ quoted "y" ++ "=1}" /\
  assign_all [(VString "y", VInt 1); (VString "x", VInt 2)] Table_empty
  = assign_all [(VString "x", VInt 2); (VString "y", VInt 1)] Table_empty.
Proof.
  split; [|split; reflexivity].
  intros ops t.
  assert (Hm : is_array t = false) by apply assign_all_mode.
  split; [exact Hm|]. split.
  - apply Sorted_StronglySorted; [exact key_lt_transitive|].
    apply assign_all_sorted. constructor.
  - unfold Table_serialize, Table_serialize_with. rewrite Hm.
    now rewrite map_items_join.
Qed.

(** ** Arrays: the keys given by [Table(const std::vector<Value>&)] *)

Lemma of_size_t_small (i : nat) :
  (Z.of_nat i < 2 ^ 31)%Z -> Int.of_size_t i = Z.of_nat i.
Proof.
  intros H. unfold Int.of_size_t, Int.max_int.
  rewrite Z.mod_small by lia.
  destruct (Z.leb_spec (Z.of_nat i) (2 ^ 31 - 1)); lia.
Qed.

(** An integer key above all the keys of the map goes to its end. *)
Lemma map_set_append_int (m : Map) (i : Z) (v : Value) :
  Forall (fun kv => exists j, fst kv = VInt j /\ (j < i)%Z) m ->
  map_set (VInt i) v m = (m ++ [(VInt i, v)])%list.
Proof.
  induction m as [|[k' v'] m IH]; intros H; [reflexivity|].
  inversion H as [|? ? (j & Hj & Hlt) H']; subst. simpl in Hj. subst k'.
  cbn [map_set]. unfold Value_lt at 1 2. cbn.
  destruct (Z.ltb_spec i j); [lia|].
  destruct (Z.ltb_spec j i); [|lia].
  now rewrite (IH H').
Qed.

Lemma fill_from_spec (d : list Value) :
  forall (i : nat) (m : Map),
    (Z.of_nat (i + List.length d) <= 2 ^ 31)%Z ->
    Forall (fun kv => exists j, fst kv = VInt j /\ (j < Z.of_nat i)%Z) m ->
    fill_from i d m
    = (m ++ combine (List.map (fun i => VInt (Z.of_nat i)) (seq i (List.length d))) d)%list.
Proof.
  induction d as [|x d IH]; intros i m Hb Hm; simpl.
  - now rewrite app_nil_r.
  - simpl in Hb. rewrite of_size_t_small by lia.
    rewrite (map_set_append_int m (Z.of_nat i) x Hm).
    rewrite IH.
    + now rewrite <- app_assoc.
    + lia.
    + apply Forall_app. split.
      * eapply Forall_impl; [|exact Hm].
        intros kv (j & Hj & Hlt). exists j. split; [auto|lia].
      * constructor; [|constructor]. exists (Z.of_nat i). simpl. split; [auto|lia].
Qed.

Lemma Table_of_vector_data (d : list Value) :
  (Z.of_nat (List.length d) <= 2 ^ 31)%Z ->
  data (Table_of_vector d) = combine (array_keys (List.length d)) d.
Proof.
  intros H. unfold Table_of_vector. cbn [data].
  now rewrite fill_from_spec by (simpl; auto).
Qed.

Lemma keys_combine (ks vs : list Value) :
  List.length ks = List.length vs -> keys (combine ks vs) = ks.
Proof.
  revert vs. induction ks as [|k ks IH]; intros [|v vs]; simpl; try congruence.
  intros [= H]. now rewrite (IH vs H).
Qed.

Lemma values_combine (ks vs : list Value) :
  List.length ks = List.length vs -> List.map snd (combine ks vs) = vs.
Proof.
  revert vs. induction ks as [|k ks IH]; intros [|v vs]; simpl; try congruence.
  intros [= H]. now rewrite (IH vs H).
Qed.

Lemma array_keys_length (n : nat) : List.length (array_keys n) = n.
Proof. unfold array_keys. now rewrite length_map, length_seq. Qed.

Lemma int_keys_sorted (n i : nat) :
  StronglySorted key_lt (List.map (fun i => VInt (Z.of_nat i)) (seq i n)).
Proof.
  revert i. induction n as [|n IH]; intros i; simpl; constructor; [apply IH|].
  apply Forall_forall. intros k Hk. apply in_map_iff in Hk.
  destruct Hk as (j & <- & Hj). apply in_seq in Hj.
  unfold key_lt, Value_lt. simpl. apply Z.ltb_lt. lia.
Qed.

(** A key above all the keys of the map goes to its end. *)
Lemma map_set_append (k v : Value) (m : Map) :
  Forall (fun kv => Value_lt (fst kv) k = true) m ->
  map_set k v m = (m ++ [(k, v)])%list.
Proof.
  induction m as [|[k' v'] m IH]; intros H; [reflexivity|].
  inversion H as [|? ? Hk H']; subst. cbn [fst] in Hk.
  cbn [map_set app].
  assert (Hn : Value_lt k k' = false).
  { destruct (Value_lt k k') eqn:E; [|reflexivity].
    pose proof (OrderFacts.Value_lt_trans k k' k E Hk) as Hkk.
    now rewrite OrderFacts.Value_lt_irrefl in Hkk. }
  now rewrite Hn, Hk, (IH H').
Qed.

(** Such a key is not found. *)
Lemma map_find_above (k : Value) (m : Map) :
  Forall (fun kv => Value_lt (fst kv) k = true) m -> map_find k m = None.
Proof.
  induction m as [|[k' v'] m IH]; intros H; [reflexivity|].
  inversion H as [|? ? Hk H']; subst. cbn [fst] in Hk.
  cbn [map_find].
  assert (Hn : Value_lt k k' = false).
  { destruct (Value_lt k k') eqn:E; [|reflexivity].
    pose proof (OrderFacts.Value_lt_trans k k' k E Hk) as Hkk.
    now rewrite OrderFacts.Value_lt_irrefl in Hkk. }
  now rewrite Hn, Hk, (IH H').
Qed.

(** Assigning at a key that is in the map changes no key. *)
Lemma map_set_present (k v : Value) (m : Map) :
  StronglySorted key_lt (keys m) -> In k (keys m) ->
  keys (map_set k v m) = keys m.
Proof.
  induction m as [|[k' v'] m IH]; simpl; intros Hs Hin; [contradiction|].
  inversion Hs as [|? ? Hs' Hall]; subst.
  assert (Hlow : Value_lt k k' = false).
  { destruct Hin as [->|Hin]; [apply OrderFacts.Value_lt_irrefl|].
    destruct (Value_lt k k') eqn:E; [|reflexivity].
    rewrite Forall_forall in Hall. specialize (Hall k Hin).
    pose proof (OrderFacts.Value_lt_trans k k' k E Hall) as Hkk.
    now rewrite OrderFacts.Value_lt_irrefl in Hkk. }
  rewrite Hlow. destruct (Value_lt k' k) eqn:E; simpl; [|reflexivity].
  f_equal. apply IH; [exact Hs'|].
  destruct Hin as [->|Hin]; [|exact Hin].
  now rewrite OrderFacts.Value_lt_irrefl in E.
Qed.

(** Reading at a key that is in the map inserts nothing. *)
Lemma map_find_present (k : Value) (m : Map) :
  StronglySorted key_lt (keys m) -> In k (keys m) -> map_find k m <> None.
Proof.
  induction m as [|[k' v'] m IH]; simpl; intros Hs Hin; [contradiction|].
  inversion Hs as [|? ? Hs' Hall]; subst.
  assert (Hlow : Value_lt k k' = false).
  { destruct Hin as [->|Hin]; [apply OrderFacts.Value_lt_irrefl|].
    destruct (Value_lt k k') eqn:E; [|reflexivity].
    rewrite Forall_forall in Hall. specialize (Hall k Hin).
    pose proof (OrderFacts.Value_lt_trans k k' k E Hall) as Hkk.
    now rewrite OrderFacts.Value_lt_irrefl in Hkk. }
  rewrite Hlow. destruct (Value_lt k' k) eqn:E; [|discriminate].
  apply IH; [exact Hs'|].
  destruct Hin as [->|Hin]; [|exact Hin].
  now rewrite OrderFacts.Value_lt_irrefl in E.
Qed.

Lemma map_set_length_present (k v : Value) (m : Map) :
  List.length (keys (map_set k v m)) = List.length (keys m) ->
  List.length (map_set k v m) = List.length m.
Proof. unfold keys. now rewrite !length_map. Qed.

(** An array that [Table::deserialize] returns comes from
    [Table(const std::vector<Value>&)]. *)
Lemma Table_deserialize_array_mode (s : string) (n n' : addr) (t : Table) :
  Table_deserialize s n = Ok (t, n') -> is_array t = true ->
  exists vec, t = Table_of_vector vec.
Proof.
  rewrite Table_deserialize_unfold.
  destruct (Table_deserialize_with_cases s) as [[c ->]|[[c ->]|[e He]]].
  - rewrite Table_deserialize_with_array. unfold bind.
    destruct (fold_items _ _ _ n) as [[vec n1]| |]; try discriminate.
    intros [= <- <-] _. now exists vec.
  - rewrite Table_deserialize_with_object. unfold bind.
    destruct (fold_items _ _ _ n) as [[m n1]| |]; try discriminate.
    intros [= <- <-]. discriminate.
  - rewrite He. discriminate.
Qed.

(** C9, as the code has it: an array made from a sequence of [n] values
    ([n] at most [2^31], so that every index is an [int]) has the keys
    [0 .. n-1] in this order, and [get_data] gives the sequence back;
    [operator[]] at a key of the array, read or written, keeps these
    keys; an array returned by [Table::deserialize] is made from a
    sequence.  [operator[]] at a key above the keys of the table adds
    that key at the end, whatever the mode of the table. *)
Theorem C9_array_keys_from_sequence :
  (forall d : list Value,
     (Z.of_nat (List.length d) <= 2 ^ 31)%Z ->
     is_array (Table_of_vector d) = true /\
     keys (data (Table_of_vector d)) = array_keys (List.length d) /\
     List.length (data (Table_of_vector d)) = List.length d /\
     get_data (Table_of_vector d) = inr d) /\
  (forall (t : Table) (key v : Value),
     keys (data t) = array_keys (List.length (data t)) ->
     In key (keys (data t)) ->
     keys (data (Table_assign t key v)) = keys (data t) /\
     List.length (data (Table_assign t key v)) = List.length (data t) /\
     fst (Table_index t key) = t) /\
  (forall (s : string) (n n' : addr) (t : Table),
     Table_deserialize s n = Ok (t, n') -> is_array t = true ->
     exists vec, t = Table_of_vector vec) /\
  (forall (t : Table) (key v : Value),
     Forall (fun k => Value_lt k key = true) (keys (data t)) ->
     Table_assign t key v = mkTable (data t ++ [(key, v)]) (is_array t) /\
     fst (Table_index t key) = mkTable (data t ++ [(key, Value_default)]) (is_array t)).
Proof.
  split; [|split; [|split]].
  - intros d Hd. split; [reflexivity|].
    pose proof (Table_of_vector_data d Hd) as E.
    unfold get_data. cbn [is_array Table_of_vector].
    change (fill_from 0 d []) with (data (Table_of_vector d)). rewrite E.
    rewrite keys_combine, values_combine, length_combine, array_keys_length
      by (now rewrite array_keys_length).
    repeat split. apply Nat.min_id.
  - intros t key v Hk Hin.
    assert (Hs : StronglySorted key_lt (keys (data t))).
    { rewrite Hk. apply int_keys_sorted. }
    assert (E : keys (data (Table_assign t key v)) = keys (data t)).
    { cbn [Table_assign data]. now apply map_set_present. }
    split; [exact E|]. split.
    + apply map_set_length_present. cbn [Table_assign data] in E. now rewrite E.
    + unfold Table_index, map_at.
      pose proof (map_find_present key (data t) Hs Hin) as Hf.
      destruct (map_find key (data t)); [|congruence].
      destruct t; reflexivity.
  - apply Table_deserialize_array_mode.
  - intros t key v Hall.
    assert (Hall' : Forall (fun kv => Value_lt (fst kv) key = true) (data t)).
    { unfold keys in Hall. now apply Forall_map in Hall. }
    split.
    + unfold Table_assign. now rewrite map_set_append.
    + unfold Table_index, map_at.
      rewrite (map_find_above key (data t) Hall').
      now rewrite map_set_append.
Qed.

Lemma C9_array_keys_from_sequence_witness :
  get_data (Table_of_vector [VString "a"; VBool true]) = inr [VString "a"; VBool true] /\
  keys (data (Table_assign (Table_of_vector [VInt 7; VInt 8]) (VInt 1) (VInt 9)))
  = [VInt 0; VInt 1].
Proof.
  split.
  - apply (proj1 C9_array_keys_from_sequence [VString "a"; VBool true]).
    vm_compute. discriminate.
  - apply (proj1 (proj2 C9_array_keys_from_sequence)
             (Table_of_vector [VInt 7; VInt 8]) (VInt 1) (VInt 9)).
    + reflexivity.
    + right. left. reflexivity.
Defined.

(** C9, as stated, fails: [operator[]] at a key that the array does not
    have inserts it, also when the table is in array mode. *)
Lemma C9_counterexample :
  ~ (forall t : Table, constructed t -> array_invariant t).
Proof.
  intros H.
  specialize (H (fst (Table_index (Table_of_vector [VInt 7]) (VInt 5)))
                (constructed_index _ _ (constructed_vector _)) eq_refl).
  vm_compute in H. discriminate.
Qed.

(** ** The depth counter *)

Lemma swap_kind_open (c : ascii) : is_open (swap_kind c) = is_open c.
Proof.
  unfold swap_kind, is_open.
  destruct (Ascii.eqb_spec c "["); [subst; reflexivity|].
  destruct (Ascii.eqb_spec c "{"); [subst; reflexivity|].
  destruct (Ascii.eqb_spec c "]"); [subst; reflexivity|].
  destruct (Ascii.eqb_spec c "}"); [subst; reflexivity|].
  apply Ascii.eqb_neq in n, n0. now rewrite n, n0.
Qed.

Lemma swap_kind_close (c : ascii) : is_close (swap_kind c) = is_close c.
Proof.
  unfold swap_kind, is_close.
  destruct (Ascii.eqb_spec c "["); [subst; reflexivity|].
  destruct (Ascii.eqb_spec c "{"); [subst; reflexivity|].
  destruct (Ascii.eqb_spec c "]"); [subst; reflexivity|].
  destruct (Ascii.eqb_spec c "}"); [subst; reflexivity|].
  apply Ascii.eqb_neq in n1, n2. now rewrite n1, n2.
Qed.

Lemma swap_kind_comma (c : ascii) :
  Ascii.eqb (swap_kind c) "," = Ascii.eqb c ",".
Proof.
  unfold swap_kind.
  destruct (Ascii.eqb_spec c "["); [subst; reflexivity|].
  destruct (Ascii.eqb_spec c "{"); [subst; reflexivity|].
  destruct (Ascii.eqb_spec c "]"); [subst; reflexivity|].
  destruct (Ascii.eqb_spec c "}"); [subst; reflexivity|].
  reflexivity.
Qed.

Lemma swap_brackets_app (a b : string) :
  swap_brackets (a ++ b) = swap_brackets a ++ swap_brackets b.
Proof. induction a; simpl; congruence. Qed.

(** The scan splits a text and the text with every bracket replaced by
    the one of the other kind at the same places, with the same
    depths. *)
Lemma segments_swap (rest : string) :
  forall cur depth,
    segments (swap_brackets rest) (swap_brackets cur) depth
    = mkSplit (List.map swap_brackets (closed (segments rest cur depth)))
              (swap_brackets (last (segments rest cur depth)))
              (final_depth (segments rest cur depth)).
Proof.
  induction rest as [|c rest IH]; intros cur depth; [reflexivity|].
  cbn [swap_brackets segments].
  rewrite swap_kind_open, swap_kind_close, swap_kind_comma.
  assert (E : swap_brackets cur ++ String (swap_kind c) EmptyString
              = swap_brackets (cur ++ String c EmptyString))
    by now rewrite swap_brackets_app.
  rewrite E.
  destruct (is_open c); [apply IH|].
  destruct (is_close c); [apply IH|].
  destruct (Ascii.eqb c "," && (depth =? 0)%Z); [|apply IH].
  change EmptyString with (swap_brackets EmptyString) at 1 2 3.
  rewrite IH. reflexivity.
Qed.

(** With a recursive call that always returns, the array form returns
    on every text between [[] and []]. *)
Lemma array_form_returns (deser : string -> M Value) (content : string) :
  (forall s n, exists v n', deser s n = Ok (v, n')) ->
  forall n, exists t n', Table_deserialize_with deser (enclosed "[" "]" content) n
                    = Ok (t, n').
Proof.
  intros Hd n. rewrite Table_deserialize_with_array.
  assert (H : forall segs acc n, exists vec n',
             fold_items (array_item deser) segs acc n = Ok (vec, n')).
  { induction segs as [|s segs IH]; intros acc m; simpl.
    - now exists acc, m.
    - unfold bind. rewrite array_item_trimmed.
      destruct (Str.empty (Str.trim s)); [apply IH|].
      unfold bind. destruct (Hd (Str.trim s) m) as (v & m' & ->).
      cbn. apply IH. }
  unfold bind. destruct (H (all_segments content) [] n) as (vec & n' & ->).
  now exists (Table_of_vector vec), n'.
Qed.

Lemma Table_deserialize_ends (data : string) (n n' : addr) (t : Table) :
  Table_deserialize data n = Ok (t, n') ->
  (exists content, data = enclosed "[" "]" content) \/
  (exists content, data = enclosed "{" "}" content).
Proof.
  rewrite Table_deserialize_unfold.
  destruct (Table_deserialize_with_cases data) as [H|[H|[e He]]]; auto.
  rewrite He. discriminate.
Qed.




(** ** When parsing fails *)

Lemma bracket_not_scalar (data : string) :
  Str.starts_with "[" data || Str.starts_with "{" data = true ->
  numeric data = None /\ String.eqb data "true" = false /\
  String.eqb data "false" = false /\ is_quoted data = false.
Proof.
  destruct data as [|c s]; [discriminate|].
  unfold Str.starts_with. cbn [Str.front].
  intros H. apply orb_true_iff in H.
  destruct H as [H|H]; apply Ascii.eqb_eq in H; subst c.
  - unfold numeric. repeat split; try reflexivity.
    + destruct (Str.find "." (String "[" s)); reflexivity.
    + unfold is_quoted. now rewrite andb_false_r.
  - unfold numeric. repeat split; try reflexivity.
    + destruct (Str.find "." (String "{" s)); reflexivity.
    + unfold is_quoted. now rewrite andb_false_r.
Qed.

Lemma fails_iff_bind {A B} (b : bool) (m : M A) (k : A -> M B) (n : addr) :
  (forall a n', returns_value (k a n')) ->
  fails_iff b (m n) -> fails_iff b (bind m k n).
Proof.
  intros Hk. unfold fails_iff, bind, throws, returns_value.
  destruct b; intros [x ->].
  - now exists x.
  - destruct x as [a n']. apply Hk.
Qed.

Section FailsUpTo.

Variable deser : string -> M Value.
Variable nested : string -> bool.
Variable L : nat.
Hypothesis deser_fails :
  forall s n, (String.length s <= L)%nat -> fails_iff (nested s) (deser s n).

Lemma array_item_fails (item : string) (vec : list Value) (n : addr) :
  (String.length item <= L)%nat ->
  fails_iff (element_fails nested item) (array_item deser item vec n).
Proof.
  intros Hl. rewrite array_item_trimmed. unfold element_fails.
  destruct (Str.empty (Str.trim item)); cbn [negb andb].
  - now exists (vec, n).
  - apply fails_iff_bind.
    + intros a n'. now exists ((vec ++ [a])%list, n').
    + apply deser_fails. pose proof (TrimFacts.trim_length item). lia.
Qed.

Lemma object_item_fails (item : string) (map : Map) (n : addr) :
  (String.length item <= L)%nat ->
  fails_iff (entry_fails nested item) (object_item deser item map n).
Proof.
  intros Hl. unfold object_item, entry_fails.
  destruct (Str.empty item) eqn:E; cbn [negb].
  { rewrite (trim_empty_item item E). now exists (map, n). }
  destruct (Str.empty (Str.trim item)); cbn [negb andb]; [now exists (map, n)|].
  pose proof (TrimFacts.trim_length item) as Ht.
  destruct (Str.find "=" (Str.trim item)) as [e|]; [|now exists MissingEquals].
  set (key := Str.trim (Str.substr 0 e (Str.trim item))).
  set (value := Str.trim (Str.substr_from (S e) (Str.trim item))).
  assert (Hk : (String.length key <= L)%nat).
  { pose proof (TrimFacts.trim_length (Str.substr 0 e (Str.trim item))).
    pose proof (TrimFacts.substr_length 0 e (Str.trim item)). unfold key. lia. }
  assert (Hv : (String.length value <= L)%nat).
  { pose proof (TrimFacts.trim_length (Str.substr_from (S e) (Str.trim item))).
    pose proof (TrimFacts.substr_from_length (S e) (Str.trim item)).
    unfold value. lia. }
  destruct (negb (Str.empty key) && negb (Str.empty value)); cbn [andb];
    [|now exists (map, n)].
  pose proof (deser_fails value n Hv) as Fv.
  unfold bind, fails_iff, throws, returns_value in *.
  destruct (nested value); cbn [orb].
  - destruct Fv as [x ->]. now exists x.
  - destruct Fv as [[v n'] ->].
    pose proof (deser_fails key n' Hk) as Fk.
    destruct (nested key).
    + destruct Fk as [x ->]. now exists x.
    + destruct Fk as [[k n''] ->]. now eexists.
Qed.

Lemma fold_items_fails {A} (item : string -> A -> M A)
      (bad : string -> bool) (segs : list string) :
  (forall s acc n, In s segs -> fails_iff (bad s) (item s acc n)) ->
  forall acc n, fails_iff (existsb bad segs) (fold_items item segs acc n).
Proof.
  induction segs as [|s segs IH]; intros H acc n; cbn [existsb fold_items].
  - now exists (acc, n).
  - pose proof (H s acc n (or_introl eq_refl)) as Hs.
    unfold bind, fails_iff, throws, returns_value in *.
    destruct (bad s); cbn [orb].
    + destruct Hs as [x ->]. now exists x.
    + destruct Hs as [[a n'] ->]. apply IH. intros. apply H. now right.
Qed.

End FailsUpTo.

Lemma closes_enclosed (c d : ascii) (content : string) :
  closes d (enclosed c d content) = true.
Proof.
  unfold closes, Str.ends_with. rewrite enclosed_length, enclosed_back.
  now rewrite Ascii.eqb_refl.
Qed.

Lemma Table_deserialize_with_open (c d : ascii) (e : error) (data : string) :
  (c = "["%char /\ d = "]"%char /\ e = MalformedArray) \/
  (c = "{"%char /\ d = "}"%char /\ e = MalformedTable) ->
  Str.starts_with c data = true ->
  (exists content, data = enclosed c d content) \/
  (closes d data = false /\
   forall deser n, Table_deserialize_with deser data n = Throw e).
Proof.
  intros Hcd Hs.
  destruct (closes d data) eqn:Hc.
  - left. unfold closes in Hc. apply andb_true_iff in Hc. destruct Hc as [Hl Hb].
    apply Nat.leb_le in Hl. now apply enclosed_intro.
  - right. split; [reflexivity|]. intros deser n.
    unfold Table_deserialize_with.
    assert (He : Str.empty data = false) by (destruct data; [discriminate|reflexivity]).
    rewrite He.
    assert (Hb : (String.length data <? 2)%nat || negb (Str.ends_with d data) = true).
    { unfold closes in Hc. apply andb_false_iff in Hc. destruct Hc as [Hc|Hc].
      - apply Nat.leb_gt in Hc. apply orb_true_iff. left. apply Nat.ltb_lt. lia.
      - rewrite Hc. apply orb_true_r. }
    destruct Hcd as [(-> & -> & ->)|(-> & -> & ->)].
    + now rewrite Hs, Hb.
    + assert (Ha : Str.starts_with "[" data = false).
      { destruct data as [|c0 s]; [discriminate|].
        unfold Str.starts_with in *. cbn [Str.front] in *.
        apply Ascii.eqb_eq in Hs. now subst. }
      now rewrite Ha, Hs, Hb.
Qed.

Lemma existsb_ext_in {A} (f g : A -> bool) (l : list A) :
  (forall x, In x l -> f x = g x) -> existsb f l = existsb g l.
Proof.
  induction l as [|a l IH]; intros H; simpl; [reflexivity|].
  rewrite (H a (or_introl eq_refl)), IH; auto.
  intros. apply H. now right.
Qed.

(** [Value::deserialize] throws exactly on the fragments of
    [decode_fails], and returns a value on all others. *)
Lemma Value_deserialize_fuel_fails (fuel : nat) :
  forall data n,
    (String.length data < fuel)%nat ->
    fails_iff (decode_fails_fuel fuel data) (Value_deserialize_fuel fuel data n).
Proof.
  induction fuel as [|fuel IH]; intros data n Hl; [lia|].
  cbn [Value_deserialize_fuel decode_fails_fuel].
  destruct (Str.empty data) eqn:He; [now exists EmptyData|].
  destruct (Str.starts_with "[" data || Str.starts_with "{" data) eqn:Hbr.
  - destruct (bracket_not_scalar data Hbr) as (-> & -> & -> & ->).
    assert (Hlen : (1 <= String.length data)%nat)
      by (destruct data; [discriminate|simpl; lia]).
    apply fails_iff_bind; [intros a n'; now eexists|].
    destruct (Str.starts_with "[" data) eqn:Ha.
    + destruct (Table_deserialize_with_open "[" "]" MalformedArray data)
        as [[content ->]|[Hc Ht]]; auto.
      * rewrite closes_enclosed. cbn [negb orb].
        unfold inner. rewrite enclosed_content, Table_deserialize_with_array.
        rewrite enclosed_length in Hl.
        apply fails_iff_bind; [intros a n'; now eexists|].
        apply (fold_items_fails (array_item (Value_deserialize_fuel fuel))
                 (element_fails (decode_fails_fuel fuel))).
        intros s acc n' Hs. apply all_segments_length in Hs.
        apply (array_item_fails _ _ (String.length content)); [|lia].
        intros s' n'' Hs'. apply IH. lia.
      * rewrite Hc, Ht. now exists MalformedArray.
    + cbn [orb] in Hbr. rewrite Hbr.
      destruct (Table_deserialize_with_open "{" "}" MalformedTable data)
        as [[content ->]|[Hc Ht]]; auto.
      * rewrite closes_enclosed. cbn [negb orb].
        unfold inner. rewrite enclosed_content, Table_deserialize_with_object.
        rewrite enclosed_length in Hl.
        apply fails_iff_bind; [intros a n'; now eexists|].
        apply (fold_items_fails (object_item (Value_deserialize_fuel fuel))
                 (entry_fails (decode_fails_fuel fuel))).
        intros s acc n' Hs. apply all_segments_length in Hs.
        apply (object_item_fails _ _ (String.length content)); [|lia].
        intros s' n'' Hs'. apply IH. lia.
      * rewrite Hc, Ht. now exists MalformedTable.
  - apply orb_false_iff in Hbr. destruct Hbr as [-> ->].
    destruct (numeric data); [now eexists|].
    destruct (data =? "true")%string; [now eexists|].
    destruct (data =? "false")%string; [now eexists|].
    destruct (is_quoted data); now eexists.
Qed.

Lemma fails_iff_bind_inv {A B} (b : bool) (m : M A) (k : A -> M B) (n : addr) :
  (forall a n', returns_value (k a n')) ->
  fails_iff b (bind m k n) -> fails_iff b (m n).
Proof.
  intros Hk. unfold fails_iff, bind, throws, returns_value.
  destruct (m n) as [[a n']| |].
  - destruct (Hk a n') as [y ->]. destruct b; intros [x Hx]; [discriminate|].
    now eexists.
  - destruct b; intros [x Hx]; [now eexists|discriminate].
  - destruct b; intros [x Hx]; discriminate.
Qed.

Lemma fails_iff_throws {A} (b : bool) (r : result A) :
  fails_iff b r -> (throws r <-> b = true) /\ (returns_value r <-> b = false).
Proof.
  unfold fails_iff, throws, returns_value.
  destruct b; intros [x ->]; split; split; intros H.
  - reflexivity.
  - now exists x.
  - destruct H; discriminate.
  - discriminate.
  - destruct H; discriminate.
  - discriminate.
  - reflexivity.
  - now exists x.
Qed.

Lemma Value_deserialize_fails (data : string) (n : addr) :
  fails_iff (decode_fails data) (Value_deserialize data n).
Proof. apply Value_deserialize_fuel_fails. lia. Qed.

Lemma Table_deserialize_fails (data : string) (n : addr) :
  fails_iff
    (decode_fails data ||
     negb (Str.starts_with "[" data || Str.starts_with "{" data))
    (Table_deserialize data n).
Proof.
  destruct (Str.starts_with "[" data || Str.starts_with "{" data) eqn:Hbr.
  - cbn [negb]. rewrite orb_false_r.
    pose proof (Value_deserialize_fails data n) as H.
    rewrite Value_deserialize_unfold in H.
    destruct (bracket_not_scalar data Hbr) as (E1 & E2 & E3 & E4).
    rewrite E1, E2, E3, E4, Hbr in H.
    assert (He : Str.empty data = false) by (destruct data; [discriminate|reflexivity]).
    rewrite He in H.
    apply (fails_iff_bind_inv _ _ Value_of_table); [|exact H].
    intros a n'. now eexists.
  - cbn [negb]. rewrite orb_true_r. apply orb_false_iff in Hbr.
    destruct Hbr as [Ha Ho].
    unfold Table_deserialize, Table_deserialize_with. rewrite Ha, Ho.
    destruct (Str.empty data); now eexists.
Qed.



(** ** Integers: what [operator<<] writes, [std::stoi] reads back *)

Module IntFacts.

Lemma digit_char_code (d : N) :
  (d < 10)%N -> N_of_ascii (Int.digit_char d) = (48 + d)%N.
Proof.
  intros H. unfold Int.digit_char. apply N_ascii_embedding. lia.
Qed.

Lemma digit_char_is_digit (d : N) :
  (d < 10)%N -> Int.is_digit (Int.digit_char d) = true.
Proof.
  intros H. unfold Int.is_digit. rewrite (digit_char_code d H).
  apply andb_true_iff. split; apply N.leb_le; lia.
Qed.

Lemma digit_char_val (d : N) :
  (d < 10)%N -> Int.digit_val (Int.digit_char d) = d.
Proof.
  intros H. unfold Int.digit_val. rewrite (digit_char_code d H). lia.
Qed.

Lemma mem_app (c : ascii) (a b : string) :
  Str.mem c (a ++ b) = Str.mem c a || Str.mem c b.
Proof.
  induction a as [|d a IH]; simpl; [reflexivity|].
  rewrite IH. now rewrite orb_assoc.
Qed.

Lemma decimal_of_digit (d : N) :
  (d < 10)%N -> decimal_of (String (Int.digit_char d) EmptyString) d.
Proof.
  intros H. split; [discriminate|]. split.
  - intros c. simpl. rewrite orb_false_r. intros Hc.
    apply Ascii.eqb_eq in Hc. subst. now apply digit_char_is_digit.
  - intros a cnt rest. simpl.
    rewrite (digit_char_is_digit d H), (digit_char_val d H).
    change (10 ^ N.of_nat 1)%N with 10%N.
    now rewrite Nat.add_1_r.
Qed.

(** A notation with one more digit at its end. *)
Lemma decimal_of_snoc (ds : string) (n d : N) :
  decimal_of ds n -> (d < 10)%N ->
  decimal_of (ds ++ String (Int.digit_char d) EmptyString) (n * 10 + d).
Proof.
  intros (Hne & Hdig & Hread) Hd. split; [|split].
  - destruct ds; [congruence|discriminate].
  - intros c. rewrite mem_app. simpl. rewrite orb_false_r.
    intros Hc. apply orb_true_iff in Hc. destruct Hc as [Hc|Hc]; [auto|].
    apply Ascii.eqb_eq in Hc. subst. now apply digit_char_is_digit.
  - intros a cnt rest. rewrite StrFacts.append_assoc, Hread. simpl.
    rewrite (digit_char_is_digit d Hd), (digit_char_val d Hd).
    rewrite StrFacts.length_append. simpl.
    replace (N.of_nat (String.length ds + 1)) with (N.succ (N.of_nat (String.length ds)))
      by lia.
    rewrite N.pow_succ_r'.
    f_equal; lia.
Qed.

Lemma digits_aux_decimal (fuel : nat) :
  forall n, (n < 2 ^ N.of_nat (S fuel))%N ->
  exists ds, decimal_of ds n /\
             forall acc, Int.digits_aux fuel n acc = ds ++ acc.
Proof.
  induction fuel as [|fuel IH]; intros n Hn.
  - change (2 ^ N.of_nat 1)%N with 2%N in Hn.
    exists (String (Int.digit_char n) EmptyString). split.
    + apply decimal_of_digit. lia.
    + intros acc. simpl. rewrite N.mod_small by lia. reflexivity.
  - cbn [Int.digits_aux]. destruct (N.ltb_spec n 10) as [Hlt|Hge].
    + exists (String (Int.digit_char n) EmptyString). split.
      * now apply decimal_of_digit.
      * reflexivity.
    + destruct (IH (n / 10)%N) as (ds & Hds & Hacc).
      { apply N.Div0.div_lt_upper_bound.
        replace (N.of_nat (S (S fuel))) with (N.succ (N.of_nat (S fuel))) in Hn by lia.
        rewrite N.pow_succ_r' in Hn. lia. }
      exists (ds ++ String (Int.digit_char (n mod 10)) EmptyString). split.
      * replace n with (n / 10 * 10 + n mod 10)%N at 2
          by (pose proof (N.div_mod n 10); lia).
        apply decimal_of_snoc; [exact Hds|].
        apply N.mod_lt. lia.
      * intros acc. rewrite Hacc. now rewrite StrFacts.append_assoc.
Qed.

Lemma N_to_string_decimal (n : N) : decimal_of (Int.N_to_string n) n.
Proof.
  unfold Int.N_to_string.
  destruct (digits_aux_decimal (N.to_nat (N.log2 n)) n) as (ds & Hds & Hacc).
  - replace (N.of_nat (S (N.to_nat (N.log2 n)))) with (N.succ (N.log2 n)) by lia.
    destruct n as [|p]; [reflexivity|].
    apply N.log2_spec. lia.
  - rewrite Hacc, StrFacts.append_nil_r. exact Hds.
Qed.

End IntFacts.

(** ** Facts on single characters, by cases on the eight bits *)

Ltac ascii_cases c :=
  destruct c as [[] [] [] [] [] [] [] []]; try reflexivity; try discriminate.

Module CharFacts.

Lemma digit_not_space (c : ascii) :
  Int.is_digit c = true -> Int.is_space c = false.
Proof. ascii_cases c. Qed.

Lemma digit_no_sign (c : ascii) (s : string) :
  Int.is_digit c = true ->
  Int.read_sign (String c s) = (false, String c s).
Proof. ascii_cases c. Qed.

Lemma digit_number_char (c : ascii) :
  Int.is_digit c = true -> number_char c = true.
Proof. ascii_cases c. Qed.

Lemma number_char_inert (c : ascii) : number_char c = true -> inert c = true.
Proof. ascii_cases c. Qed.

Lemma number_char_not_blank (c : ascii) :
  number_char c = true -> not_blank c = true.
Proof. ascii_cases c. Qed.

Lemma number_char_not_equals (c : ascii) :
  number_char c = true -> not_equals c = true.
Proof. ascii_cases c. Qed.

Lemma digit_not_point (c : ascii) :
  Int.is_digit c = true -> Ascii.eqb c "." = false.
Proof. ascii_cases c. Qed.

Lemma digit_lower (c : ascii) :
  Int.is_digit c = true -> Float32.lower c = c.
Proof. ascii_cases c. Qed.

End CharFacts.

Lemma chars_in_app (P : ascii -> bool) (a b : string) :
  chars_in P (a ++ b) <-> chars_in P a /\ chars_in P b.
Proof.
  unfold chars_in. split.
  - intros H. split; intros c Hc; apply H; rewrite IntFacts.mem_app, Hc;
      [reflexivity|apply orb_true_r].
  - intros [Ha Hb] c Hc. rewrite IntFacts.mem_app in Hc.
    apply orb_true_iff in Hc. destruct Hc; auto.
Qed.

Lemma chars_in_cons (P : ascii -> bool) (c : ascii) (s : string) :
  chars_in P (String c s) <-> P c = true /\ chars_in P s.
Proof.
  unfold chars_in. simpl. split.
  - intros H. split.
    + apply H. now rewrite Ascii.eqb_refl.
    + intros d Hd. apply H. rewrite Hd. apply orb_true_r.
  - intros [Hc Hs] d Hd. apply orb_true_iff in Hd. destruct Hd as [Hd|Hd]; auto.
    apply Ascii.eqb_eq in Hd. now subst.
Qed.

Lemma chars_in_nil (P : ascii -> bool) : chars_in P EmptyString.
Proof. intros c H. discriminate. Qed.

Lemma chars_in_impl (P Q : ascii -> bool) (s : string) :
  (forall c, P c = true -> Q c = true) -> chars_in P s -> chars_in Q s.
Proof. intros H Hs c Hc. auto. Qed.

Lemma find_none_chars (c : ascii) (s : string) :
  chars_in (fun d => negb (Ascii.eqb d c)) s -> Str.find c s = None.
Proof.
  induction s as [|d s IH]; intros H; [reflexivity|].
  apply chars_in_cons in H. destruct H as [Hd Hs]. simpl.
  apply negb_true_iff in Hd. rewrite Hd. now rewrite (IH Hs).
Qed.

Lemma find_some_mem (c : ascii) (s : string) :
  Str.mem c s = true -> Str.find c s <> None.
Proof.
  induction s as [|d s IH]; simpl; [discriminate|].
  intros H. destruct (Ascii.eqb_spec d c); [discriminate|].
  apply orb_true_iff in H. destruct H as [H|H].
  - apply Ascii.eqb_eq in H. congruence.
  - specialize (IH H). destruct (Str.find c s); [discriminate|congruence].
Qed.

Module IntText.

Lemma to_string_chars (i : Z) : chars_in number_char (Int.to_string i).
Proof.
  assert (H : forall n, chars_in number_char (Int.N_to_string n)).
  { intros n. destruct (IntFacts.N_to_string_decimal n) as (_ & Hd & _).
    intros c Hc. apply CharFacts.digit_number_char. now apply Hd. }
  destruct i as [|p|p]; unfold Int.to_string; try apply H.
  apply chars_in_cons. split; [reflexivity|apply H].
Qed.

Lemma to_string_no_point (i : Z) : Str.find "." (Int.to_string i) = None.
Proof.
  assert (H : forall n, Str.find "." (Int.N_to_string n) = None).
  { intros n. destruct (IntFacts.N_to_string_decimal n) as (_ & Hd & _).
    apply find_none_chars. intros c Hc. apply negb_true_iff.
    apply CharFacts.digit_not_point. now apply Hd. }
  destruct i as [|p|p]; unfold Int.to_string; try apply H.
  cbn [Str.find]. now rewrite H.
Qed.

Lemma stoi_digits (ds : string) (n : N) (neg : bool) :
  decimal_of ds n ->
  Int.read_digits ds 0 0 = (n, String.length ds, EmptyString) /\
  exists c s, ds = String c s /\ Int.is_digit c = true.
Proof.
  intros (Hne & Hd & Hr). split.
  - specialize (Hr 0%N 0%nat EmptyString).
    rewrite StrFacts.append_nil_r in Hr. rewrite Hr. reflexivity.
  - destruct ds as [|c s]; [congruence|]. exists c, s. split; [reflexivity|].
    apply Hd. simpl. now rewrite Ascii.eqb_refl.
Qed.

(** [std::stoi] reads back what [operator<<] wrote for an [int]. *)
Lemma stoi_to_string (i : Z) :
  Int.in_range i = true -> Int.stoi (Int.to_string i) = Some i.
Proof.
  intros Hr.
  assert (H : forall n, Int.in_range (Z.of_N n) = true ->
                        Int.stoi (Int.N_to_string n) = Some (Z.of_N n)).
  { intros n Hn.
    destruct (stoi_digits _ n false (IntFacts.N_to_string_decimal n))
      as (Hread & c & s & Hs & Hc).
    unfold Int.stoi. rewrite Hs in *. cbn [Int.skip_space].
    rewrite (CharFacts.digit_not_space c Hc), (CharFacts.digit_no_sign c s Hc).
    rewrite Hread. cbn [String.length]. now rewrite Hn. }
  destruct i as [|p|p].
  - reflexivity.
  - apply (H (Npos p) Hr).
  - destruct (stoi_digits _ (Npos p) true (IntFacts.N_to_string_decimal (Npos p)))
      as (Hread & c & s & Hs & Hc).
    unfold Int.stoi, Int.to_string. cbn [Int.skip_space Int.is_space].
    change (Int.is_space "-") with false. cbv iota. cbn [Int.read_sign].
    rewrite Hread, Hs. cbn [String.length].
    change (- Z.of_N (N.pos p))%Z with (Z.neg p). now rewrite Hr.
Qed.

End IntText.

(** ** Rounding to the nearest, ties to even *)

Module RoundFacts.

Local Open Scope N_scope.

Lemma even_succ_false (q : N) : N.even q = false -> N.even (q + 1) = true.
Proof.
  intros H. rewrite N.add_1_r, N.even_succ.
  rewrite <- N.negb_even. now rewrite H.
Qed.

(** [div_rne a b] is within half a unit of [a / b]; a tie goes to an
    even quotient. *)
Lemma div_rne_bounds (a b : N) :
  0 < b ->
  2 * (Float32.div_rne a b * b) <= 2 * a + b /\
  2 * a <= 2 * (Float32.div_rne a b * b) + b /\
  (2 * (Float32.div_rne a b * b) = 2 * a + b \/
   2 * a = 2 * (Float32.div_rne a b * b) + b ->
   N.even (Float32.div_rne a b) = true).
Proof.
  intros Hb. unfold Float32.div_rne.
  pose proof (N.div_mod a b ltac:(lia)) as Hdm.
  pose proof (N.mod_lt a b ltac:(lia)) as Hlt.
  set (q := a / b) in *. set (r := a mod b) in *.
  destruct (N.compare_spec (2 * r) b) as [He|Hl|Hg].
  - destruct (N.even q) eqn:Ev.
    + split; [nia|]. split; [nia|]. intros _. exact Ev.
    + pose proof (even_succ_false q Ev) as Ev'.
      split; [nia|]. split; [nia|]. intros _. exact Ev'.
  - split; [nia|]. split; [nia|]. intros [H|H]; nia.
  - split; [nia|]. split; [nia|]. intros [H|H]; nia.
Qed.

Lemma div_rne_unique (a b m : N) :
  0 < b ->
  2 * (m * b) <= 2 * a + b ->
  2 * a <= 2 * (m * b) + b ->
  (2 * (m * b) = 2 * a + b \/ 2 * a = 2 * (m * b) + b -> N.even m = true) ->
  Float32.div_rne a b = m.
Proof.
  intros Hb H1 H2 H3.
  destruct (div_rne_bounds a b Hb) as (B1 & B2 & B3).
  set (m0 := Float32.div_rne a b) in *.
  destruct (N.lt_trichotomy m m0) as [Hlt|[Heq|Hgt]]; [|now subst|].
  - assert (E : m0 = m + 1) by nia. exfalso.
    assert (Em : N.even m = true) by (apply H3; nia).
    assert (Em0 : N.even m0 = true) by (apply B3; nia).
    rewrite E, N.add_1_r, N.even_succ, <- N.negb_even, Em in Em0. discriminate.
  - assert (E : m = m0 + 1) by nia. exfalso.
    assert (Em : N.even m = true) by (apply H3; nia).
    assert (Em0 : N.even m0 = true) by (apply B3; nia).
    rewrite E, N.add_1_r, N.even_succ, <- N.negb_even, Em0 in Em. discriminate.
Qed.

(** No multiple of [b] is nearer to [a] than the rounded quotient. *)
Lemma div_rne_nearest (a b j : N) :
  0 < b ->
  (Z.abs (Z.of_N (Float32.div_rne a b * b) - Z.of_N a)
   <= Z.abs (Z.of_N (j * b) - Z.of_N a))%Z.
Proof.
  intros Hb.
  destruct (div_rne_bounds a b Hb) as (B1 & B2 & _).
  set (m := Float32.div_rne a b) in *.
  destruct (N.lt_trichotomy j m) as [Hlt|[Heq|Hgt]]; [|subst; lia|].
  - assert (j * b + b <= m * b) by nia. lia.
  - assert (m * b + b <= j * b) by nia. lia.
Qed.

Lemma div_rne_monotone (a1 a2 b : N) :
  0 < b -> a1 <= a2 -> Float32.div_rne a1 b <= Float32.div_rne a2 b.
Proof.
  intros Hb Ha.
  destruct (N.eq_dec a1 a2) as [->|Hne]; [lia|].
  destruct (div_rne_bounds a1 b Hb) as (B1 & B2 & _).
  destruct (div_rne_bounds a2 b Hb) as (C1 & C2 & _).
  set (m1 := Float32.div_rne a1 b) in *. set (m2 := Float32.div_rne a2 b) in *.
  destruct (N.le_gt_cases m1 m2) as [H|H]; [exact H|].
  assert (m2 * b + b <= m1 * b) by nia. lia.
Qed.

End RoundFacts.

(** ** [std::stof] gives the nearest float *)

Module NearestFacts.

Local Open Scope N_scope.

Lemma pow2_pos (e : N) : 0 < 2 ^ e.
Proof. apply N.neq_0_lt_0. apply N.pow_nonzero. lia. Qed.

Lemma pow2_mod (j e1 e2 : N) :
  e1 <= e2 -> j mod 2 ^ e2 = 0 -> j mod 2 ^ e1 = 0.
Proof.
  intros He Hj. apply N.Div0.mod_divides in Hj. destruct Hj as [c ->].
  replace e2 with (e1 + (e2 - e1)) by lia. rewrite N.pow_add_r.
  apply N.Div0.mod_divides. exists (2 ^ (e2 - e1) * c). lia.
Qed.

(** A float that is no multiple of [2^shift] is below [2^(23+shift)]. *)
Lemma representable_grid (j shift : N) :
  Float32.representable j = true -> j mod 2 ^ shift <> 0 ->
  j < 2 ^ (23 + shift).
Proof.
  unfold Float32.representable. intros H Hm.
  apply andb_true_iff in H. destruct H as [_ H].
  assert (Hj : j <> 0) by (intros ->; now rewrite N.Div0.mod_0_l in Hm).
  assert (Hs : shift <> 0) by (intros ->; now rewrite N.pow_0_r, N.mod_1_r in Hm).
  pose proof (N.log2_spec j ltac:(lia)) as [_ Hlog].
  apply orb_true_iff in H. destruct H as [H|H].
  - apply orb_true_iff in H. destruct H as [H|H]; [apply N.eqb_eq in H; lia|].
    apply N.ltb_lt in H.
    eapply N.lt_le_trans; [exact Hlog|].
    apply N.pow_le_mono_r; lia.
  - apply N.eqb_eq in H.
    destruct (N.le_gt_cases shift (N.log2 j - 23)) as [Hle|Hgt].
    + exfalso. apply Hm. now apply (pow2_mod j shift (N.log2 j - 23)).
    + eapply N.lt_le_trans; [exact Hlog|].
      apply N.pow_le_mono_r; lia.
Qed.

(** The number that [round_ratio] computes, before the range checks. *)
Lemma round_nearest (num den j : N) :
  0 < den -> Float32.representable j = true ->
  let scaled := num * 2 ^ Float32.unit_exp in
  let shift := N.size (scaled / den) - 24 in
  let k := Float32.div_rne scaled (den * 2 ^ shift) * 2 ^ shift in
  (Z.abs (Z.of_N (den * k) - Z.of_N scaled)
   <= Z.abs (Z.of_N (den * j) - Z.of_N scaled))%Z.
Proof.
  intros Hden Hj scaled shift k. clearbody scaled.
  assert (Hq : shift <> 0 -> 2 ^ (23 + shift) <= scaled / den).
  { intros Hs.
    assert (Hq0 : scaled / den <> 0).
    { intros E. apply Hs. unfold shift. now rewrite E. }
    apply N.log2_le_pow2; [now apply N.neq_0_lt_0|].
    unfold shift in *. rewrite (N.size_log2 _ Hq0) in *. lia. }
  clearbody shift.
  pose proof (pow2_pos shift) as HG.
  assert (Hb : 0 < den * 2 ^ shift) by nia.
  assert (Hmul : forall j', (Z.abs (Z.of_N (den * k) - Z.of_N scaled)
                           <= Z.abs (Z.of_N (den * (j' * 2 ^ shift)) - Z.of_N scaled))%Z).
  { intros j'.
    pose proof (RoundFacts.div_rne_nearest scaled (den * 2 ^ shift) j' Hb) as H.
    unfold k.
    replace (den * (Float32.div_rne scaled (den * 2 ^ shift) * 2 ^ shift))
      with (Float32.div_rne scaled (den * 2 ^ shift) * (den * 2 ^ shift)) by lia.
    replace (den * (j' * 2 ^ shift)) with (j' * (den * 2 ^ shift)) by lia.
    exact H. }
  clearbody k.
  destruct (N.eq_dec (j mod 2 ^ shift) 0) as [Hz|Hnz].
  - apply N.Div0.mod_divides in Hz. destruct Hz as [c ->].
    replace (2 ^ shift * c) with (c * 2 ^ shift) by lia. apply Hmul.
  - pose proof (representable_grid j shift Hj Hnz) as Hlt.
    assert (Hs : shift <> 0).
    { intros E. apply Hnz. now rewrite E, N.pow_0_r, N.mod_1_r. }
    specialize (Hq Hs).
    pose proof (N.Div0.mul_div_le scaled den) as Hd.
    specialize (Hmul (2 ^ 23)).
    rewrite N.pow_add_r in Hq, Hlt.
    set (G := 2 ^ shift) in *. set (q := scaled / den) in *.
    assert (den * (2 ^ 23 * G) <= scaled) by nia.
    assert (den * j < den * (2 ^ 23 * G)) by nia.
    lia.
Qed.

(** What [round_ratio] returns is a float. *)
Lemma round_ratio_representable (num den k : N) :
  0 < den -> Float32.round_ratio num den = Some k ->
  Float32.representable k = true.
Proof.
  intros Hden. unfold Float32.round_ratio.
  set (scaled := num * 2 ^ Float32.unit_exp). clearbody scaled.
  set (q0 := scaled / den).
  set (shift := N.size q0 - 24).
  set (m := Float32.div_rne scaled (den * 2 ^ shift)).
  destruct (N.leb_spec (2 ^ 277) (m * 2 ^ shift)) as [|Hover]; [discriminate|].
  intros Hk.
  assert (Ek : k = m * 2 ^ shift).
  { destruct ((m * 2 ^ shift <? 2 ^ 23) && negb (m * 2 ^ shift * den =? scaled));
      congruence. }
  clear Hk. subst k.
  pose proof (pow2_pos shift) as HG.
  assert (Hb : 0 < den * 2 ^ shift) by nia.
  destruct (RoundFacts.div_rne_bounds scaled (den * 2 ^ shift) Hb) as (B1 & B2 & _).
  fold m in B1, B2.
  pose proof (N.Div0.mul_div_le scaled den) as Hlo. fold q0 in Hlo.
  assert (Hhi : scaled < den * (q0 + 1)).
  { pose proof (N.div_mod scaled den ltac:(lia)) as Hdm.
    pose proof (N.mod_lt scaled den ltac:(lia)) as Hr. fold q0 in Hdm. nia. }
  pose proof (N.size_gt q0) as Hsize.
  assert (Hm_hi : m <= 2 ^ 24).
  { assert (Hq : q0 + 1 <= 2 ^ 24 * 2 ^ shift).
    { rewrite <- N.pow_add_r.
      assert (2 ^ N.size q0 <= 2 ^ (24 + shift))
        by (apply N.pow_le_mono_r; unfold shift; lia).
      lia. }
    set (G := 2 ^ shift) in *.
    assert (scaled < den * (2 ^ 24 * G)) by nia.
    assert (H24 : 2 ^ 24 = 16777216) by reflexivity. rewrite H24 in *.
    assert (2 * (m * (den * G)) < (2 * 16777216 + 1) * (den * G)) by nia.
    assert (2 * m < 2 * 16777216 + 1).
    { apply (N.mul_lt_mono_pos_r (den * G)); [exact Hb|]. lia. }
    lia. }
  unfold Float32.representable.
  apply andb_true_iff. split; [now apply N.ltb_lt|].
  destruct (N.eq_dec m (2 ^ 24)) as [E24|N24].
  { (* the mantissa was rounded up to the next power of two *)
    rewrite E24, <- N.pow_add_r.
    rewrite N.log2_pow2 by lia.
    replace (24 + shift - 23) with (1 + shift) by lia.
    replace (24 + shift) with (23 + (1 + shift)) by lia.
    rewrite N.pow_add_r, N.Div0.mod_mul, N.eqb_refl. apply orb_true_r. }
  assert (Hlt : m < 2 ^ 24) by lia.
  destruct (N.eq_dec shift 0) as [E0|Hs].
  - rewrite E0, N.pow_0_r, N.mul_1_r.
    destruct (N.eq_dec m 0) as [->|Hm0]; [reflexivity|].
    assert (Hl : N.log2 m < 24) by (apply N.log2_lt_pow2; lia).
    apply N.ltb_lt in Hl. rewrite Hl. now rewrite orb_true_r.
  - assert (Hq0 : q0 <> 0).
    { intros E. apply Hs. unfold shift. now rewrite E. }
    assert (Hqlo : 2 ^ 23 * 2 ^ shift <= q0).
    { rewrite <- N.pow_add_r. apply N.log2_le_pow2; [lia|].
      unfold shift. rewrite (N.size_log2 _ Hq0). 
      unfold shift in Hs. rewrite (N.size_log2 _ Hq0) in Hs. lia. }
    assert (Hm_lo : 2 ^ 23 <= m).
    { set (G := 2 ^ shift) in *.
      assert (H23 : 2 ^ 23 = 8388608) by reflexivity. rewrite H23 in *.
      assert (den * (8388608 * G) <= scaled) by nia.
      assert (2 * 8388608 * (den * G) <= (2 * m + 1) * (den * G)) by nia.
      assert (2 * 8388608 <= 2 * m + 1).
      { apply (N.mul_le_mono_pos_r _ _ (den * G)); [exact Hb|]. lia. }
      lia. }
    assert (Hlog : N.log2 m = 23).
    { apply N.log2_unique; [lia|]. split; [exact Hm_lo|exact Hlt]. }
    rewrite N.log2_mul_pow2 by lia. rewrite Hlog.
    replace (shift + 23 - 23) with shift by lia.
    rewrite N.Div0.mod_mul, N.eqb_refl. apply orb_true_r.
Qed.

End NearestFacts.

(** ** One decimal, written and read back *)

Module TenthsFacts.

Local Open Scope N_scope.

Ltac numerals :=
  repeat match goal with
  | |- context [2 ^ ?e] =>
      let c := eval vm_compute in (2 ^ e) in change (2 ^ e) with c
  | H : context [2 ^ ?e] |- _ =>
      let c := eval vm_compute in (2 ^ e) in change (2 ^ e) with c in H
  end.

(** The largest float is [2^277 - 2^253] units. *)
Lemma representable_max (k : N) :
  Float32.representable k = true -> k <= 2 ^ 277 - 2 ^ 253.
Proof.
  unfold Float32.representable. intros H.
  apply andb_true_iff in H. destruct H as [Hlt H]. apply N.ltb_lt in Hlt.
  destruct (N.eq_dec k 0) as [->|Hk]; [now vm_compute|].
  pose proof (N.log2_spec k ltac:(lia)) as [Hlo Hhi].
  destruct (N.le_gt_cases 276 (N.log2 k)) as [Hbig|Hsmall].
  - assert (E : N.log2 k = 276).
    { apply N.le_antisymm; [|exact Hbig].
      apply N.lt_succ_r. apply N.log2_lt_pow2; [lia|exact Hlt]. }
    rewrite E in H. change (276 - 23) with 253 in H.
    change (276 <? 24) with false in H.
    apply N.eqb_neq in Hk. rewrite Hk in H. cbn [orb] in H.
    apply N.eqb_eq in H. apply N.Div0.mod_divides in H. destruct H as [c ->].
    numerals. lia.
  - assert (k < 2 ^ 276).
    { eapply N.lt_le_trans; [exact Hhi|]. apply N.pow_le_mono_r; lia. }
    numerals. lia.
Qed.

Lemma tenths_bounds (k : N) :
  let t := Float32.tenths k in
  let U := 2 ^ Float32.unit_exp in
  2 * (t * U) <= 20 * k + U /\ 20 * k <= 2 * (t * U) + U /\
  (2 * (t * U) = 20 * k + U \/ 20 * k = 2 * (t * U) + U -> N.even t = true).
Proof.
  intros t U. subst t. unfold Float32.tenths. fold U.
  destruct (RoundFacts.div_rne_bounds (10 * k) U (NearestFacts.pow2_pos _))
    as (B1 & B2 & B3).
  clearbody U. set (m := Float32.div_rne (10 * k) U) in *. clearbody m.
  split; [lia|]. split; [lia|]. intros H. apply B3. lia.
Qed.

Lemma tenths_monotone (k1 k2 : N) :
  k1 <= k2 -> Float32.tenths k1 <= Float32.tenths k2.
Proof.
  intros H. apply RoundFacts.div_rne_monotone; [apply NearestFacts.pow2_pos|lia].
Qed.

(** The float read back from the one-decimal text of a float is
    written with the same text. *)
Lemma tenths_roundtrip (k : N) :
  Float32.representable k = true ->
  exists k', Float32.round_ratio (Float32.tenths k) 10 = Some k' /\
             Float32.tenths k' = Float32.tenths k.
Proof.
  intros Hk.
  destruct (N.eq_dec (Float32.tenths k) 0) as [E0|Hpos].
  { rewrite E0. exists 0. split; reflexivity. }
  pose proof (representable_max k Hk) as Hmax.
  destruct (tenths_bounds k) as (B1 & B2 & B3).
  pose proof (NearestFacts.round_nearest (Float32.tenths k) 10 k ltac:(lia) Hk) as Hn.
  cbv zeta in Hn, B1, B2, B3.
  unfold Float32.round_ratio.
  set (t := Float32.tenths k) in *.
  set (U := 2 ^ Float32.unit_exp) in *.
  set (shift := N.size (t * U / 10) - 24) in *.
  set (k' := Float32.div_rne (t * U) (10 * 2 ^ shift) * 2 ^ shift) in *.
  clearbody k' shift.
  assert (EU : U = 2 ^ 149) by reflexivity. clearbody U.
  assert (Hover : (2 ^ 277 <=? k') = false).
  { apply N.leb_gt. numerals. lia. }
  assert (Hunder : (k' <? 2 ^ 23) = false).
  { apply N.ltb_ge. numerals. lia. }
  rewrite Hover, Hunder. cbn [andb].
  exists k'. split; [reflexivity|].
  apply RoundFacts.div_rne_unique.
  - apply NearestFacts.pow2_pos.
  - fold Float32.unit_exp. change (2 ^ Float32.unit_exp) with (2 ^ 149).
    rewrite <- EU. lia.
  - change (2 ^ Float32.unit_exp) with (2 ^ 149). rewrite <- EU. lia.
  - change (2 ^ Float32.unit_exp) with (2 ^ 149). rewrite <- EU.
    intros H. apply B3. lia.
Qed.

End TenthsFacts.

(** ** Floats: what [std::fixed] writes, [std::stof] reads back *)

Module FloatText.

Lemma digit_not_inf (c : ascii) (s : string) :
  Int.is_digit c = true ->
  Float32.prefix_ci "inf" (String c s) = false /\
  Float32.prefix_ci "nan" (String c s) = false.
Proof. ascii_cases c; split; reflexivity. Qed.

Lemma digit_not_x (c : ascii) :
  Int.is_digit c = true -> Ascii.eqb "x" (Float32.lower c) = false.
Proof. ascii_cases c. Qed.

Lemma digits_not_hex (ds rest : string) :
  ds <> EmptyString -> chars_in Int.is_digit ds ->
  Float32.prefix_ci "0x" (ds ++ String "." rest) = false.
Proof.
  destruct ds as [|c [|c2 s]]; [congruence| |]; intros _ Hd.
  - cbn [append Float32.prefix_ci].
    change (Ascii.eqb "x" (Float32.lower ".")) with false.
    cbn [andb]. apply andb_false_r.
  - apply chars_in_cons in Hd. destruct Hd as [_ Hd].
    apply chars_in_cons in Hd. destruct Hd as [Hc2 _].
    cbn [append Float32.prefix_ci]. rewrite (digit_not_x c2 Hc2).
    cbn [andb]. apply andb_false_r.
Qed.

(** The text of a finite float: digits, a point, one digit. *)
Lemma fixed1_finite (neg : bool) (k : N) :
  exists ds d,
    Float32.fixed1 (Float32.Ffin neg k)
    = Float32.sign_prefix neg (ds ++ String "." (String (Int.digit_char d) EmptyString)) /\
    decimal_of ds (Float32.tenths k / 10) /\
    d = (Float32.tenths k mod 10)%N /\ (d < 10)%N.
Proof.
  exists (Int.N_to_string (Float32.tenths k / 10)), (Float32.tenths k mod 10)%N.
  split; [reflexivity|]. split; [apply IntFacts.N_to_string_decimal|].
  split; [reflexivity|]. apply N.mod_lt. lia.
Qed.

Lemma read_decimal_text (neg : bool) (ds : string) (q d : N) :
  decimal_of ds q -> (d < 10)%N ->
  Float32.read_decimal neg (ds ++ String "." (String (Int.digit_char d) EmptyString))
  = Float32.of_ratio neg (q * 10 + d, 10)%N.
Proof.
  intros (Hne & Hdig & Hread) Hd. unfold Float32.read_decimal.
  rewrite Hread. cbn [Int.read_digits].
  change (Int.is_digit ".") with false. cbv iota.
  cbn [Int.read_digits].
  rewrite (IntFacts.digit_char_is_digit d Hd), (IntFacts.digit_char_val d Hd).
  rewrite N.mul_0_l, N.add_0_l.
  destruct ds as [|c s]; [congruence|].
  cbn [String.length Nat.add]. cbn [Float32.read_exponent]. reflexivity.
Qed.

Lemma stof_finite_text (neg : bool) (ds : string) (q d : N) :
  decimal_of ds q -> (d < 10)%N ->
  Float32.stof
    (Float32.sign_prefix neg (ds ++ String "." (String (Int.digit_char d) EmptyString)))
  = Float32.of_ratio neg (q * 10 + d, 10)%N.
Proof.
  intros Hds Hd.
  pose proof (read_decimal_text neg ds q d Hds Hd) as Hread.
  destruct Hds as (Hne & Hdig & _).
  pose proof (digits_not_hex ds (String (Int.digit_char d) EmptyString) Hne Hdig) as Hx.
  destruct ds as [|c s]; [congruence|].
  assert (Hc : Int.is_digit c = true).
  { apply Hdig. simpl. now rewrite Ascii.eqb_refl. }
  destruct (digit_not_inf c (s ++ String "." (String (Int.digit_char d) EmptyString)) Hc)
    as [Hinf Hnan].
  unfold Float32.stof. destruct neg; cbn [Float32.sign_prefix].
  - cbn [Int.skip_space]. change (Int.is_space "-") with false. cbv iota.
    cbn [Int.read_sign].
    cbn [append] in *. now rewrite Hinf, Hnan, Hx.
  - cbn [append] in *. cbn [Int.skip_space].
    rewrite (CharFacts.digit_not_space c Hc), (CharFacts.digit_no_sign c _ Hc).
    now rewrite Hinf, Hnan, Hx.
Qed.

(** [std::stof] reads the text of a finite float back as a float that
    is written with the same text. *)
Lemma stof_fixed1 (neg : bool) (k : N) :
  Float32.representable k = true ->
  exists k',
    Float32.stof (Float32.fixed1 (Float32.Ffin neg k)) = Some (Float32.Ffin neg k') /\
    Float32.tenths k' = Float32.tenths k /\
    Float32.fixed1 (Float32.Ffin neg k') = Float32.fixed1 (Float32.Ffin neg k).
Proof.
  intros Hk.
  destruct (TenthsFacts.tenths_roundtrip k Hk) as (k' & Hr & Ht).
  exists k'. split; [|split; [exact Ht|]].
  - destruct (fixed1_finite neg k) as (ds & d & -> & Hds & -> & Hd).
    rewrite (stof_finite_text neg ds _ _ Hds Hd).
    replace (Float32.tenths k / 10 * 10 + Float32.tenths k mod 10)%N
      with (Float32.tenths k)
      by (pose proof (N.div_mod (Float32.tenths k) 10); lia).
    unfold Float32.of_ratio. cbn [fst snd]. now rewrite Hr.
  - unfold Float32.fixed1. now rewrite Ht.
Qed.

Lemma fixed1_chars (neg : bool) (k : N) :
  chars_in number_char (Float32.fixed1 (Float32.Ffin neg k)).
Proof.
  destruct (fixed1_finite neg k) as (ds & d & -> & (_ & Hdig & _) & _ & Hd).
  assert (H : chars_in number_char
                (ds ++ String "." (String (Int.digit_char d) EmptyString))).
  { apply chars_in_app. split.
    - eapply chars_in_impl; [apply CharFacts.digit_number_char|exact Hdig].
    - apply chars_in_cons. split; [reflexivity|].
      apply chars_in_cons. split; [|apply chars_in_nil].
      apply CharFacts.digit_number_char. now apply IntFacts.digit_char_is_digit. }
  destruct neg; cbn [Float32.sign_prefix]; [|exact H].
  apply chars_in_cons. split; [reflexivity|exact H].
Qed.

Lemma fixed1_has_point (neg : bool) (k : N) :
  Str.find "." (Float32.fixed1 (Float32.Ffin neg k)) <> None.
Proof.
  apply find_some_mem.
  destruct (fixed1_finite neg k) as (ds & d & -> & _).
  assert (H : Str.mem "." (ds ++ String "." (String (Int.digit_char d) EmptyString)) = true).
  { rewrite IntFacts.mem_app. apply orb_true_iff. right. reflexivity. }
  destruct neg; cbn [Float32.sign_prefix]; [|exact H].
  simpl. exact H.
Qed.

Lemma scale_den_pos (base mant : N) (e : Z) :
  (0 < base)%N -> (0 < snd (Float32.scale base mant e))%N.
Proof.
  intros Hb. unfold Float32.scale. destruct e; cbn [snd]; lia.
Qed.

Lemma of_ratio_valid (neg : bool) (nd : N * N) (f : float) :
  (0 < snd nd)%N -> Float32.of_ratio neg nd = Some f -> Float32.valid f = true.
Proof.
  intros Hd. unfold Float32.of_ratio.
  destruct (Float32.round_ratio (fst nd) (snd nd)) as [k|] eqn:E; [|discriminate].
  intros [= <-]. cbn [Float32.valid].
  now apply (NearestFacts.round_ratio_representable (fst nd) (snd nd)).
Qed.

(** Every float that [std::stof] returns is a binary32 number. *)
Lemma stof_valid (s : string) (f : float) :
  Float32.stof s = Some f -> Float32.valid f = true.
Proof.
  unfold Float32.stof.
  destruct (Int.read_sign (Int.skip_space s)) as [neg s1].
  destruct (Float32.prefix_ci "inf" s1); [now intros [= <-]|].
  destruct (Float32.prefix_ci "nan" s1); [now intros [= <-]|].
  destruct (Float32.prefix_ci "0x" s1).
  - unfold Float32.read_hexadecimal.
    destruct (Float32.read_hex (Str.substr_from 2 s1) 0 0) as [[ip ci] r1].
    destruct (match r1 with
              | String "." s1' =>
                  let '(m, c, r) := Float32.read_hex s1' ip 0 in (m, c, r)
              | _ => (ip, 0%nat, r1)
              end) as [[mant cf] s2].
    destruct (ci + cf)%nat; [now intros [= <-]|].
    apply of_ratio_valid. apply scale_den_pos. lia.
  - unfold Float32.read_decimal.
    destruct (Int.read_digits s1 0 0) as [[ip ci] r1].
    destruct (match r1 with
              | String "." s1' =>
                  let '(m, c, r) := Int.read_digits s1' ip 0 in (m, c, r)
              | _ => (ip, 0%nat, r1)
              end) as [[mant cf] s2].
    destruct (ci + cf)%nat; [discriminate|].
    apply of_ratio_valid. apply scale_den_pos. lia.
Qed.

End FloatText.

(** ** The round trip *)

(** C1, as stated, fails: inside a table the parser splits at every
    comma at depth zero, also inside a string.  The array of the one
    string [a,b] is written [["a,b"]] and read back as an array of two
    strings. *)
Lemma C1_counterexample :
  ~ (forall v : Value, in_claim_scope v = true -> round_trips v).
Proof.
  intros H.
  destruct (H (VTable 0%N (Table_of_vector [VString "a,b"])) eq_refl 0%N)
    as (v' & n' & H1 & H2).
  vm_compute in H1. injection H1 as <- <-.
  vm_compute in H2. discriminate.
Qed.

Module ChunkFacts.

Lemma chunk_nil (lo : Z) : chunk_at lo EmptyString.
Proof. intros d _ rest cur. simpl. now rewrite StrFacts.append_nil_r. Qed.

Lemma chunk_app (lo : Z) (a b : string) :
  chunk_at lo a -> chunk_at lo b -> chunk_at lo (a ++ b).
Proof.
  intros Ha Hb d Hd rest cur.
  rewrite StrFacts.append_assoc, (Ha d Hd), (Hb d Hd).
  now rewrite StrFacts.append_assoc.
Qed.

Lemma chunk_mono (lo lo' : Z) (s : string) :
  (lo <= lo')%Z -> chunk_at lo s -> chunk_at lo' s.
Proof. intros H Hs d Hd. apply Hs. lia. Qed.

Lemma chunk_inert_char (lo : Z) (c : ascii) :
  inert c = true -> chunk_at lo (String c EmptyString).
Proof.
  intros Hc d _ rest cur. unfold inert in Hc.
  apply negb_true_iff in Hc. apply orb_false_iff in Hc.
  destruct Hc as [Hc Hcomma]. apply orb_false_iff in Hc. destruct Hc as [Ho Hcl].
  cbn [append segments]. now rewrite Ho, Hcl, Hcomma.
Qed.

Lemma chunk_inert (lo : Z) (s : string) :
  chars_in inert s -> chunk_at lo s.
Proof.
  induction s as [|c s IH]; intros H; [apply chunk_nil|].
  apply chars_in_cons in H. destruct H as [Hc Hs].
  change (String c s) with (String c EmptyString ++ s).
  apply chunk_app; [now apply chunk_inert_char | now apply IH].
Qed.

(** A comma below the top level ends no segment. *)
Lemma chunk_comma : chunk_at 1 ",".
Proof.
  intros d Hd rest cur. cbn [append segments].
  change (is_open ",") with false. change (is_close ",") with false.
  cbv iota. destruct (Z.eqb_spec d 0); [lia|]. reflexivity.
Qed.

Lemma chunk_enclosed (c d : ascii) (content : string) :
  is_open c = true -> is_close d = true -> is_open d = false ->
  chunk_at 1 content -> chunk_at 0 (enclosed c d content).
Proof.
  intros Hc Hd Hd' Hin depth Hdepth rest cur.
  unfold enclosed. cbn [append segments]. rewrite Hc.
  rewrite StrFacts.append_assoc.
  rewrite (Hin (depth + 1)%Z ltac:(lia)).
  cbn [append segments]. rewrite Hd', Hd.
  replace (depth + 1 - 1)%Z with depth by lia.
  f_equal. rewrite !StrFacts.append_assoc. reflexivity.
Qed.

(** The segments of texts that the scan passes over, with commas
    between them, are these texts. *)
Lemma all_segments_join (a : string) (l : list string) :
  Forall (chunk_at 0) (a :: l) ->
  all_segments (join "," (a :: l)) = a :: l.
Proof.
  revert a. induction l as [|b l IH]; intros a H.
  - inversion H as [|? ? Ha _]; subst. unfold all_segments. cbn [join].
    rewrite <- (StrFacts.append_nil_r a) at 1 2.
    rewrite (Ha 0%Z ltac:(lia)). reflexivity.
  - inversion H as [|? ? Ha Hl]; subst.
    change (join "," (a :: b :: l)) with (a ++ "," ++ join "," (b :: l)).
    unfold all_segments. rewrite (Ha 0%Z ltac:(lia)).
    cbn [append segments].
    change (is_open ",") with false. change (is_close ",") with false.
    cbv iota. cbn [Ascii.eqb Bool.eqb andb Z.eqb closed last app].
    specialize (IH b Hl). unfold all_segments in IH. now rewrite IH.
Qed.

End ChunkFacts.

(** Induction on a value through the pairs of its tables. *)
Lemma Value_nested_ind (P : Value -> Prop) :
  (forall i, P (VInt i)) ->
  (forall f, P (VFloat f)) ->
  (forall b, P (VBool b)) ->
  (forall s, P (VString s)) ->
  (forall p t, Forall (fun kv => P (fst kv) /\ P (snd kv)) (data t) -> P (VTable p t)) ->
  forall v, P v.
Proof.
  intros Hi Hf Hb Hs Ht.
  fix IH 1. intros [i|f|b|s|p [d a]].
  - apply Hi.
  - apply Hf.
  - apply Hb.
  - apply Hs.
  - apply Ht. cbn [data].
    induction d as [|[k v] d IHd]; constructor.
    + split; apply IH.
    + exact IHd.
Qed.

Module TextFacts.

Lemma all_chars_spec (P : ascii -> bool) (s : string) :
  all_chars P s = true <-> chars_in P s.
Proof.
  induction s as [|c s IH]; simpl.
  - split; [intros _; apply chars_in_nil|reflexivity].
  - rewrite andb_true_iff, IH. symmetry. apply chars_in_cons.
Qed.

Lemma front_mem (s : string) (c : ascii) :
  Str.front s = Some c -> Str.mem c s = true.
Proof.
  destruct s; simpl; [discriminate|]. intros [= ->]. now rewrite Ascii.eqb_refl.
Qed.

Lemma back_mem (s : string) (c : ascii) :
  Str.back s = Some c -> Str.mem c s = true.
Proof.
  induction s as [|d s IH]; simpl; [discriminate|].
  destruct s as [|e s].
  - intros [= ->]. now rewrite Ascii.eqb_refl.
  - intros H. rewrite (IH H). apply orb_true_r.
Qed.

Lemma back_some (s : string) : s <> EmptyString -> exists c, Str.back s = Some c.
Proof.
  induction s as [|d s IH]; [congruence|]. intros _.
  destruct s as [|e s]; [now exists d|].
  destruct IH as [c Hc]; [discriminate|]. exists c. exact Hc.
Qed.

(** A text without blanks is its own trimmed text. *)
Lemma trim_no_blank (s : string) :
  s <> EmptyString -> chars_in not_blank s -> Str.trim s = s.
Proof.
  intros Hne Hs.
  destruct s as [|c s']; [congruence|].
  destruct (back_some (String c s') Hne) as [d Hd].
  apply (TrimFacts.trim_id _ c d); auto.
  - apply negb_true_iff. apply Hs. simpl. now rewrite Ascii.eqb_refl.
  - apply negb_true_iff. apply Hs. now apply back_mem.
Qed.

Lemma trim_enclosed (c d : ascii) (content : string) :
  not_blank c = true -> not_blank d = true ->
  Str.trim (enclosed c d content) = enclosed c d content.
Proof.
  intros Hc Hd. apply (TrimFacts.trim_id _ c d).
  - reflexivity.
  - apply enclosed_back.
  - now apply negb_true_iff.
  - now apply negb_true_iff.
Qed.

Lemma find_none_enclosed (x c d : ascii) (content : string) :
  Ascii.eqb c x = false -> Ascii.eqb d x = false ->
  Str.find x content = None -> Str.find x (enclosed c d content) = None.
Proof.
  intros Hc Hd Hn. unfold enclosed. simpl. rewrite Hc.
  assert (E : Str.find x (content ++ String d EmptyString) = None).
  { induction content as [|e s IH]; simpl in *.
    - now rewrite Hd.
    - destruct (Ascii.eqb e x); [discriminate|].
      destruct (Str.find x s); [discriminate|]. now rewrite IH. }
  now rewrite E.
Qed.

Lemma to_string_not_empty (i : Z) : Int.to_string i <> EmptyString.
Proof.
  assert (H : forall n, Int.N_to_string n <> EmptyString).
  { intros n. now destruct (IntFacts.N_to_string_decimal n). }
  destruct i as [|p|p]; unfold Int.to_string; try apply H. discriminate.
Qed.

Lemma fixed1_not_empty (neg : bool) (k : N) :
  Float32.fixed1 (Float32.Ffin neg k) <> EmptyString.
Proof.
  destruct (FloatText.fixed1_finite neg k) as (ds & d & -> & (Hne & _) & _).
  destruct neg; cbn [Float32.sign_prefix]; [discriminate|].
  destruct ds; [congruence|discriminate].
Qed.

(** The loop of the array form writes the elements with a comma
    between them. *)
Lemma array_items_rest (m : Map) :
  array_items Value_serialize false m
  = fold_right (fun x acc => "," ++ x ++ acc) EmptyString (List.map element_text m).
Proof.
  induction m as [|[k v] m IH]; [reflexivity|].
  cbn [array_items List.map fold_right]. now rewrite IH.
Qed.

Lemma array_items_join (m : Map) :
  array_items Value_serialize true m = join "," (List.map element_text m).
Proof.
  destruct m as [|[k v] m]; [reflexivity|].
  cbn [array_items List.map]. now rewrite join_cons, array_items_rest.
Qed.

Lemma chunk_join (texts : list string) :
  Forall (chunk_at 0) texts -> chunk_at 1 (join "," texts).
Proof.
  destruct texts as [|a l]; [intros _; apply ChunkFacts.chunk_nil|].
  revert a. induction l as [|b l IH]; intros a H.
  - inversion H; subst. cbn [join].
    now apply (ChunkFacts.chunk_mono 0).
  - inversion H as [|? ? Ha Hl]; subst.
    change (join "," (a :: b :: l)) with (a ++ "," ++ join "," (b :: l)).
    apply ChunkFacts.chunk_app; [now apply (ChunkFacts.chunk_mono 0)|].
    apply ChunkFacts.chunk_app; [apply ChunkFacts.chunk_comma|now apply IH].
Qed.

End TextFacts.

Module SerFacts.

Lemma table_text (t : Table) :
  Table_serialize t =
  if is_array t
  then enclosed "[" "]" (join "," (List.map element_text (data t)))
  else enclosed "{" "}" (join "," (List.map pair_text (data t))).
Proof.
  unfold Table_serialize, Table_serialize_with.
  destruct (is_array t).
  - now rewrite TextFacts.array_items_join.
  - now rewrite map_items_join.
Qed.

Lemma finite_float (f : float) :
  Float32.valid f && Float32.is_finite f = true ->
  exists neg k, f = Float32.Ffin neg k /\ Float32.representable k = true.
Proof.
  destruct f as [neg|neg|neg k]; simpl; rewrite ?andb_false_r; try discriminate.
  rewrite andb_true_r. intros H. now exists neg, k.
Qed.

(** What is written for a value is not empty and has no blank at its
    ends. *)
Lemma serialize_trimmed (v : Value) (pl : place) :
  roundtrippable pl v = true ->
  Str.trim (Value_serialize v) = Value_serialize v /\
  Str.empty (Value_serialize v) = false.
Proof.
  destruct v as [i|f|b|s|p t]; cbn [roundtrippable Value_serialize]; intros H.
  - split.
    + apply TextFacts.trim_no_blank; [apply TextFacts.to_string_not_empty|].
      eapply chars_in_impl; [apply CharFacts.number_char_not_blank|].
      apply IntText.to_string_chars.
    + apply StrFacts.empty_false. apply TextFacts.to_string_not_empty.
  - destruct (finite_float f H) as (neg & k & -> & _). split.
    + apply TextFacts.trim_no_blank; [apply TextFacts.fixed1_not_empty|].
      eapply chars_in_impl; [apply CharFacts.number_char_not_blank|].
      apply FloatText.fixed1_chars.
    + apply StrFacts.empty_false. apply TextFacts.fixed1_not_empty.
  - destruct b; split; reflexivity.
  - split; [|reflexivity]. apply (TextFacts.trim_enclosed dquote dquote); reflexivity.
  - fold (Table_serialize t). rewrite table_text.
    destruct (is_array t); (split; [|reflexivity]);
      apply TextFacts.trim_enclosed; reflexivity.
Qed.

(** What is written for a key contains no [=]. *)
Lemma serialize_key_no_equals (v : Value) :
  roundtrippable Key v = true -> Str.find "=" (Value_serialize v) = None.
Proof.
  destruct v as [i|f|b|s|p t]; cbn [roundtrippable Value_serialize]; intros H.
  - apply find_none_chars.
    eapply chars_in_impl; [apply CharFacts.number_char_not_equals|].
    apply IntText.to_string_chars.
  - destruct (finite_float f H) as (neg & k & -> & _).
    apply find_none_chars.
    eapply chars_in_impl; [apply CharFacts.number_char_not_equals|].
    apply FloatText.fixed1_chars.
  - destruct b; reflexivity.
  - unfold string_ok in H. apply andb_true_iff in H. destruct H as [_ H].
    apply TextFacts.all_chars_spec in H.
    apply (TextFacts.find_none_enclosed "=" dquote dquote); try reflexivity.
    now apply find_none_chars.
  - discriminate.
Qed.

(** The scan of a table passes over what is written for one of its
    elements or keys. *)
Lemma serialize_chunk (v : Value) :
  forall pl, roundtrippable pl v = true -> pl <> Top ->
             chunk_at 0 (Value_serialize v).
Proof.
  induction v as [i|f|b|s|p t IH] using Value_nested_ind;
    intros pl H Hpl; cbn [roundtrippable Value_serialize] in *.
  - apply ChunkFacts.chunk_inert.
    eapply chars_in_impl; [apply CharFacts.number_char_inert|].
    apply IntText.to_string_chars.
  - destruct (finite_float f H) as (neg & k & -> & _).
    apply ChunkFacts.chunk_inert.
    eapply chars_in_impl; [apply CharFacts.number_char_inert|].
    apply FloatText.fixed1_chars.
  - apply ChunkFacts.chunk_inert. destruct b.
    + apply TextFacts.all_chars_spec. reflexivity.
    + apply TextFacts.all_chars_spec. reflexivity.
  - assert (Hs : chars_in inert s).
    { apply TextFacts.all_chars_spec. destruct pl; [congruence|exact H|].
      unfold string_ok in H. apply andb_true_iff in H. tauto. }
    apply ChunkFacts.chunk_inert. unfold quoted.
    apply chars_in_cons. split; [reflexivity|].
    apply chars_in_app. split; [exact Hs|].
    apply chars_in_cons. split; [reflexivity|apply chars_in_nil].
  - fold (Table_serialize t). rewrite table_text.
    assert (Hin : if is_array t
                  then Forall (chunk_at 0) (List.map element_text (data t))
                  else Forall (chunk_at 0) (List.map pair_text (data t))).
    { destruct pl; [congruence| |discriminate].
      destruct (is_array t).
      - apply andb_true_iff in H. destruct H as [_ H].
        rewrite forallb_forall in H. rewrite Forall_forall in IH.
        apply Forall_forall. intros x Hx. apply in_map_iff in Hx.
        destruct Hx as ([k e] & <- & Hkv).
        apply (proj2 (IH _ Hkv) Element); [|discriminate].
        apply (H _ Hkv).
      - apply andb_true_iff in H. destruct H as [H _].
        rewrite forallb_forall in H. rewrite Forall_forall in IH.
        apply Forall_forall. intros x Hx. apply in_map_iff in Hx.
        destruct Hx as ([k e] & <- & Hkv).
        specialize (H _ Hkv). cbn in H. apply andb_true_iff in H.
        destruct H as [Hk He]. destruct (IH _ Hkv) as [IHk IHe].
        unfold pair_text. cbn [fst snd].
        apply ChunkFacts.chunk_app; [apply (IHk Key Hk); discriminate|].
        apply ChunkFacts.chunk_app; [|apply (IHe Element He); discriminate].
        apply ChunkFacts.chunk_inert_char. reflexivity. }
    destruct (is_array t).
    + apply ChunkFacts.chunk_enclosed; try reflexivity.
      now apply TextFacts.chunk_join.
    + apply ChunkFacts.chunk_enclosed; try reflexivity.
      now apply TextFacts.chunk_join.
Qed.

End SerFacts.

(** The number that [Value::deserialize] reads is an [int] or a
    [float] of the program. *)
Lemma numeric_well_typed (s : string) (v : Value) :
  numeric s = Some v ->
  (exists i, v = VInt i /\ Int.in_range i = true) \/
  (exists f, v = VFloat f /\ Float32.valid f = true).
Proof.
  unfold numeric. destruct (Str.find "." s).
  - destruct (Float32.stof s) as [f|] eqn:E; [|discriminate].
    intros [= <-]. right. exists f. split; [reflexivity|].
    now apply (FloatText.stof_valid s).
  - destruct (Int.stoi s) as [i|] eqn:E; [|discriminate].
    intros [= <-]. left. exists i. split; [reflexivity|].
    unfold Int.stoi in E.
    destruct (Int.read_sign (Int.skip_space s)) as [neg s1].
    destruct (Int.read_digits s1 0 0) as [[n cnt] r].
    destruct cnt; [discriminate|].
    destruct (Int.in_range (if neg then (- Z.of_N n)%Z else Z.of_N n)) eqn:R;
      [|discriminate].
    now injection E as <-.
Qed.

Module ScalarFacts.

Lemma quoted_deserialize (s : string) (n : addr) :
  Value_deserialize (quoted s) n = Ok (VString s, n).
Proof.
  rewrite Value_deserialize_unfold.
  change (quoted s) with (enclosed dquote dquote s).
  change (Str.empty (enclosed dquote dquote s)) with false. cbv iota.
  assert (Hn : numeric (enclosed dquote dquote s) = None).
  { unfold numeric. destruct (Str.find "." (enclosed dquote dquote s)); reflexivity. }
  rewrite Hn.
  change (enclosed dquote dquote s =? "true")%string with false.
  change (enclosed dquote dquote s =? "false")%string with false.
  cbv iota.
  assert (Hq : is_quoted (enclosed dquote dquote s) = true).
  { unfold is_quoted, Str.ends_with.
    rewrite enclosed_length, enclosed_back. reflexivity. }
  now rewrite Hq, enclosed_content.
Qed.

Lemma int_deserialize (i : Z) (n : addr) :
  Int.in_range i = true ->
  Value_deserialize (Int.to_string i) n = Ok (VInt i, n).
Proof.
  intros H. rewrite Value_deserialize_unfold.
  pose proof (TextFacts.to_string_not_empty i) as Hne.
  apply StrFacts.empty_false in Hne. rewrite Hne.
  unfold numeric.
  now rewrite IntText.to_string_no_point, (IntText.stoi_to_string i H).
Qed.

Lemma float_deserialize (neg : bool) (k : N) (n : addr) :
  Float32.representable k = true ->
  exists k',
    Float32.stof (Float32.fixed1 (Float32.Ffin neg k)) = Some (Float32.Ffin neg k') /\
    Float32.tenths k' = Float32.tenths k /\
    Value_deserialize (Float32.fixed1 (Float32.Ffin neg k)) n
    = Ok (VFloat (Float32.Ffin neg k'), n) /\
    Float32.fixed1 (Float32.Ffin neg k') = Float32.fixed1 (Float32.Ffin neg k).
Proof.
  intros H. destruct (FloatText.stof_fixed1 neg k H) as (k' & Hs & Ht & Hf).
  exists k'. split; [exact Hs|]. split; [exact Ht|]. split; [|exact Hf].
  rewrite Value_deserialize_unfold.
  pose proof (TextFacts.fixed1_not_empty neg k) as Hne.
  apply StrFacts.empty_false in Hne. rewrite Hne.
  unfold numeric.
  pose proof (FloatText.fixed1_has_point neg k) as Hp.
  destruct (Str.find "." (Float32.fixed1 (Float32.Ffin neg k))); [|congruence].
  now rewrite Hs.
Qed.

(** A scalar is read back as [reread] says, with its content. *)
Lemma scalar_deserialize (v : Value) (pl : place) (n : addr) :
  is_table v = false -> roundtrippable pl v = true ->
  Value_deserialize (Value_serialize v) n = Ok (reread v, n) /\
  same_content v (reread v) = true.
Proof.
  destruct v as [i|f|b|s|p t]; cbn [is_table roundtrippable Value_serialize];
    intros Ht H; try discriminate.
  - split; [now apply int_deserialize|]. simpl. apply Z.eqb_refl.
  - destruct (SerFacts.finite_float f H) as (neg & k & -> & Hk).
    destruct (float_deserialize neg k n Hk) as (k' & Hs & _ & Hd & Hf).
    unfold reread. rewrite Hs. split; [exact Hd|].
    cbn [same_content]. rewrite Hf. apply String.eqb_refl.
  - destruct b; split; reflexivity.
  - split; [apply quoted_deserialize|]. simpl. apply String.eqb_refl.
Qed.

Lemma tenths_zero : Float32.tenths 0 = 0%N.
Proof. reflexivity. Qed.

Lemma reread_index (a : Value) : index (reread a) = index a.
Proof.
  destruct a as [i|f|x|s|p t]; try reflexivity.
  unfold reread. destruct (Float32.stof (Float32.fixed1 f)); reflexivity.
Qed.

(** Keys that are ascending once floats are taken in tenths are
    ascending when read back. *)
Lemma reread_ascending (a b : Value) :
  roundtrippable Key a = true -> roundtrippable Key b = true ->
  key_lt1 a b = true -> Value_lt (reread a) (reread b) = true.
Proof.
  intros Ha Hb Hlt.
  destruct (Nat.eq_dec (index a) (index b)) as [E|NE].
  - destruct a as [i|f|x|s|p t], b as [j|g|y|u|q w]; try discriminate;
      try exact Hlt.
    cbn [roundtrippable] in Ha, Hb.
    destruct (SerFacts.finite_float f Ha) as (na & ka & -> & Hka).
    destruct (SerFacts.finite_float g Hb) as (nb & kb & -> & Hkb).
    destruct (FloatText.stof_fixed1 na ka Hka) as (ka' & Hsa & Hta & _).
    destruct (FloatText.stof_fixed1 nb kb Hkb) as (kb' & Hsb & Htb & _).
    unfold reread. rewrite Hsa, Hsb.
    unfold key_lt1, round1 in Hlt. apply Z.ltb_lt in Hlt.
    unfold Value_lt. cbn. apply Z.ltb_lt.
    rewrite <- Hta, <- Htb in Hlt.
    pose proof (TenthsFacts.tenths_monotone ka' kb') as M1.
    pose proof (TenthsFacts.tenths_monotone kb' ka') as M2.
    pose proof tenths_zero as T0.
    destruct (N.eq_dec ka' 0) as [Ea|Ea]; [rewrite Ea in *|];
      destruct (N.eq_dec kb' 0) as [Eb|Eb]; try rewrite Eb in *;
      destruct na, nb; unfold Float32.signed in *; lia.
  - assert (Hk : key_lt1 a b = Value_lt a b).
    { destruct a, b; try reflexivity. now elim NE. }
    rewrite Hk, Value_lt_other_tag in Hlt by exact NE.
    rewrite Value_lt_other_tag by (rewrite !reread_index; exact NE).
    now rewrite !reread_index.
Qed.

End ScalarFacts.

Module EndsFacts.

Lemma ends_ok_trim (s : string) : ends_ok s -> Str.trim s = s.
Proof.
  intros (c & d & Hf & Hb & Hc & Hd).
  apply (TrimFacts.trim_id s c d); auto; now apply negb_true_iff.
Qed.

Lemma ends_ok_not_empty (s : string) : ends_ok s -> Str.empty s = false.
Proof. intros (c & d & Hf & _). destruct s; [discriminate|reflexivity]. Qed.

Lemma front_app (a b : string) :
  a <> EmptyString -> Str.front (a ++ b) = Str.front a.
Proof. destruct a; [congruence|reflexivity]. Qed.

Lemma back_app (a b : string) :
  b <> EmptyString -> Str.back (a ++ b) = Str.back b.
Proof.
  intros Hb. induction a as [|c a IH]; [reflexivity|].
  cbn [append]. rewrite StrFacts.back_cons; [exact IH|].
  destruct a; [exact Hb|discriminate].
Qed.

Lemma ends_ok_app (a x b : string) :
  ends_ok a -> ends_ok b -> ends_ok (a ++ x ++ b).
Proof.
  intros (c & d0 & Hf & Hb0 & Hc & Hd0) (c1 & d & Hf' & Hb & Hc1 & Hd).
  exists c, d. repeat split; auto.
  - rewrite front_app; [exact Hf|]. destruct a; [discriminate|discriminate].
  - rewrite back_app.
    + rewrite back_app; [exact Hb|]. destruct b; [discriminate|discriminate].
    + destruct x; simpl; destruct b; try discriminate.
Qed.

Lemma ends_ok_chars (s : string) :
  s <> EmptyString -> chars_in not_blank s -> ends_ok s.
Proof.
  intros Hne Hs. destruct s as [|c s']; [congruence|].
  destruct (TextFacts.back_some (String c s') Hne) as [d Hd].
  exists c, d. repeat split; auto.
  - apply Hs. simpl. now rewrite Ascii.eqb_refl.
  - apply Hs. now apply TextFacts.back_mem.
Qed.

Lemma ends_ok_enclosed (c d : ascii) (content : string) :
  not_blank c = true -> not_blank d = true -> ends_ok (enclosed c d content).
Proof.
  intros Hc Hd. exists c, d. repeat split; auto. apply enclosed_back.
Qed.

Lemma serialize_ends (v : Value) (pl : place) :
  roundtrippable pl v = true -> ends_ok (Value_serialize v).
Proof.
  destruct v as [i|f|b|s|p t]; cbn [roundtrippable Value_serialize]; intros H.
  - apply ends_ok_chars; [apply TextFacts.to_string_not_empty|].
    eapply chars_in_impl; [apply CharFacts.number_char_not_blank|].
    apply IntText.to_string_chars.
  - destruct (SerFacts.finite_float f H) as (neg & k & -> & _).
    apply ends_ok_chars; [apply TextFacts.fixed1_not_empty|].
    eapply chars_in_impl; [apply CharFacts.number_char_not_blank|].
    apply FloatText.fixed1_chars.
  - destruct b; [exists "t"%char, "e"%char | exists "f"%char, "e"%char];
      repeat split.
  - apply (ends_ok_enclosed dquote dquote); reflexivity.
  - fold (Table_serialize t). rewrite SerFacts.table_text.
    destruct (is_array t); apply ends_ok_enclosed; reflexivity.
Qed.

End EndsFacts.


(** A value that only leads to a table is read through
    [Table::deserialize]. *)
Lemma bracket_deserialize (text : string) (n : addr) :
  Str.starts_with "[" text || Str.starts_with "{" text = true ->
  Value_deserialize text n
  = bind (Table_deserialize_with Value_deserialize text) Value_of_table n.
Proof.
  intros H. rewrite Value_deserialize_unfold.
  destruct (bracket_not_scalar text H) as (-> & -> & -> & ->).
  assert (He : Str.empty text = false) by (destruct text; [discriminate|reflexivity]).
  rewrite He, H. unfold bind. now rewrite Table_deserialize_unfold.
Qed.

Module RoundTrip.

Lemma all2_values (data : Map) :
  forall ks vs,
    List.length ks = List.length vs ->
    Forall2 (fun kv v' => same_content (snd kv) v' = true) data vs ->
    all2_pairs same_content false data (combine ks vs) = true.
Proof.
  induction data as [|[k v] data IH]; intros ks vs Hl H; inversion H; subst.
  - destruct ks; [reflexivity|discriminate].
  - destruct ks as [|k0 ks]; [discriminate|]. injection Hl as Hl.
    cbn [combine all2_pairs snd] in *. rewrite (IH ks _ Hl) by assumption.
    match goal with Hs : same_content v _ = true |- _ => rewrite Hs end.
    reflexivity.
Qed.

Lemma all2_entries (data ps : Map) :
  Forall2 (fun kv kv' => same_content (fst kv) (fst kv') = true /\
                         same_content (snd kv) (snd kv') = true) data ps ->
  all2_pairs same_content true data ps = true.
Proof.
  induction 1 as [|[k v] [k' v'] data ps [Hk Hv] _ IH]; [reflexivity|].
  cbn [all2_pairs fst snd] in *. now rewrite Hk, Hv, IH.
Qed.

(** The elements of an array, read one after the other. *)
Lemma fold_array (data : Map) :
  Forall (fun kv => reads_back (fst kv) /\ reads_back (snd kv)) data ->
  forallb (fun kv => let '(_, x) := kv in roundtrippable Element x) data = true ->
  forall acc n, exists vs n',
    fold_items (array_item Value_deserialize) (List.map element_text data) acc n
    = Ok ((acc ++ vs)%list, n') /\
    Forall2 (fun kv v' => same_content (snd kv) v' = true) data vs.
Proof.
  induction data as [|[k x] data IH]; intros HP Hrt acc n.
  - exists [], n. rewrite app_nil_r. split; [reflexivity|constructor].
  - inversion HP as [|? ? [_ Px] HP']; subst. cbn [snd] in Px.
    cbn [forallb] in Hrt. apply andb_true_iff in Hrt. destruct Hrt as [Hx Hrt].
    cbn [List.map fold_items]. unfold element_text at 1. cbn [snd].
    pose proof (EndsFacts.serialize_ends x Element Hx) as He.
    unfold bind at 1. rewrite array_item_trimmed.
    rewrite (EndsFacts.ends_ok_trim _ He), (EndsFacts.ends_ok_not_empty _ He).
    destruct (Px Element Hx n) as (v' & n1 & Hd & Hs & _).
    unfold bind at 1. rewrite Hd. cbn [ret].
    destruct (IH HP' Hrt (acc ++ [v'])%list n1) as (vs & n' & Hf & H2).
    exists (v' :: vs), n'. split.
    + rewrite Hf. now rewrite <- app_assoc.
    + constructor; assumption.
Qed.

(** The entries of a map, read one after the other: each key is above
    the keys read before it, so it goes to the end of the map. *)
Lemma fold_object (data : Map) :
  Forall (fun kv => reads_back (fst kv) /\ reads_back (snd kv)) data ->
  forallb (fun kv => let '(k, x) := kv in
                     roundtrippable Key k && roundtrippable Element x) data = true ->
  ascending1 (keys data) = true ->
  forall acc n,
    (forall kv kv', In kv acc -> In kv' data ->
                    Value_lt (fst kv) (reread (fst kv')) = true) ->
    exists ps n',
      fold_items (object_item Value_deserialize) (List.map pair_text data) acc n
      = Ok ((acc ++ ps)%list, n') /\
      Forall2 (fun kv kv' => same_content (fst kv) (fst kv') = true /\
                             same_content (snd kv) (snd kv') = true) data ps.
Proof.
  induction data as [|[k x] data IH]; intros HP Hrt Hasc acc n Hacc.
  - exists [], n. rewrite app_nil_r. split; [reflexivity|constructor].
  - inversion HP as [|? ? [_ Px] HP']; subst. cbn [snd] in Px.
    cbn [forallb] in Hrt. apply andb_true_iff in Hrt. destruct Hrt as [Hkx Hrt].
    apply andb_true_iff in Hkx. destruct Hkx as [Hk Hx].
    cbn [keys List.map ascending1] in Hasc. fold (keys data) in Hasc.
    apply andb_true_iff in Hasc. destruct Hasc as [Hk_lt Hasc].
    cbn [List.map fold_items].
    pose proof (EndsFacts.serialize_ends k Key Hk) as Hek.
    pose proof (EndsFacts.serialize_ends x Element Hx) as Hex.
    assert (Htrim : Str.trim (pair_text (k, x))
                    = Value_serialize k ++ String "=" (Value_serialize x)).
    { apply EndsFacts.ends_ok_trim.
      apply (EndsFacts.ends_ok_app _ "=" _ Hek Hex). }
    unfold bind at 1.
    rewrite (object_item_split Value_deserialize _ _ _ acc n Htrim
               (SerFacts.serialize_key_no_equals k Hk)).
    rewrite (EndsFacts.ends_ok_trim _ Hek), (EndsFacts.ends_ok_trim _ Hex).
    rewrite (EndsFacts.ends_ok_not_empty _ Hek), (EndsFacts.ends_ok_not_empty _ Hex).
    cbn [negb andb].
    destruct (Px Element Hx n) as (x' & n1 & Hd & Hs & _).
    unfold bind at 1. rewrite Hd.
    assert (Htk : is_table k = false) by (destruct k; try reflexivity; discriminate).
    destruct (ScalarFacts.scalar_deserialize k Key n1 Htk Hk) as [Hdk Hsk].
    unfold bind at 1. rewrite Hdk. cbn [ret].
    rewrite map_set_append.
    2:{ apply Forall_forall. intros kv Hin.
        apply (Hacc kv (k, x) Hin). now left. }
    destruct (IH HP' Hrt Hasc (acc ++ [(reread k, x')])%list n1) as (ps & n' & Hf & H2).
    { intros kv kv' Hin Hin'. apply in_app_or in Hin. destruct Hin as [Hin|Hin].
      - apply (Hacc kv kv' Hin). now right.
      - destruct Hin as [<-|[]]. cbn [fst].
        destruct kv' as [k' y']. cbn [fst].
        rewrite forallb_forall in Hk_lt, Hrt.
        apply ScalarFacts.reread_ascending; [exact Hk| |].
        + specialize (Hrt _ Hin'). cbn in Hrt.
          apply andb_true_iff in Hrt. tauto.
        + apply Hk_lt. unfold keys. apply in_map_iff. now exists (k', y'). }
    exists ((reread k, x') :: ps), n'. split.
    + rewrite Hf. now rewrite <- app_assoc.
    + constructor; [|assumption]. cbn [fst snd]. now split.
Qed.

End RoundTrip.

Lemma fold_all_segments_array (deser : string -> M Value) (texts : list string)
      (acc : list Value) (n : addr) :
  Forall (chunk_at 0) texts ->
  fold_items (array_item deser) (all_segments (join "," texts)) acc n
  = fold_items (array_item deser) texts acc n.
Proof.
  destruct texts as [|a l]; [reflexivity|].
  intros H. now rewrite ChunkFacts.all_segments_join.
Qed.

Lemma fold_all_segments_object (deser : string -> M Value) (texts : list string)
      (acc : Map) (n : addr) :
  Forall (chunk_at 0) texts ->
  fold_items (object_item deser) (all_segments (join "," texts)) acc n
  = fold_items (object_item deser) texts acc n.
Proof.
  destruct texts as [|a l]; [reflexivity|].
  intros H. now rewrite ChunkFacts.all_segments_join.
Qed.

Lemma element_texts_chunk (m : Map) :
  forallb (fun kv => let '(_, x) := kv in roundtrippable Element x) m = true ->
  Forall (chunk_at 0) (List.map element_text m).
Proof.
  intros H. rewrite forallb_forall in H.
  apply Forall_forall. intros s Hs. apply in_map_iff in Hs.
  destruct Hs as ([k x] & <- & Hin).
  apply (SerFacts.serialize_chunk x Element (H _ Hin)). discriminate.
Qed.

Lemma pair_texts_chunk (m : Map) :
  forallb (fun kv => let '(k, x) := kv in
                     roundtrippable Key k && roundtrippable Element x) m = true ->
  Forall (chunk_at 0) (List.map pair_text m).
Proof.
  intros H. rewrite forallb_forall in H.
  apply Forall_forall. intros s Hs. apply in_map_iff in Hs.
  destruct Hs as ([k x] & <- & Hin).
  specialize (H _ Hin). cbn in H. apply andb_true_iff in H. destruct H as [Hk Hx].
  unfold pair_text. cbn [fst snd].
  apply ChunkFacts.chunk_app;
    [apply (SerFacts.serialize_chunk k Key Hk); discriminate|].
  apply ChunkFacts.chunk_app;
    [|apply (SerFacts.serialize_chunk x Element Hx); discriminate].
  apply ChunkFacts.chunk_inert_char. reflexivity.
Qed.

Lemma Forall2_length_values (m : Map) (vs : list Value) (R : Value * Value -> Value -> Prop) :
  Forall2 R m vs -> List.length vs = List.length m.
Proof. induction 1; simpl; congruence. Qed.

(** A table whose content round-trips is read back with that content. *)
Lemma table_reads_back (p : addr) (t : Table) (n : addr) :
  Forall (fun kv => reads_back (fst kv) /\ reads_back (snd kv)) (data t) ->
  (if is_array t then
     (Z.of_nat (List.length (data t)) <=? 2 ^ 31)%Z &&
     forallb (fun kv => let '(_, x) := kv in roundtrippable Element x) (data t)
   else
     forallb (fun kv => let '(k, x) := kv in
                        roundtrippable Key k && roundtrippable Element x) (data t) &&
     ascending1 (keys (data t))) = true ->
  exists v' n',
    Value_deserialize (Value_serialize (VTable p t)) n = Ok (v', n') /\
    same_content (VTable p t) v' = true.
Proof.
  intros HP H. cbn [Value_serialize]. fold (Table_serialize t).
  rewrite SerFacts.table_text. cbn [same_content].
  destruct (is_array t) eqn:Ha.
  - apply andb_true_iff in H. destruct H as [Hlen Hrt]. apply Z.leb_le in Hlen.
    rewrite bracket_deserialize by reflexivity.
    unfold bind at 1. rewrite Table_deserialize_with_array.
    unfold bind at 1.
    rewrite fold_all_segments_array by now apply element_texts_chunk.
    destruct (RoundTrip.fold_array (data t) HP Hrt [] n) as (vs & n' & Hf & H2).
    rewrite Hf. cbn [app ret Value_of_table].
    exists (VTable n' (Table_of_vector vs)), (N.succ n'). split; [reflexivity|].
    pose proof (Forall2_length_values _ _ _ H2) as Hl.
    cbn [is_array Table_of_vector Bool.eqb negb andb].
    change (fill_from 0 vs []) with (data (Table_of_vector vs)).
    rewrite Table_of_vector_data by lia.
    apply RoundTrip.all2_values; [apply array_keys_length|exact H2].
  - apply andb_true_iff in H. destruct H as [Hrt Hasc].
    rewrite bracket_deserialize by reflexivity.
    unfold bind at 1. rewrite Table_deserialize_with_object.
    unfold bind at 1.
    rewrite fold_all_segments_object by now apply pair_texts_chunk.
    destruct (RoundTrip.fold_object (data t) HP Hrt Hasc [] n) as (ps & n' & Hf & H2).
    { intros kv kv' []. }
    rewrite Hf. cbn [app ret Value_of_table].
    exists (VTable n' (Table_of_map ps)), (N.succ n'). split; [reflexivity|].
    cbn [is_array Table_of_map Bool.eqb negb andb data].
    now apply RoundTrip.all2_entries.
Qed.

Lemma reads_back_all (v : Value) : reads_back v.
Proof.
  induction v as [i|f|b|s|p t IH] using Value_nested_ind; intros pl H n.
  - destruct (ScalarFacts.scalar_deserialize (VInt i) pl n eq_refl H) as [Hd Hs].
    exists (reread (VInt i)), n. auto.
  - destruct (ScalarFacts.scalar_deserialize (VFloat f) pl n eq_refl H) as [Hd Hs].
    exists (reread (VFloat f)), n. auto.
  - destruct (ScalarFacts.scalar_deserialize (VBool b) pl n eq_refl H) as [Hd Hs].
    exists (reread (VBool b)), n. auto.
  - destruct (ScalarFacts.scalar_deserialize (VString s) pl n eq_refl H) as [Hd Hs].
    exists (reread (VString s)), n. auto.
  - assert (Ht : exists v' n',
               Value_deserialize (Value_serialize (VTable p t)) n = Ok (v', n') /\
               same_content (VTable p t) v' = true).
    { apply table_reads_back; [exact IH|].
      cbn [roundtrippable] in H. destruct pl; [exact H|exact H|discriminate]. }
    destruct Ht as (v' & n' & Hd & Hs). exists v', n'.
    split; [exact Hd|]. split; [exact Hs|]. discriminate.
Qed.

(** C1, as the code has it: a value round-trips when, besides what the
    claim asks (no double quote in a string, no table as a key), no
    string inside a table contains a comma, a bracket or a brace, no
    string key contains [=], every float is finite, two float keys of
    one map differ in tenths, and an array has at most [2^31] elements:
    then [Value::deserialize] returns, on what [Value::serialize] wrote,
    a value of the same alternative and content, floats being compared
    by their text with one decimal. *)
Theorem C1_round_trip (v : Value) :
  in_claim_scope v = true -> roundtrippable Top v = true -> round_trips v.
Proof.
  intros _ H n.
  destruct (reads_back_all v Top H n) as (v' & n' & Hd & Hs & _).
  now exists v', n'.
Qed.

Lemma C1_round_trip_witness :
  in_claim_scope sample = true /\ roundtrippable Top sample = true /\
  round_trips sample.
Proof.
  split; [vm_compute; reflexivity|]. split; [vm_compute; reflexivity|].
  apply C1_round_trip; vm_compute; reflexivity.
Defined.

Example sample_text :
  Value_serialize sample
  = "[{2=" ++ quoted "=" ++ ",0.1=[-1,false]," ++ quoted "height" ++ "=50,"
    ++ quoted "name" ++ "=" ++ quoted "this person" ++ "," ++ quoted "y"
    ++ "=0.1},-42.5,true," ++ quoted " x y " ++ "]".
Proof. vm_compute. reflexivity. Qed.

(** ** The assertions of [test.cpp] *)

Example test_simple_array :
  Table_serialize (Table_of_vector [VInt 1; VInt 2; VInt 3]) = "[1,2,3]" /\
  Table_deserialize "[1,2,3]" 0%N
  = Ok (Table_of_vector [VInt 1; VInt 2; VInt 3], 0%N).
Proof. split; reflexivity. Qed.

Example test_empty_structures :
  Table_serialize (Table_of_vector []) = "[]" /\
  Table_serialize Table_empty = "{}" /\
  Table_deserialize "[]" 0%N = Ok (Table_of_vector [], 0%N) /\
  Table_deserialize "{}" 0%N = Ok (Table_empty, 0%N) /\
  get_is_array (Table_of_vector []) = true /\
  get_is_array Table_empty = false.
Proof. repeat split; reflexivity. Qed.

Example test_value_parsing :
  Value_deserialize "42" 0%N = Ok (VInt 42, 0%N) /\
  Value_deserialize "42.0" 0%N = Ok (VFloat (float_of_text "42"), 0%N) /\
  Value_deserialize "-42" 0%N = Ok (VInt (-42), 0%N) /\
  Value_deserialize "-42.5" 0%N = Ok (VFloat minus_42_5, 0%N) /\
  Value_deserialize "true" 0%N = Ok (VBool true, 0%N) /\
  Value_deserialize "false" 0%N = Ok (VBool false, 0%N) /\
  Value_deserialize (quoted "hello") 0%N = Ok (VString "hello", 0%N).
Proof. repeat split; vm_compute; reflexivity. Qed.

Example test_array_of_objects :
  Table_serialize rectangles = rectangles_text /\
  exists r1 r2,
    option_map (fun r => get_data (fst r)) 
      (match Table_deserialize rectangles_text 0%N with
       | Ok r => Some r
       | _ => None
       end) = Some (inr [r1; r2]) /\
    field r1 (VString "x") = Some (VInt 10) /\
    field r1 (VString "height") = Some (VInt 50) /\
    field r2 (VString "y") = Some (VInt 40) /\
    field r2 (VString "width") = Some (VInt 200).
Proof.
  split; [vm_compute; reflexivity|].
  eexists. eexists. split; [vm_compute; reflexivity|].
  repeat split; reflexivity.
Qed.

Example test_trailing_commas :
  option_map (fun r => get_data (fst r))
    (match Table_deserialize "[1, 2, 3,]" 0%N with
     | Ok r => Some r
     | _ => None
     end) = Some (inr [VInt 1; VInt 2; VInt 3]) /\
  Table_deserialize ("{" ++ quoted "x" ++ "=10," ++ quoted "y" ++ "=20,}") 0%N
  = Ok (Table_of_map [(VString "x", VInt 10); (VString "y", VInt 20)], 0%N).
Proof. split; vm_compute; reflexivity. Qed.

(** ** Why the round trip needs its conditions

    An infinite float comes back as a string; two float keys with the
    same tenth come back as one key; a key string with [=] is cut at
    it; a string with a bracket in a table of two elements swallows the
    comma. *)
Example round_trip_limits :
  Value_deserialize (Value_serialize (VFloat (Float32.Finf false))) 0%N
  = Ok (VString "inf", 0%N) /\
  Table_deserialize
    (Table_serialize
       (assign_all [(VFloat (float_of_text "0.11"), VInt 1);
                    (VFloat (float_of_text "0.12"), VInt 2)] Table_empty)) 0%N
  = Ok (Table_of_map [(VFloat tenth, VInt 2)], 0%N) /\
  Table_deserialize
    (Table_serialize (assign_all [(VString "a=b", VInt 1)] Table_empty)) 0%N
  = Ok (Table_of_map [(VString (String dquote "a"), VString ("b" ++ String dquote "=1"))], 0%N) /\
  Table_deserialize
    (Table_serialize (Table_of_vector [VString "a[b"; VString "c"])) 0%N
  = Ok (Table_of_vector [VString ("a[b" ++ quoted "," ++ "c")], 0%N).
Proof. repeat split; vm_compute; reflexivity. Qed.

(** ** The lines of a stream *)

Module LineFacts.

(** [stream_lines] is [std::getline] called until it fails. *)
Lemma stream_lines_getline (ss : string) :
  stream_lines ss =
  match getline ss with
  | None => []
  | Some (line, rest) => line :: stream_lines rest
  end.
Proof.
  induction ss as [|c ss IH]; [reflexivity|].
  cbn [stream_lines getline read_line].
  destruct (Ascii.eqb c newline); [reflexivity|].
  rewrite IH. destruct ss as [|d ss]; [reflexivity|].
  cbn [getline]. now destruct (read_line (String d ss)).
Qed.

Lemma stream_lines_line (l rest : string) :
  one_line l = true ->
  stream_lines (l ++ String newline rest) = l :: stream_lines rest.
Proof.
  unfold one_line. induction l as [|c l IH]; intros H.
  - reflexivity.
  - cbn [Str.mem] in H. apply negb_true_iff, orb_false_iff in H.
    destruct H as [Hc Hl]. rewrite Ascii.eqb_sym in Hc.
    cbn [append stream_lines]. rewrite Hc, IH; [reflexivity|].
    now rewrite Hl.
Qed.

Lemma stream_lines_unlines (ls : list string) :
  Forall (fun l => one_line l = true) ls -> stream_lines (unlines ls) = ls.
Proof.
  induction 1 as [|l ls Hl _ IH]; [reflexivity|].
  cbn [unlines]. now rewrite stream_lines_line, IH.
Qed.

End LineFacts.

(** ** Leading blanks, trailing blanks and comments of a line *)

Module CommentFacts.

Lemma lstrip_blank (d : ascii) (s : string) :
  Str.mem d Str.blanks = true -> lstrip (String d s) = lstrip s.
Proof.
  intros H. unfold lstrip. cbn [Str.find_first_not_of]. rewrite H.
  now destruct (Str.find_first_not_of Str.blanks s).
Qed.

Lemma lstrip_front (d : ascii) (s : string) :
  Str.mem d Str.blanks = false -> lstrip (String d s) = String d s.
Proof. intros H. unfold lstrip. cbn [Str.find_first_not_of]. now rewrite H. Qed.

Lemma lstrip_cases (s : string) :
  lstrip s = EmptyString \/
  exists c r, lstrip s = String c r /\ Str.mem c Str.blanks = false.
Proof.
  induction s as [|d s IH]; [now left|].
  destruct (Str.mem d Str.blanks) eqn:E.
  - now rewrite lstrip_blank.
  - right. exists d, s. now rewrite lstrip_front.
Qed.

Lemma lstrip_app (l rest : string) :
  lstrip l <> EmptyString -> lstrip (l ++ rest) = lstrip l ++ rest.
Proof.
  induction l as [|d l IH]; intros H; [now elim H|].
  cbn [append]. destruct (Str.mem d Str.blanks) eqn:E.
  - rewrite !lstrip_blank in * by exact E. now apply IH.
  - now rewrite !lstrip_front.
Qed.

Lemma lstrip_pad (pad s : string) :
  blank_text pad = true ->
  lstrip (pad ++ s) = lstrip s.
Proof.
  induction pad as [|d pad IH]; intros H; [reflexivity|].
  unfold blank_text in *. cbn [all_chars] in H. apply andb_true_iff in H. destruct H as [Hd Hp].
  cbn [append]. rewrite lstrip_blank by exact Hd. now apply IH.
Qed.

(** The strip keeps the end of a line that ends with no blank. *)
Lemma lstrip_back (l : string) (d : ascii) :
  Str.back l = Some d -> Str.mem d Str.blanks = false ->
  exists c r, lstrip l = String c r /\ Str.mem c Str.blanks = false /\
              Str.back (lstrip l) = Some d.
Proof.
  induction l as [|x l IH]; intros Hb Hd; [discriminate|].
  destruct (Str.mem x Str.blanks) eqn:E.
  - rewrite lstrip_blank by exact E. apply IH; [|exact Hd].
    destruct l as [|y l]; [|exact Hb].
    simpl in Hb. injection Hb as ->. congruence.
  - rewrite lstrip_front by exact E. now exists x, l.
Qed.

Lemma find_last_not_of_pad (x pad : string) :
  blank_text pad = true ->
  Str.find_last_not_of Str.blanks (x ++ pad)
  = Str.find_last_not_of Str.blanks x.
Proof.
  intros H. induction x as [|d x IH].
  - cbn [append]. induction pad as [|e pad IHp]; [reflexivity|].
    unfold blank_text in *. cbn [all_chars] in H. apply andb_true_iff in H. destruct H as [He Hp].
    cbn [Str.find_last_not_of]. now rewrite (IHp Hp), He.
  - cbn [append Str.find_last_not_of]. now rewrite IH.
Qed.

Lemma rstrip_pad (x pad : string) (d : ascii) :
  Str.back x = Some d -> Str.mem d Str.blanks = false ->
  blank_text pad = true ->
  rstrip (x ++ pad) = x.
Proof.
  intros Hb Hd Hp. unfold rstrip. rewrite find_last_not_of_pad by exact Hp.
  rewrite (TrimFacts.find_last_not_of_back x d Hb Hd).
  destruct x as [|c x]; [discriminate|].
  replace (String.length (String c x) - 1)%nat with (String.length x)
    by (simpl; lia).
  unfold Str.erase_after.
  change (S (String.length x)) with (String.length (String c x)).
  apply StrFacts.prefix_app.
Qed.

(** What the trailing strip keeps is a prefix, not empty when the line
    starts with no blank. *)
Lemma rstrip_take (s : string) :
  exists k, rstrip s = Str.prefix k s /\
            (forall c r, s = String c r -> Str.mem c Str.blanks = false ->
                         (1 <= k)%nat).
Proof.
  unfold rstrip. destruct (Str.find_last_not_of Str.blanks s) as [i|] eqn:E.
  - exists (S i). split; [reflexivity|]. intros; lia.
  - exists 0%nat. split; [now destruct s|].
    intros c r -> Hc. cbn [Str.find_last_not_of] in E. rewrite Hc in E.
    now destruct (Str.find_last_not_of Str.blanks r).
Qed.

Lemma prefix_slashes (x : string) :
  String.prefix "//" x = true <-> exists r, x = String "/" (String "/" r).
Proof.
  destruct x as [|a [|b r]]; cbn [String.prefix].
  - split; [discriminate|]. now intros [r H].
  - split; [|now intros [r H]]. now destruct (ascii_dec "/" a).
  - destruct (ascii_dec "/" a) as [<-|Ha].
    + destruct (ascii_dec "/" b) as [<-|Hb].
      * split; [now exists r|now destruct r].
      * split; [discriminate|]. intros [r' H]. congruence.
    + split; [discriminate|]. intros [r' H]. congruence.
Qed.

Lemma substr2_slashes (x : string) :
  String.eqb (Str.substr 0 2 x) "//" = String.prefix "//" x.
Proof.
  destruct (String.prefix "//" x) eqn:E.
  - apply prefix_slashes in E. destruct E as [r ->]. reflexivity.
  - apply String.eqb_neq. intros H. 
    assert (Hp : String.prefix "//" x = true); [|congruence].
    apply prefix_slashes.
    destruct x as [|a [|b r]]; try discriminate.
    unfold Str.substr in H. cbn in H. injection H as -> ->. now exists r.
Qed.

Lemma prefix_slashes_take (k : nat) (s : string) :
  String.prefix "//" (Str.prefix k s) = true -> String.prefix "//" s = true.
Proof.
  intros H. apply prefix_slashes in H. destruct H as [r H].
  apply prefix_slashes.
  destruct k as [|[|k]], s as [|a [|b s]]; try discriminate.
  cbn [Str.prefix] in H. injection H as -> -> _. now eexists.
Qed.

Lemma find_str_zero (s : string) :
  Str.find_str "//" s = Some 0%nat <-> String.prefix "//" s = true.
Proof.
  destruct s as [|c s]; cbn [Str.find_str].
  - cbn. split; discriminate.
  - destruct (String.prefix "//" (String c s)); [easy|].
    destruct (Str.find_str "//" s); split; discriminate.
Qed.

Lemma find_str_cons (c : ascii) (s : string) :
  String.prefix "//" (String c s) = false ->
  Str.find_str "//" (String c s)
  = match Str.find_str "//" s with Some i => Some (S i) | None => None end.
Proof. intros H. cbn [Str.find_str]. now rewrite H. Qed.

Lemma find_str_none (s : string) :
  Str.find_str "//" s = None -> String.prefix "//" s = false.
Proof.
  intros H. destruct (String.prefix "//" s) eqn:E; [|reflexivity].
  apply find_str_zero in E. congruence.
Qed.

Lemma find_str_none_tail (c : ascii) (s : string) :
  Str.find_str "//" (String c s) = None -> Str.find_str "//" s = None.
Proof.
  intros H. pose proof (find_str_none _ H) as Hp.
  rewrite (find_str_cons c s Hp) in H.
  now destruct (Str.find_str "//" s).
Qed.

Lemma slash_not_blank (c : ascii) :
  Str.mem c Str.blanks = true -> c <> "/"%char.
Proof. intros H ->. discriminate. Qed.

Lemma no_slashes_cons (c : ascii) (s : string) :
  c <> "/"%char -> String.prefix "//" (String c s) = false.
Proof.
  intros Hc. destruct (String.prefix "//" (String c s)) eqn:E; [|reflexivity].
  apply prefix_slashes in E. destruct E as [r E]. congruence.
Qed.

Lemma blank_no_comment (b : string) :
  blank_text b = true -> Str.find_str "//" b = None.
Proof.
  unfold blank_text. induction b as [|c b IH]; intros H; [reflexivity|].
  cbn [all_chars] in H. apply andb_true_iff in H. destruct H as [Hc Hb].
  rewrite find_str_cons by now apply no_slashes_cons, slash_not_blank.
  now rewrite IH.
Qed.

(** Two texts without [//], joined by a character that is no [/]. *)
Lemma no_comment_app_char (a : string) (c : ascii) (b : string) :
  Str.find_str "//" a = None -> c <> "/"%char ->
  Str.find_str "//" b = None ->
  Str.find_str "//" (a ++ String c b) = None.
Proof.
  induction a as [|x a IH]; intros Ha Hc Hb.
  - cbn [append]. rewrite find_str_cons by now apply no_slashes_cons.
    now rewrite Hb.
  - cbn [append]. pose proof (find_str_none _ Ha) as Hp.
    rewrite find_str_cons.
    + rewrite IH; auto. now apply find_str_none_tail in Ha.
    + destruct (String.prefix "//" (String x (a ++ String c b))) eqn:E;
        [|reflexivity].
      apply prefix_slashes in E. destruct E as [r E].
      injection E as -> E. destruct a as [|y a]; cbn [append] in E.
      * congruence.
      * injection E as -> _. 
        assert (Ht : String.prefix "//" (String "/" (String "/" a)) = true)
          by (apply prefix_slashes; now eexists).
        congruence.
Qed.

Lemma no_comment_app_blank (a pad : string) :
  Str.find_str "//" a = None -> blank_text pad = true ->
  Str.find_str "//" (a ++ pad) = None.
Proof.
  intros Ha Hp. destruct pad as [|c pad].
  - now rewrite StrFacts.append_nil_r.
  - unfold blank_text in Hp. cbn [all_chars] in Hp.
    apply andb_true_iff in Hp. destruct Hp as [Hc Hp].
    apply no_comment_app_char; [exact Ha|now apply slash_not_blank|].
    now apply blank_no_comment.
Qed.

(** The comment that follows a text without [//] and without [/] at
    its end starts where the text ends. *)
Lemma find_str_comment (a c : string) :
  Str.find_str "//" a = None -> Str.back a <> Some "/"%char ->
  Str.find_str "//" (a ++ "//" ++ c) = Some (String.length a).
Proof.
  induction a as [|x a IH]; intros Ha Hb.
  - apply find_str_zero, prefix_slashes. now exists c.
  - change (String x a ++ "//" ++ c) with (String x (a ++ "//" ++ c)).
    change (String.length (String x a)) with (S (String.length a)).
    rewrite find_str_cons.
    + rewrite IH; [reflexivity|now apply find_str_none_tail in Ha|].
      destruct a as [|y a]; [discriminate|exact Hb].
    + destruct (String.prefix "//" (String x (a ++ "//" ++ c))) eqn:E;
        [|reflexivity].
      apply prefix_slashes in E. destruct E as [r E].
      injection E as -> E. destruct a as [|y a]; cbn [append] in E.
      * now elim Hb.
      * injection E as -> _. apply find_str_none in Ha.
        assert (Ht : String.prefix "//" (String "/" (String "/" a)) = true)
          by (apply prefix_slashes; now eexists).
        congruence.
Qed.

Lemma event_line_eq (l : string) :
  event_line l = rstrip (cut_comment (lstrip l)).
Proof. reflexivity. Qed.

Lemma field_line_eq (l : string) :
  field_line l
  = match Str.find_str "//" (lstrip l) with
    | Some p => rstrip (Str.prefix p (lstrip l))
    | None => lstrip l
    end.
Proof. reflexivity. Qed.

Lemma skipped_take (c : ascii) (r : string) (k : nat) :
  Str.mem c Str.blanks = false ->
  String.prefix "//" (String c r) = false -> (1 <= k)%nat ->
  skipped (Str.prefix k (String c r)) = Ascii.eqb c "#".
Proof.
  intros Hc Hp Hk. destruct k as [|k]; [lia|].
  unfold skipped. rewrite substr2_slashes.
  destruct (String.prefix "//" (Str.prefix (S k) (String c r))) eqn:E.
  - apply prefix_slashes_take in E. congruence.
  - reflexivity.
Qed.

Lemma skipped_rstrip_take (c : ascii) (r : string) (k : nat) :
  Str.mem c Str.blanks = false ->
  String.prefix "//" (String c r) = false -> (1 <= k)%nat ->
  skipped (rstrip (Str.prefix k (String c r))) = Ascii.eqb c "#".
Proof.
  intros Hc Hp Hk. destruct k as [|k]; [lia|].
  cbn [Str.prefix].
  destruct (rstrip_take (String c (Str.prefix k r))) as (j & -> & Hj).
  apply skipped_take; [exact Hc| |now apply (Hj c (Str.prefix k r))].
  destruct (String.prefix "//" (String c (Str.prefix k r))) eqn:E;
    [|reflexivity].
  apply (prefix_slashes_take (S k) (String c r)) in E. congruence.
Qed.

Lemma prefix_whole (s : string) : Str.prefix (String.length s) s = s.
Proof. apply StrFacts.prefix_all. Qed.

(** The first loop skips exactly the lines that are blank, that start
    with [#] or that start with a comment. *)
Lemma skipped_event_line (l : string) : skipped (event_line l) = ignorable l.
Proof.
  rewrite event_line_eq. unfold ignorable, cut_comment. fold (lstrip l).
  destruct (lstrip_cases l) as [->|(c & r & -> & Hc)]; [reflexivity|].
  change (Str.empty (String c r)) with false.
  change (Str.starts_with "#" (String c r)) with (Ascii.eqb c "#").
  cbn [orb].
  destruct (Str.find_str "//" (String c r)) as [[|p]|] eqn:E.
  - apply find_str_zero in E. rewrite E, orb_true_r. reflexivity.
  - assert (Hp : String.prefix "//" (String c r) = false).
    { destruct (String.prefix "//" (String c r)) eqn:E'; [|reflexivity].
      apply find_str_zero in E'. congruence. }
    rewrite Hp, orb_false_r.
    apply (skipped_rstrip_take c r (S p)); auto. lia.
  - pose proof (find_str_none _ E) as Hp. rewrite Hp, orb_false_r.
    rewrite <- (prefix_whole (String c r)) at 1.
    apply skipped_rstrip_take; auto. simpl. lia.
Qed.

(** So does the second loop. *)
Lemma skipped_field_line (l : string) : skipped (field_line l) = ignorable l.
Proof.
  rewrite field_line_eq. unfold ignorable. fold (lstrip l).
  destruct (lstrip_cases l) as [->|(c & r & -> & Hc)]; [reflexivity|].
  change (Str.empty (String c r)) with false.
  change (Str.starts_with "#" (String c r)) with (Ascii.eqb c "#").
  cbn [orb].
  destruct (Str.find_str "//" (String c r)) as [[|p]|] eqn:E.
  - apply find_str_zero in E. rewrite E, orb_true_r. reflexivity.
  - assert (Hp : String.prefix "//" (String c r) = false).
    { destruct (String.prefix "//" (String c r)) eqn:E'; [|reflexivity].
      apply find_str_zero in E'. congruence. }
    rewrite Hp, orb_false_r.
    apply (skipped_rstrip_take c r (S p)); auto. lia.
  - pose proof (find_str_none _ E) as Hp. rewrite Hp, orb_false_r.
    rewrite <- (prefix_whole (String c r)) at 1.
    apply skipped_take; auto. simpl. lia.
Qed.

End CommentFacts.

(** ** The two loops of [deserialize_from_netvent] *)

Module LoopFacts.

Lemma read_lines_cons (l : string) (ls : list string) (n : addr) :
  read_lines (l :: ls) n
  = if ignorable l then read_lines ls n
    else (event_name <- Value_deserialize (event_line l) ;;
          result <- read_fields ls [] ;; ret (event_name, result)) n.
Proof.
  unfold read_lines at 1. cbn [read_event].
  rewrite CommentFacts.skipped_event_line.
  destruct (ignorable l); [reflexivity|].
  unfold bind.
  destruct (Value_deserialize (event_line l) n) as [[v n']| |]; reflexivity.
Qed.

Lemma read_field_ignorable (l : string) (result : Fields) (n : addr) :
  ignorable l = true -> read_field l result n = Ok (result, n).
Proof.
  unfold read_field. rewrite CommentFacts.skipped_field_line.
  now intros ->.
Qed.

Lemma read_fields_filter (ls : list string) :
  forall result n,
    read_fields ls result n
    = read_fields (filter (fun l => negb (ignorable l)) ls) result n.
Proof.
  induction ls as [|l ls IH]; intros result n; [reflexivity|].
  cbn [read_fields filter]. destruct (ignorable l) eqn:E; cbn [negb].
  - unfold bind. rewrite read_field_ignorable by exact E. apply IH.
  - cbn [read_fields]. unfold bind.
    destruct (read_field l result n) as [[r n']| |]; auto.
Qed.

Lemma read_lines_filter (ls : list string) (n : addr) :
  read_lines ls n = read_lines (filter (fun l => negb (ignorable l)) ls) n.
Proof.
  induction ls as [|l ls IH]; [reflexivity|].
  cbn [filter]. rewrite read_lines_cons.
  destruct (ignorable l) eqn:E; cbn [negb]; [exact IH|].
  rewrite read_lines_cons, E. unfold bind.
  destruct (Value_deserialize (event_line l) n) as [[v n']| |]; auto.
  now rewrite read_fields_filter.
Qed.

Lemma read_lines_ignorable (ls : list string) (n : addr) :
  forallb ignorable ls = true -> read_lines ls n = Ok (Value_default, [], n).
Proof.
  induction ls as [|l ls IH]; intros H; [reflexivity|].
  cbn [forallb] in H. apply andb_true_iff in H. destruct H as [Hl Hls].
  rewrite read_lines_cons, Hl. now apply IH.
Qed.

Lemma one_line_app (a b : string) :
  one_line (a ++ b) = one_line a && one_line b.
Proof.
  unfold one_line. rewrite IntFacts.mem_app. now rewrite negb_orb.
Qed.

Lemma filter_one_line (f : string -> bool) (ls : list string) :
  Forall (fun l => one_line l = true) ls ->
  Forall (fun l => one_line l = true) (filter f ls).
Proof.
  induction 1 as [|l ls Hl _ IH]; [constructor|].
  cbn [filter]. destruct (f l); [now constructor|exact IH].
Qed.

End LoopFacts.

(** X2: blank lines, lines whose first character after the leading
    blanks is [#], and lines that start there with [//] are ignored
    wherever they stand, before the event name as well as among the
    fields: [deserialize_from_netvent] returns (or throws) the same
    with and without them.  An input with no other line gives the
    default [Value()], the integer [0], as event name and no field. *)
Theorem ignorable_lines_are_skipped (ls : list string) (n : addr) :
  Forall (fun l => one_line l = true) ls ->
  deserialize_from_netvent (unlines ls) n
  = deserialize_from_netvent
      (unlines (filter (fun l => negb (ignorable l)) ls)) n /\
  (forallb ignorable ls = true ->
   deserialize_from_netvent (unlines ls) n = Ok (VInt 0, [], n)).
Proof.
  intros H. unfold deserialize_from_netvent.
  rewrite !LineFacts.stream_lines_unlines
    by (try apply LoopFacts.filter_one_line; exact H).
  split; [apply LoopFacts.read_lines_filter|apply LoopFacts.read_lines_ignorable].
Qed.

Lemma ignorable_lines_are_skipped_witness :
  Forall (fun l => one_line l = true)
         ["  // a comment"; quoted "shoot"; "# note"; "x 1"; "  "] /\
  deserialize_from_netvent
    (unlines ["  // a comment"; quoted "shoot"; "# note"; "x 1"; "  "]) 0%N
  = deserialize_from_netvent (unlines [quoted "shoot"; "x 1"]) 0%N.
Proof.
  split; [repeat constructor|].
  apply (ignorable_lines_are_skipped
           ["  // a comment"; quoted "shoot"; "# note"; "x 1"; "  "] 0%N).
  repeat constructor.
Defined.

(** ** A comment at the end of a line *)

Module CutFacts.

Lemma lstrip_no_comment (l : string) :
  Str.find_str "//" l = None -> Str.find_str "//" (lstrip l) = None.
Proof.
  induction l as [|x l IH]; intros H; [reflexivity|].
  destruct (Str.mem x Str.blanks) eqn:E.
  - rewrite CommentFacts.lstrip_blank by exact E.
    apply IH. now apply CommentFacts.find_str_none_tail in H.
  - now rewrite CommentFacts.lstrip_front.
Qed.

Lemma back_pad (s pad : string) (d : ascii) :
  Str.back s = Some d -> d <> "/"%char -> blank_text pad = true ->
  Str.back (s ++ pad) <> Some "/"%char.
Proof.
  intros Hb Hd Hp. destruct pad as [|e pad].
  - rewrite StrFacts.append_nil_r. congruence.
  - rewrite EndsFacts.back_app by discriminate.
    intros H. apply TextFacts.back_mem in H.
    unfold blank_text in Hp. apply TextFacts.all_chars_spec in Hp.
    specialize (Hp _ H). discriminate.
Qed.

(** What is left of a line with a comment, after the leading blanks,
    the comment and the trailing blanks are removed, is what is left of
    the line alone after its leading blanks are. *)
Lemma commented_cut (l pad c : string) :
  plain_line l = true -> blank_text pad = true ->
  Str.find_str "//" (lstrip l) = None /\
  rstrip (lstrip l) = lstrip l /\
  exists p,
    Str.find_str "//" (lstrip (l ++ pad ++ "//" ++ c)) = Some p /\
    rstrip (Str.prefix p (lstrip (l ++ pad ++ "//" ++ c))) = lstrip l.
Proof.
  unfold plain_line. intros H Hp.
  apply andb_true_iff in H. destruct H as [H Hb].
  apply andb_true_iff in H. destruct H as [_ Hn].
  unfold no_comment in Hn.
  destruct (Str.find_str "//" l) eqn:En; [discriminate|]. clear Hn.
  split; [now apply lstrip_no_comment|].
  destruct (Str.back l) as [d|] eqn:Eb.
  - apply andb_true_iff in Hb. destruct Hb as [Hd Hs].
    apply negb_true_iff in Hd. apply negb_true_iff, Ascii.eqb_neq in Hs.
    destruct (CommentFacts.lstrip_back l d Eb Hd) as (c0 & r & Hl & Hc0 & Hbl).
    split; [unfold rstrip; now apply (TrimFacts.erase_after_id _ d)|].
    exists (String.length (lstrip l ++ pad)).
    rewrite CommentFacts.lstrip_app by (rewrite Hl; discriminate).
    rewrite <- StrFacts.append_assoc.
    rewrite CommentFacts.find_str_comment.
    + split; [reflexivity|].
      rewrite StrFacts.prefix_app. now apply (CommentFacts.rstrip_pad _ _ d).
    + apply CommentFacts.no_comment_app_blank; [|exact Hp].
      now apply lstrip_no_comment.
    + now apply (back_pad _ _ d).
  - destruct l as [|x l]; [|destruct (TextFacts.back_some (String x l)); congruence].
    split; [reflexivity|]. exists 0%nat.
    cbn [append]. rewrite CommentFacts.lstrip_pad by exact Hp.
    rewrite CommentFacts.lstrip_front by reflexivity.
    split; [|reflexivity].
    apply CommentFacts.find_str_zero, CommentFacts.prefix_slashes.
    now eexists.
Qed.

Lemma event_line_commented (l pad c : string) :
  plain_line l = true -> blank_text pad = true ->
  event_line (l ++ pad ++ "//" ++ c) = event_line l.
Proof.
  intros Hl Hp.
  destruct (commented_cut l pad c Hl Hp) as (Hn & Hr & p & Hf & Hc).
  rewrite !CommentFacts.event_line_eq. unfold cut_comment.
  rewrite Hf, Hn. now rewrite Hr.
Qed.

Lemma field_line_commented (l pad c : string) :
  plain_line l = true -> blank_text pad = true ->
  field_line (l ++ pad ++ "//" ++ c) = field_line l.
Proof.
  intros Hl Hp.
  destruct (commented_cut l pad c Hl Hp) as (Hn & Hr & p & Hf & Hc).
  rewrite !CommentFacts.field_line_eq.
  now rewrite Hf, Hn.
Qed.

Lemma blank_one_line (pad : string) : blank_text pad = true -> one_line pad = true.
Proof.
  unfold blank_text, one_line. induction pad as [|e pad IH]; [reflexivity|].
  cbn [all_chars Str.mem]. intros H. apply andb_true_iff in H.
  destruct H as [He Hp]. specialize (IH Hp). apply negb_true_iff in IH.
  rewrite IH, orb_false_r. apply negb_true_iff, Ascii.eqb_neq.
  intros <-. discriminate.
Qed.

Lemma read_fields_commented (lcs : list (string * string * string)) :
  Forall can_comment lcs ->
  forall result n,
    read_fields (map commented lcs) result n
    = read_fields (map (fun x => fst (fst x)) lcs) result n.
Proof.
  induction 1 as [|[[l pad] c] lcs (Hl & Hp & _) _ IH]; intros result n;
    [reflexivity|].
  cbn [map read_fields commented fst snd] in *. unfold bind.
  assert (E : read_field (l ++ pad ++ "//" ++ c) result n
              = read_field l result n)
    by (unfold read_field; now rewrite field_line_commented).
  rewrite E.
  destruct (read_field l result n) as [[r n']| |]; auto.
Qed.

Lemma read_lines_commented (lcs : list (string * string * string)) (n : addr) :
  Forall can_comment lcs ->
  read_lines (map commented lcs) n
  = read_lines (map (fun x => fst (fst x)) lcs) n.
Proof.
  induction 1 as [|[[l pad] c] lcs (Hl & Hp & Hc) Hall IH]; [reflexivity|].
  cbn [map commented fst snd] in *.
  unfold read_lines at 1 2. cbn [read_event].
  rewrite event_line_commented by assumption.
  destruct (skipped (event_line l)); [exact IH|].
  unfold bind, ret.
  destruct (Value_deserialize (event_line l) n) as [[v n']| |]; auto.
  cbn [snd fst]. now rewrite read_fields_commented.
Qed.

Lemma commented_one_line (lcs : list (string * string * string)) :
  Forall can_comment lcs ->
  Forall (fun l => one_line l = true) (map commented lcs) /\
  Forall (fun l => one_line l = true) (map (fun x => fst (fst x)) lcs).
Proof.
  induction 1 as [|[[l pad] c] lcs (Hl & Hp & Hc) _ [IH1 IH2]];
    [split; constructor|].
  cbn [fst snd] in *.
  assert (H1 : one_line l = true).
  { unfold plain_line in Hl. apply andb_true_iff in Hl. destruct Hl as [Hl _].
    apply andb_true_iff in Hl. now destruct Hl. }
  split; cbn [map]; constructor; auto.
  unfold commented. rewrite !LoopFacts.one_line_app, H1, Hc.
  now rewrite blank_one_line.
Qed.

End CutFacts.

(** X3: a [//] comment at the end of a line, with or without blanks
    before it, is cut off before the line is read, on the line of the
    event name as on the lines of the fields: for lines that contain no
    [//] of their own and end with no blank and no [/],
    [deserialize_from_netvent] returns (or throws) the same with the
    comments as without them. *)
Theorem trailing_comments_are_cut (lcs : list (string * string * string))
        (n : addr) :
  Forall can_comment lcs ->
  deserialize_from_netvent (unlines (map commented lcs)) n
  = deserialize_from_netvent (unlines (map (fun x => fst (fst x)) lcs)) n.
Proof.
  intros H. unfold deserialize_from_netvent.
  destruct (CutFacts.commented_one_line lcs H) as [H1 H2].
  rewrite !LineFacts.stream_lines_unlines by assumption.
  now apply CutFacts.read_lines_commented.
Qed.

Lemma trailing_comments_are_cut_witness :
  Forall can_comment
         [(quoted "shoot", " ", " event name"); ("x 0", "", "int");
          ("", "  ", "nothing here")] /\
  deserialize_from_netvent
    (unlines [quoted "shoot" ++ " // event name"; "x 0//int";
              "  //nothing here"]) 0%N
  = deserialize_from_netvent (unlines [quoted "shoot"; "x 0"; ""]) 0%N.
Proof.
  split; [repeat constructor|].
  apply (trailing_comments_are_cut
           [(quoted "shoot", " ", " event name"); ("x 0", "", "int");
            ("", "  ", "nothing here")] 0%N).
  repeat constructor.
Defined.

(** ** What [serialize_to_netvent] writes, read back *)

Module EnvelopeFacts.

(** What is written for a value starts with no blank and no [#]. *)
Lemma serialize_front (v : Value) (pl : place) :
  roundtrippable pl v = true ->
  exists c r, Value_serialize v = String c r /\
              Str.mem c Str.blanks = false /\ Ascii.eqb c "#" = false.
Proof.
  assert (Hnum : forall s, s <> EmptyString -> chars_in number_char s ->
            exists c r, s = String c r /\
                        Str.mem c Str.blanks = false /\ Ascii.eqb c "#" = false).
  { intros [|c r] Hne Hs; [congruence|]. exists c, r.
    apply chars_in_cons in Hs. destruct Hs as [Hc _].
    split; [reflexivity|]. split.
    - apply CharFacts.number_char_not_blank in Hc. now apply negb_true_iff in Hc.
    - destruct (Ascii.eqb_spec c "#"); [subst; discriminate|reflexivity]. }
  destruct v as [i|f|b|s|p t]; cbn [roundtrippable Value_serialize]; intros H.
  - apply Hnum; [apply TextFacts.to_string_not_empty|apply IntText.to_string_chars].
  - destruct (SerFacts.finite_float f H) as (neg & k & -> & _).
    apply Hnum; [apply TextFacts.fixed1_not_empty|apply FloatText.fixed1_chars].
  - destruct b; eexists; eexists; repeat split.
  - eexists; eexists; repeat split.
  - unfold Table_serialize_with. destruct (is_array t);
      eexists; eexists; repeat split.
Qed.

Lemma event_line_text (t : string) :
  ends_ok t -> Str.find_str "//" t = None -> event_line t = t.
Proof.
  intros (c & d & Hf & Hb & Hc & Hd) Hn.
  apply negb_true_iff in Hc. apply negb_true_iff in Hd.
  rewrite CommentFacts.event_line_eq.
  destruct t as [|x t]; [discriminate|]. injection Hf as ->.
  rewrite CommentFacts.lstrip_front by exact Hc.
  unfold cut_comment. rewrite Hn.
  unfold rstrip. now apply (TrimFacts.erase_after_id _ d).
Qed.

Lemma not_skipped (c : ascii) (r : string) :
  Str.find_str "//" (String c r) = None -> Ascii.eqb c "#" = false ->
  skipped (String c r) = false.
Proof.
  intros Hn Hc. unfold skipped.
  rewrite CommentFacts.substr2_slashes, (CommentFacts.find_str_none _ Hn).
  exact Hc.
Qed.

Lemma substr_from_after_space (k t : string) :
  Str.substr_from (String.length k + 1) (k ++ String " " t) = t.
Proof.
  induction k as [|x k IH]; [reflexivity|exact IH].
Qed.

(** A line [key value] as it is written is read as this key and the
    text of this value. *)
Lemma read_field_written (k t : string) (result : Fields) (n : addr) :
  field_name_ok k = true ->
  (exists c r, t = String c r /\ Str.mem c Str.blanks = false) ->
  Str.find_str "//" t = None ->
  read_field (k ++ " " ++ t) result n
  = (v <- Value_deserialize t ;; ret (fields_set k v result)) n.
Proof.
  unfold field_name_ok. intros Hk (c & r & -> & Hc) Ht.
  repeat (apply andb_true_iff in Hk; destruct Hk as [Hk ?]).
  destruct k as [|x k]; [discriminate|].
  match goal with H : all_chars _ _ = true |- _ =>
    apply TextFacts.all_chars_spec in H; rename H into Hchars end.
  assert (Hx : Str.mem x Str.blanks = false).
  { pose proof (proj1 (chars_in_cons _ _ _) Hchars) as [Hx _].
    apply andb_true_iff in Hx. destruct Hx as [Hx _].
    apply negb_true_iff in Hx.
    match goal with H : negb (Str.starts_with "009" _) = true |- _ =>
      apply negb_true_iff in H; unfold Str.starts_with in H;
      cbn [Str.front] in H; rename H into Htab end.
    cbn [Str.mem Str.blanks]. now rewrite Hx, Htab. }
  assert (Hh : Ascii.eqb x "#" = false).
  { match goal with H : negb (Str.starts_with "#" _) = true |- _ =>
      now apply negb_true_iff in H end. }
  assert (Hn : Str.find_str "//" (String x k ++ " " ++ String c r) = None).
  { apply CommentFacts.no_comment_app_char; [|discriminate|exact Ht].
    unfold no_comment in *.
    now destruct (Str.find_str "//" (String x k)). }
  assert (Hsp : Str.find " " (String x k) = None).
  { apply find_none_chars. revert Hchars. apply chars_in_impl.
    intros a Ha. apply andb_true_iff in Ha. now destruct Ha. }
  unfold read_field.
  assert (Hline : field_line (String x k ++ " " ++ String c r)
                  = String x k ++ " " ++ String c r).
  { rewrite CommentFacts.field_line_eq.
    change (String x k ++ " " ++ String c r)
      with (String x (k ++ " " ++ String c r)) in *.
    rewrite CommentFacts.lstrip_front by exact Hx. now rewrite Hn. }
  rewrite Hline.
  change (String x k ++ " " ++ String c r)
    with (String x (k ++ " " ++ String c r)) at 1.
  rewrite not_skipped by assumption.
  change (" " ++ String c r) with (String " " (String c r)).
  rewrite (StrFacts.find_none_app " " (String x k) (String c r) Hsp).
  unfold Str.find_first_not_of_from, Str.substr.
  rewrite StrFacts.substr_from_app.
  cbn [Str.find_first_not_of Str.substr_from].
  change (Str.mem " " Str.blanks) with true. rewrite Hc. cbv iota.
  rewrite StrFacts.prefix_app, substr_from_after_space. reflexivity.
Qed.

Lemma string_ltb_irrefl (s : string) : String.ltb s s = false.
Proof. unfold String.ltb. now rewrite string_compare_refl. Qed.

(** A key above all the keys of the map goes to its end. *)
Lemma fields_set_append (k : string) (v : Value) (m : Fields) :
  Forall (fun kv => String.ltb (fst kv) k = true) m ->
  fields_set k v m = (m ++ [(k, v)])%list.
Proof.
  induction m as [|[k' v'] m IH]; intros H; [reflexivity|].
  inversion H as [|? ? Hk H']; subst. cbn [fst] in Hk.
  cbn [fields_set app].
  assert (Hn : String.ltb k k' = false).
  { destruct (String.ltb k k') eqn:E; [|reflexivity].
    pose proof (OrderFacts.string_ltb_trans k k' k E Hk) as Hkk.
    now rewrite string_ltb_irrefl in Hkk. }
  now rewrite Hn, Hk, (IH H').
Qed.

Lemma line_value_text (v : Value) :
  line_value v = true ->
  roundtrippable Top v = true /\ one_line (Value_serialize v) = true /\
  Str.find_str "//" (Value_serialize v) = None.
Proof.
  unfold line_value, no_comment. intros H.
  apply andb_true_iff in H. destruct H as [H Hc].
  apply andb_true_iff in H. destruct H as [Hr Ho].
  repeat split; auto. now destruct (Str.find_str "//" (Value_serialize v)).
Qed.

Lemma field_name_one_line (k : string) :
  field_name_ok k = true -> one_line k = true.
Proof.
  unfold field_name_ok. intros Hk.
  repeat (apply andb_true_iff in Hk; destruct Hk as [Hk ?]).
  match goal with H : all_chars _ _ = true |- _ => rename H into Hc end.
  clear - Hc. unfold one_line. induction k as [|x k IH]; [reflexivity|].
  cbn [all_chars] in Hc. apply andb_true_iff in Hc. destruct Hc as [Hx Hc].
  apply andb_true_iff in Hx. destruct Hx as [_ Hx].
  apply negb_true_iff in Hx. rewrite Ascii.eqb_sym in Hx.
  cbn [Str.mem]. rewrite Hx. now apply IH.
Qed.

(** The lines of the fields, read into a map whose keys are all below
    theirs, are added to it in order. *)
Lemma read_fields_written (data : Fields) :
  forall acc n,
    names_ascending (List.map fst data) = true ->
    Forall (fun kv => Forall (fun kv' => String.ltb (fst kv) (fst kv') = true)
                             data) acc ->
    forallb (fun kv => field_name_ok (fst kv) && line_value (snd kv)) data
    = true ->
    exists data' n',
      read_fields (stream_lines (field_lines data)) acc n
      = Ok ((acc ++ data')%list, n') /\
      same_fields data data'.
Proof.
  induction data as [|[k v] data IH]; intros acc n Hasc Hacc Hok.
  - exists [], n. rewrite app_nil_r. split; [reflexivity|constructor].
  - cbn [map fst names_ascending] in Hasc.
    apply andb_true_iff in Hasc. destruct Hasc as [Hk Hasc].
    cbn [forallb fst snd] in Hok.
    apply andb_true_iff in Hok. destruct Hok as [Hkv Hok].
    apply andb_true_iff in Hkv. destruct Hkv as [Hname Hval].
    destruct (line_value_text v Hval) as (Hrt & Hone & Hnc).
    cbn [field_lines].
    replace (k ++ " " ++ Value_serialize v
               ++ String newline (field_lines data))
      with ((k ++ " " ++ Value_serialize v)
              ++ String newline (field_lines data))
      by (now rewrite !StrFacts.append_assoc).
    rewrite LineFacts.stream_lines_line.
    2:{ rewrite !LoopFacts.one_line_app, Hone, (field_name_one_line k Hname).
        reflexivity. }
    cbn [read_fields]. unfold bind at 1.
    destruct (serialize_front v Top Hrt) as (c & r & Hser & Hc & _).
    rewrite read_field_written; [|exact Hname|now exists c, r|exact Hnc].
    unfold bind at 1.
    destruct (reads_back_all v Top Hrt n) as (v' & n1 & Hd & Hs & _).
    rewrite Hd. cbn [ret].
    rewrite fields_set_append.
    2:{ revert Hacc. apply Forall_impl. intros kv H.
        now inversion H. }
    destruct (IH (acc ++ [(k, v')])%list n1 Hasc) as (data' & n' & Hr & Hsame).
    + apply Forall_app. split.
      * revert Hacc. apply Forall_impl. intros kv H. now inversion H.
      * constructor; [|constructor]. cbn [fst].
        apply Forall_forall. intros kv' Hin.
        rewrite forallb_forall in Hk. apply Hk.
        now apply in_map.
    + exact Hok.
    + exists ((k, v') :: data'), n'. split.
      * rewrite Hr. now rewrite <- app_assoc.
      * constructor; [now split|exact Hsame].
Qed.

End EnvelopeFacts.

(** X1: what [serialize_to_netvent] writes, [deserialize_from_netvent]
    reads back: the event name and every field come back under the same
    keys with the same content (floats compared by their text with one
    decimal), when the values round-trip through [Value::serialize] and
    [Value::deserialize], no text written for a value contains a line
    feed or [//], and every key is not empty, holds no space, no line
    feed and no [//], and starts with no tab and no [#]. *)
Theorem netvent_round_trip (event_name : Value) (data : Fields) (n : addr) :
  line_value event_name = true ->
  names_ascending (List.map fst data) = true ->
  forallb (fun kv => field_name_ok (fst kv) && line_value (snd kv)) data
  = true ->
  exists event_name' data' n',
    deserialize_from_netvent (serialize_to_netvent event_name data) n
    = Ok (event_name', data', n') /\
    same_content event_name event_name' = true /\
    same_fields data data'.
Proof.
  intros Hev Hasc Hok.
  destruct (EnvelopeFacts.line_value_text _ Hev) as (Hrt & Hone & Hnc).
  unfold deserialize_from_netvent, serialize_to_netvent.
  rewrite LineFacts.stream_lines_line by exact Hone.
  unfold read_lines. cbn [read_event].
  rewrite EnvelopeFacts.event_line_text;
    [|now apply (EndsFacts.serialize_ends _ Top)|exact Hnc].
  destruct (EnvelopeFacts.serialize_front _ Top Hrt) as (c & r & Hser & _ & Hc).
  assert (Hsk : skipped (Value_serialize event_name) = false).
  { rewrite Hser. apply EnvelopeFacts.not_skipped; [|exact Hc].
    now rewrite <- Hser. }
  rewrite Hsk.
  destruct (reads_back_all event_name Top Hrt n) as (v' & n1 & Hd & Hs & _).
  destruct (EnvelopeFacts.read_fields_written data [] n1 Hasc (Forall_nil _) Hok)
    as (data' & n' & Hr & Hsame).
  exists v', data', n'. split; [|now split].
  unfold bind, ret. rewrite Hd. cbn [snd fst]. now rewrite Hr.
Qed.

(** ** Which error is thrown *)

Module ErrorFacts.

Lemma bind_throw {A B} (m : M A) (k : A -> M B) (n : addr) (e : error) :
  bind m k n = Throw e ->
  m n = Throw e \/ exists a n', m n = Ok (a, n') /\ k a n' = Throw e.
Proof.
  unfold bind. destruct (m n) as [[a n']| |]; intros H.
  - right. now exists a, n'.
  - left. now injection H as ->.
  - discriminate.
Qed.

Lemma bind_ret_throw {A B} (m : M A) (f : A -> B) (n : addr) (e : error) :
  bind m (fun a => ret (f a)) n = Throw e -> m n = Throw e.
Proof.
  intros H. apply bind_throw in H. destruct H as [H|(a & n' & _ & H)];
    [exact H|discriminate].
Qed.

Section Nested.

Variable deser : string -> M Value.
Hypothesis deser_error :
  forall s n e, s <> EmptyString -> deser s n = Throw e -> structural e = true.

Lemma array_item_throw (item : string) (vec : list Value) (n : addr) (e : error) :
  array_item deser item vec n = Throw e -> structural e = true.
Proof.
  unfold array_item.
  destruct (negb (Str.empty item)); [|discriminate].
  destruct (negb (Str.empty (Str.trim item))) eqn:E; [|discriminate].
  intros H. apply bind_ret_throw in H.
  apply negb_true_iff, StrFacts.empty_false in E. eauto.
Qed.

Lemma object_item_throw (item : string) (map : Map) (n : addr) (e : error) :
  object_item deser item map n = Throw e -> structural e = true.
Proof.
  unfold object_item.
  destruct (negb (Str.empty item)); [|discriminate].
  destruct (negb (Str.empty (Str.trim item))); [|discriminate].
  destruct (Str.find "=" (Str.trim item)) as [equals|];
    [|now intros [= <-]].
  match goal with |- context [if ?b then _ else _] => destruct b eqn:E end;
    [|discriminate].
  apply andb_true_iff in E. destruct E as [Ek Ev].
  apply negb_true_iff, StrFacts.empty_false in Ek.
  apply negb_true_iff, StrFacts.empty_false in Ev.
  intros H. apply bind_throw in H.
  destruct H as [H|(v & n' & _ & H)]; [eauto|].
  apply bind_ret_throw in H. eauto.
Qed.

Lemma fold_items_throw {A} (item : string -> A -> M A) :
  (forall s acc n e, item s acc n = Throw e -> structural e = true) ->
  forall segs acc n e,
    fold_items item segs acc n = Throw e -> structural e = true.
Proof.
  intros Hi. induction segs as [|s segs IH]; intros acc n e H; [discriminate|].
  cbn [fold_items] in H. apply bind_throw in H.
  destruct H as [H|(a & n' & _ & H)]; eauto.
Qed.

Lemma Table_deserialize_with_throw (data : string) (n : addr) (e : error) :
  Table_deserialize_with deser data n = Throw e ->
  if Str.empty data then e = EmptyData
  else if Str.starts_with "[" data || Str.starts_with "{" data
       then structural e = true
       else e = UnknownType.
Proof.
  intros H. destruct (Str.empty data) eqn:He.
  { unfold Table_deserialize_with in H. rewrite He in H. now injection H. }
  destruct (Str.starts_with "[" data) eqn:Ha; cbn [orb].
  { destruct (Table_deserialize_with_open "[" "]" MalformedArray data)
      as [[content ->]|[_ Ht]]; auto.
    - rewrite Table_deserialize_with_array in H. apply bind_ret_throw in H.
      revert H. apply fold_items_throw. apply array_item_throw.
    - rewrite Ht in H. now injection H as <-. }
  destruct (Str.starts_with "{" data) eqn:Ho.
  { destruct (Table_deserialize_with_open "{" "}" MalformedTable data)
      as [[content ->]|[_ Ht]]; auto.
    - rewrite Table_deserialize_with_object in H. apply bind_ret_throw in H.
      revert H. apply fold_items_throw. apply object_item_throw.
    - rewrite Ht in H. now injection H as <-. }
  unfold Table_deserialize_with in H. rewrite He, Ha, Ho in H.
  now injection H.
Qed.

End Nested.

Lemma Value_deserialize_fuel_throw (fuel : nat) :
  forall data n e,
    Value_deserialize_fuel fuel data n = Throw e ->
    if Str.empty data then e = EmptyData else structural e = true.
Proof.
  induction fuel as [|fuel IH]; intros data n e H; [discriminate|].
  cbn [Value_deserialize_fuel] in H.
  destruct (Str.empty data) eqn:He; [now injection H|].
  destruct (numeric data); [discriminate|].
  destruct (data =? "true")%string; [discriminate|].
  destruct (data =? "false")%string; [discriminate|].
  destruct (is_quoted data); [discriminate|].
  destruct (Str.starts_with "[" data || Str.starts_with "{" data) eqn:Hb;
    [|discriminate].
  apply bind_throw in H. destruct H as [H|(t & n' & _ & H)]; [|discriminate].
  apply Table_deserialize_with_throw in H.
  - now rewrite He, Hb in H.
  - intros s n0 e0 Hs Hd. specialize (IH s n0 e0 Hd).
    apply StrFacts.empty_false in Hs. now rewrite Hs in IH.
Qed.

Lemma Value_deserialize_throw (data : string) (n : addr) (e : error) :
  data <> EmptyString -> Value_deserialize data n = Throw e ->
  structural e = true.
Proof.
  intros Hne H. apply Value_deserialize_fuel_throw in H.
  apply StrFacts.empty_false in Hne. now rewrite Hne in H.
Qed.

End ErrorFacts.

(** X4: which error is thrown.  [Value::deserialize] throws "Empty
    data" on the empty fragment only: inside a table an empty segment,
    key or value is skipped and never parsed.  On any other fragment it
    throws nothing but "Malformed array", "Malformed table" or "Invalid
    table format: missing '='", and never "Unknown type".
    [Table::deserialize] throws "Unknown type" exactly on the fragments
    that are not empty and start with neither [[] nor [{]. *)
Theorem deserialize_error_kinds (data : string) (n : addr) (e : error) :
  (Value_deserialize data n = Throw e ->
   if Str.empty data then e = EmptyData else structural e = true) /\
  (Table_deserialize data n = Throw e ->
   if Str.empty data then e = EmptyData
   else if Str.starts_with "[" data || Str.starts_with "{" data
        then structural e = true
        else e = UnknownType) /\
  (Str.empty data = false ->
   Str.starts_with "[" data || Str.starts_with "{" data = false ->
   Table_deserialize data n = Throw UnknownType).
Proof.
  split; [apply ErrorFacts.Value_deserialize_fuel_throw|]. split.
  - rewrite Table_deserialize_unfold.
    apply ErrorFacts.Table_deserialize_with_throw.
    apply ErrorFacts.Value_deserialize_throw.
  - intros He Hb. apply orb_false_iff in Hb. destruct Hb as [Ha Ho].
    unfold Table_deserialize, Table_deserialize_with.
    now rewrite He, Ha, Ho.
Qed.

Lemma deserialize_error_kinds_witness :
  Value_deserialize "[1,{2}]" 0%N = Throw MissingEquals /\
  structural MissingEquals = true /\
  Table_deserialize "1,2" 0%N = Throw UnknownType.
Proof.
  split; [reflexivity|]. split.
  - apply (proj1 (deserialize_error_kinds "[1,{2}]" 0%N MissingEquals)).
    reflexivity.
  - apply (proj2 (proj2 (deserialize_error_kinds "1,2" 0%N UnknownType)));
      reflexivity.
Defined.

Module EnvelopeErrors.

Lemma substr_from_add (p i : nat) (s : string) :
  Str.substr_from (p + i) s = Str.substr_from i (Str.substr_from p s).
Proof.
  revert s. induction p as [|p IH]; intros s; [reflexivity|].
  destruct s as [|c s]; cbn [Nat.add Str.substr_from]; [|apply IH].
  now destruct i.
Qed.

(** What starts at the position that [find_first_not_of] returns is
    not empty. *)
Lemma find_first_not_of_rest (set s : string) (i : nat) :
  Str.find_first_not_of set s = Some i -> Str.substr_from i s <> EmptyString.
Proof.
  revert i. induction s as [|c s IH]; intros i H; [discriminate|].
  cbn [Str.find_first_not_of] in H. destruct (Str.mem c set).
  - destruct (Str.find_first_not_of set s) as [j|]; [|discriminate].
    injection H as <-. cbn [Str.substr_from]. now apply IH.
  - injection H as <-. discriminate.
Qed.

Lemma skipped_not_empty (line : string) :
  skipped line = false -> line <> EmptyString.
Proof. now destruct line. Qed.

Lemma bind_outcome {A B} (m : M A) (k : A -> M B) (n : addr) :
  (m n <> OutOfFuel /\ forall e, m n = Throw e -> structural e = true) ->
  (forall a n', k a n' <> OutOfFuel /\
                forall e, k a n' = Throw e -> structural e = true) ->
  bind m k n <> OutOfFuel /\
  forall e, bind m k n = Throw e -> structural e = true.
Proof.
  intros [H1 H2] Hk. unfold bind. destruct (m n) as [[a n']| |].
  - apply Hk.
  - split; [discriminate|]. intros e0 He0. apply H2. now injection He0 as ->.
  - now elim H1.
Qed.

Lemma ret_outcome {A} (a : A) (n : addr) :
  ret a n <> OutOfFuel /\ forall e, ret a n = Throw e -> structural e = true.
Proof. split; [discriminate|]. intros e H. discriminate H. Qed.

Lemma Value_deserialize_outcome (text : string) (n : addr) :
  text <> EmptyString ->
  Value_deserialize text n <> OutOfFuel /\
  forall e, Value_deserialize text n = Throw e -> structural e = true.
Proof.
  intros H. split; [apply Value_deserialize_returns|].
  intros e. now apply ErrorFacts.Value_deserialize_throw.
Qed.

Lemma read_event_outcome (lines : list string) (n : addr) :
  read_event lines n <> OutOfFuel /\
  forall e, read_event lines n = Throw e -> structural e = true.
Proof.
  induction lines as [|line rest IH]; [apply ret_outcome|].
  cbn [read_event]. destruct (skipped (event_line line)) eqn:E; [exact IH|].
  apply bind_outcome; [|intros; apply ret_outcome].
  now apply Value_deserialize_outcome, skipped_not_empty.
Qed.

Lemma read_field_outcome (line : string) (result : Fields) (n : addr) :
  read_field line result n <> OutOfFuel /\
  forall e, read_field line result n = Throw e -> structural e = true.
Proof.
  unfold read_field.
  destruct (skipped (field_line line)); [apply ret_outcome|].
  destruct (Str.find " " (field_line line)) as [space_pos|];
    [|apply ret_outcome].
  unfold Str.find_first_not_of_from.
  destruct (Str.find_first_not_of Str.blanks
              (Str.substr_from space_pos (field_line line)))
    as [i|] eqn:E; [|apply ret_outcome].
  apply find_first_not_of_rest in E. rewrite <- substr_from_add in E.
  apply bind_outcome; [|intros; apply ret_outcome].
  now apply Value_deserialize_outcome.
Qed.

Lemma read_fields_outcome (lines : list string) :
  forall result n,
    read_fields lines result n <> OutOfFuel /\
    forall e, read_fields lines result n = Throw e -> structural e = true.
Proof.
  induction lines as [|line rest IH]; intros result n; [apply ret_outcome|].
  cbn [read_fields]. apply bind_outcome; [apply read_field_outcome|].
  intros; apply IH.
Qed.

End EnvelopeErrors.

(** X5: [deserialize_from_netvent] returns or throws on every input,
    and it throws nothing but "Malformed array", "Malformed table" or
    "Invalid table format: missing '='": the only errors come from a
    table, in the event name or in the value of a field, that is not
    closed or has an entry without [=].  It never throws "Empty data":
    empty lines are skipped and the text of a value is never empty. *)
Theorem netvent_errors (data : string) (n : addr) :
  deserialize_from_netvent data n <> OutOfFuel /\
  forall e, deserialize_from_netvent data n = Throw e -> structural e = true.
Proof.
  unfold deserialize_from_netvent, read_lines.
  apply EnvelopeErrors.bind_outcome; [apply EnvelopeErrors.read_event_outcome|].
  intros r n'.
  apply EnvelopeErrors.bind_outcome; [apply EnvelopeErrors.read_fields_outcome|].
  intros; apply EnvelopeErrors.ret_outcome.
Qed.

Lemma netvent_errors_witness :
  deserialize_from_netvent (unlines ["ev"; "x [1,2"]) 0%N = Throw MalformedArray /\
  structural MalformedArray = true.
Proof.
  split; [reflexivity|].
  apply (proj2 (netvent_errors (unlines ["ev"; "x [1,2"]) 0%N)).
  reflexivity.
Defined.

Lemma netvent_round_trip_witness :
  line_value (VString "shoot") = true /\
  names_ascending (List.map fst shoot_fields) = true /\
  forallb (fun kv => field_name_ok (fst kv) && line_value (snd kv)) shoot_fields
  = true /\
  exists event_name' data' n',
    deserialize_from_netvent
      (serialize_to_netvent (VString "shoot") shoot_fields) 0%N
    = Ok (event_name', data', n') /\
    same_content (VString "shoot") event_name' = true /\
    same_fields shoot_fields data'.
Proof.
  split; [vm_compute; reflexivity|]. split; [vm_compute; reflexivity|].
  split; [vm_compute; reflexivity|].
  apply netvent_round_trip; vm_compute; reflexivity.
Defined.

(** [test_netvent_format] of [test.cpp] *)
Example test_netvent_format :
  deserialize_from_netvent shoot_input 0%N
  = Ok (VString "shoot", shoot_fields, 0%N) /\
  serialize_to_netvent (VString "shoot") shoot_fields
  = unlines [quoted "shoot"; "gun_active true";
             "player_name " ++ quoted "this person"; "x 0"; "y 0.1"] /\
  deserialize_from_netvent
    (serialize_to_netvent (VString "shoot") shoot_fields) 0%N
  = Ok (VString "shoot", shoot_fields, 0%N).
Proof. repeat split; vm_compute; reflexivity. Qed.


(** X6: a scalar at top level.  [Value::deserialize] reads what
    [Value::serialize] wrote for an [int], a [bool] or a string as
    exactly this value, whatever characters the string holds (quotes,
    commas and brackets included); for a finite float as a float that
    is written the same; for an infinity or a NaN as the string [inf],
    [-inf], [nan] or [-nan], not as a float.  No table is allocated. *)
Theorem scalars_read_back (v : Value) (n : addr) :
  scalar_in_range v = true ->
  exists v', Value_deserialize (Value_serialize v) n = Ok (v', n) /\
             read_back_scalar v v'.
Proof.
  destruct v as [i|f|b|s|p t]; cbn [scalar_in_range Value_serialize];
    intros H; try discriminate.
  - exists (VInt i). split; [now apply ScalarFacts.int_deserialize|reflexivity].
  - destruct f as [neg|neg|neg k].
    + exists (VString (Float32.fixed1 (Float32.Fnan neg))).
      split; [destruct neg|]; reflexivity.
    + exists (VString (Float32.fixed1 (Float32.Finf neg))).
      split; [destruct neg|]; reflexivity.
    + destruct (ScalarFacts.float_deserialize neg k n H) as (k' & _ & _ & Hd & Hf).
      exists (VFloat (Float32.Ffin neg k')). split; [exact Hd|].
      cbn [read_back_scalar Float32.is_finite]. now eexists.
  - exists (VBool b). split; [destruct b|]; reflexivity.
  - exists (VString s). split; [apply ScalarFacts.quoted_deserialize|reflexivity].
Qed.

Lemma scalars_read_back_witness :
  scalar_in_range (VString ("a,[" ++ quoted "b")) = true /\
  exists v', Value_deserialize (Value_serialize (VString ("a,[" ++ quoted "b"))) 5%N
             = Ok (v', 5%N) /\
             read_back_scalar (VString ("a,[" ++ quoted "b")) v'.
Proof.
  split; [reflexivity|].
  apply (scalars_read_back (VString ("a,[" ++ quoted "b")) 5%N).
  reflexivity.
Defined.

Lemma bind_ok {A B} (m : M A) (k : A -> M B) (n : addr) (r : B * addr) :
  bind m k n = Ok r -> exists a n1, m n = Ok (a, n1) /\ k a n1 = Ok r.
Proof.
  unfold bind. destruct (m n) as [[a n1]| |]; intros H; try discriminate.
  now exists a, n1.
Qed.

Lemma Table_deserialize_with_mode (t t' : Table) (n n' : addr) :
  Table_deserialize_with Value_deserialize (Table_serialize t) n = Ok (t', n') ->
  is_array t' = is_array t.
Proof.
  rewrite SerFacts.table_text. destruct (is_array t); intros H.
  - rewrite Table_deserialize_with_array in H.
    apply bind_ok in H. destruct H as (vec & n1 & _ & H).
    now injection H as <- _.
  - rewrite Table_deserialize_with_object in H.
    apply bind_ok in H. destruct H as (map & n1 & _ & H).
    now injection H as <- _.
Qed.

(** X7: a table is read back as a table of the same mode.  Whatever a
    table holds, also strings that break the round trip of its
    content, when [Value::deserialize] returns on what
    [Value::serialize] wrote for it, it returns a table (at a new
    address) and not a scalar, an array for an array and a map for a
    map; so does [Table::deserialize] on what [Table::serialize]
    wrote. *)
Theorem tables_keep_their_mode (p : addr) (t : Table) (n n' : addr) :
  (forall v', Value_deserialize (Value_serialize (VTable p t)) n = Ok (v', n') ->
              exists p' t', v' = VTable p' t' /\ n' = N.succ p' /\
                            get_is_array t' = get_is_array t) /\
  (forall t', Table_deserialize (Table_serialize t) n = Ok (t', n') ->
              get_is_array t' = get_is_array t).
Proof.
  split.
  - intros v' H. cbn [Value_serialize] in H. fold (Table_serialize t) in H.
    rewrite bracket_deserialize in H
      by (rewrite SerFacts.table_text; now destruct (is_array t)).
    apply bind_ok in H. destruct H as (t' & n1 & Ht & H).
    injection H as <- <-. exists n1, t'. repeat split.
    now apply Table_deserialize_with_mode in Ht.
  - intros t' H. rewrite Table_deserialize_unfold in H.
    now apply Table_deserialize_with_mode in H.
Qed.

Lemma tables_keep_their_mode_witness :
  Table_deserialize (Table_serialize (Table_of_vector [VString "a,b"; VString "]"])) 0%N
  = Ok (Table_of_vector [VString (String dquote "a");
                       VString (String "b" (String dquote EmptyString));
                       VString "]"], 0%N) /\
  get_is_array (Table_of_vector [VString (String dquote "a");
                       VString (String "b" (String dquote EmptyString));
                       VString "]"])
  = get_is_array (Table_of_vector [VString "a,b"; VString "]"]).
Proof.
  split; [vm_compute; reflexivity|].
  apply (proj2 (tables_keep_their_mode 0%N
                  (Table_of_vector [VString "a,b"; VString "]"]) 0%N 0%N)).
  vm_compute; reflexivity.
Defined.

(** ** [operator[]]: what is written is read *)

Module MapFacts.

Lemma map_find_set_same (k v : Value) (m : Map) :
  map_find k (map_set k v m) = Some v.
Proof.
  induction m as [|[k' v'] m IH]; cbn [map_set map_find].
  - now rewrite OrderFacts.Value_lt_irrefl.
  - destruct (Value_lt k k') eqn:E1.
    + cbn [map_find]. now rewrite OrderFacts.Value_lt_irrefl.
    + destruct (Value_lt k' k) eqn:E2; cbn [map_find]; now rewrite E1, E2.
Qed.

Lemma map_set_set (k v w : Value) (m : Map) :
  map_set k w (map_set k v m) = map_set k w m.
Proof.
  induction m as [|[k' v'] m IH]; cbn [map_set].
  - now rewrite OrderFacts.Value_lt_irrefl.
  - destruct (Value_lt k k') eqn:E1.
    + cbn [map_set]. now rewrite OrderFacts.Value_lt_irrefl.
    + destruct (Value_lt k' k) eqn:E2; cbn [map_set]; rewrite E1, E2;
        [now rewrite IH|reflexivity].
Qed.

Lemma float_lt_cotrans (a b z : float) :
  is_nan (VFloat z) = false -> Float32.lt a b = true ->
  Float32.lt a z = true \/ Float32.lt z b = true.
Proof.
  destruct a as [na|[|]|na ka], b as [nb|[|]|nb kb], z as [nz|[|]|nz kz];
    cbn [is_nan Float32.lt andb negb]; intros Hz H; try discriminate; auto.
  rewrite !Z.ltb_lt in *. lia.
Qed.

Lemma string_ltb_cotrans (a b z : string) :
  String.ltb a b = true -> String.ltb a z = true \/ String.ltb z b = true.
Proof.
  intros H. destruct (String.ltb a z) eqn:E; [now left|right].
  pose proof (string_eqb_mirrors_ltb a z) as Hm. rewrite E in Hm.
  destruct (String.ltb z a) eqn:E2.
  - now apply (OrderFacts.string_ltb_trans z a b).
  - cbn in Hm. apply String.eqb_eq in Hm. now subst.
Qed.

(** Below [b] is below any [z] that is no NaN, or [z] is below [b]:
    away from NaN, [operator<] is a strict weak order. *)
Lemma Value_lt_cotrans (a b z : Value) :
  is_nan z = false -> Value_lt a b = true ->
  Value_lt a z = true \/ Value_lt z b = true.
Proof.
  intros Hz H. pose proof (OrderFacts.Value_lt_index a b H) as Hi.
  destruct (Nat.eq_dec (index a) (index z)) as [Eaz|Naz].
  - destruct (Nat.eq_dec (index z) (index b)) as [Ezb|Nzb].
    + destruct a as [i|f|x|s|p t], b as [j|g|y|u|q w], z as [k|h|c|r|o d];
        try discriminate; unfold Value_lt in *; cbn in *.
      * destruct (Z.ltb_spec i k); [now left|right].
        rewrite Z.ltb_lt in *. lia.
      * now apply float_lt_cotrans.
      * destruct x, y, c; cbn in *; auto.
      * now apply string_ltb_cotrans.
      * destruct (N.ltb_spec p o); [now left|right].
        rewrite N.ltb_lt in *. lia.
    + right. rewrite Value_lt_other_tag by exact Nzb.
      apply Nat.ltb_lt. lia.
  - destruct (Nat.ltb_spec (index a) (index z)) as [Hlt|Hge].
    + left. rewrite Value_lt_other_tag by exact Naz. now apply Nat.ltb_lt.
    + right. rewrite Value_lt_other_tag by lia. apply Nat.ltb_lt. lia.
Qed.

(** Assigning at [key] changes what is found at no key that [operator<]
    tells from [key]. *)
Lemma map_find_set_other (key v k' : Value) (m : Map) :
  forallb (fun k => negb (is_nan k)) (keys m) = true ->
  Value_lt key k' = true \/ Value_lt k' key = true ->
  map_find k' (map_set key v m) = map_find k' m.
Proof.
  intros Hm Hk. induction m as [|[k0 v0] m IH]; cbn [map_set map_find].
  - destruct Hk as [Hk|Hk]; rewrite Hk.
    + destruct (Value_lt k' key) eqn:E; [reflexivity|reflexivity].
    + reflexivity.
  - cbn [keys map fst forallb] in Hm. apply andb_true_iff in Hm.
    destruct Hm as [H0 Hm]. apply negb_true_iff in H0.
    destruct (Value_lt key k0) eqn:E1.
    + cbn [map_find]. destruct (Value_lt k' key) eqn:E3.
      * now rewrite (OrderFacts.Value_lt_trans k' key k0 E3 E1).
      * destruct Hk as [Hk|Hk]; [now rewrite Hk|congruence].
    + destruct (Value_lt k0 key) eqn:E2; cbn [map_find].
      * destruct (Value_lt k' k0); [reflexivity|].
        destruct (Value_lt k0 k'); [now apply IH|reflexivity].
      * destruct (Value_lt k' k0) eqn:E3; [reflexivity|].
        destruct (Value_lt k0 k') eqn:E4; [reflexivity|].
        exfalso. destruct Hk as [Hk|Hk];
          destruct (Value_lt_cotrans _ _ k0 H0 Hk); congruence.
Qed.

End MapFacts.

(** X8: [operator[]] on a [Table].  After [t[key] = v], reading [t[key]]
    returns [v] and changes nothing; a second assignment at the same
    key replaces the first; and, when no key of the table is a NaN,
    what is read at any other key, one that [operator<] puts below or
    above [key], is what was read there before. *)
Theorem assign_then_index (t : Table) (key v : Value) :
  Table_index (Table_assign t key v) key = (Table_assign t key v, v) /\
  (forall w, Table_assign (Table_assign t key v) key w = Table_assign t key w) /\
  (forallb (fun k => negb (is_nan k)) (keys (data t)) = true ->
   forall k', Value_lt key k' = true \/ Value_lt k' key = true ->
     snd (Table_index (Table_assign t key v) k') = snd (Table_index t k')).
Proof.
  split; [|split].
  - unfold Table_index, Table_assign, map_at. cbn [data is_array].
    now rewrite MapFacts.map_find_set_same.
  - intros w. unfold Table_assign. cbn [data is_array].
    now rewrite MapFacts.map_set_set.
  - intros Hn k' Hk. unfold Table_index, Table_assign, map_at.
    cbn [data is_array].
    rewrite (MapFacts.map_find_set_other key v k' (data t) Hn Hk).
    now destruct (map_find k' (data t)).
Qed.

Lemma assign_then_index_witness :
  forallb (fun k => negb (is_nan k)) (keys (data (rect 10 20 100 50))) = true /\
  (Value_lt (VString "x") (VString "y") = true \/
   Value_lt (VString "y") (VString "x") = true) /\
  snd (Table_index (Table_assign (rect 10 20 100 50) (VString "x") (VInt 7))
                   (VString "y"))
  = snd (Table_index (rect 10 20 100 50) (VString "y")).
Proof.
  split; [reflexivity|]. split; [now left|].
  apply (proj2 (proj2 (assign_then_index (rect 10 20 100 50) (VString "x") (VInt 7))));
    [reflexivity|now left].
Defined.

(** ** Blanks around the elements, the keys and the values *)

Module BlankFacts.

Ltac reassoc :=
  repeat (progress (cbn [append]; rewrite ?StrFacts.append_assoc));
  reflexivity.

Lemma blank_chars (s : string) :
  blank_text s = true <-> chars_in (fun c => Str.mem c Str.blanks) s.
Proof. apply TextFacts.all_chars_spec. Qed.

Lemma blank_app (a b : string) :
  blank_text (a ++ b) = blank_text a && blank_text b.
Proof.
  unfold blank_text. induction a as [|c a IH]; [reflexivity|].
  cbn [append all_chars]. now rewrite IH, andb_assoc.
Qed.

Lemma blank_trim (s : string) : blank_text s = true -> Str.trim s = EmptyString.
Proof.
  intros H. unfold Str.trim. fold (lstrip s).
  rewrite <- (StrFacts.append_nil_r s).
  now rewrite CommentFacts.lstrip_pad.
Qed.

(** Blanks around a text that has none at its ends are trimmed away. *)
Lemma trim_core (l m r : string) :
  blank_text l = true -> blank_text r = true -> ends_ok m ->
  Str.trim (l ++ m ++ r) = m.
Proof.
  intros Hl Hr (c & d & Hf & Hb & Hc & Hd).
  apply negb_true_iff in Hc. apply negb_true_iff in Hd.
  unfold Str.trim. fold (lstrip (l ++ m ++ r)).
  rewrite CommentFacts.lstrip_pad by exact Hl.
  destruct m as [|x m]; [discriminate|]. injection Hf as ->.
  change (String c m ++ r) with (String c (m ++ r)).
  rewrite CommentFacts.lstrip_front by exact Hc.
  change (String c (m ++ r)) with (String c m ++ r).
  now apply (CommentFacts.rstrip_pad _ _ d).
Qed.

(** A text is blank, or it is a text without blanks at its ends between
    blanks. *)
Lemma blank_or_core (s : string) :
  blank_text s = true \/
  exists l m r, s = l ++ m ++ r /\ blank_text l = true /\
                blank_text r = true /\ ends_ok m.
Proof.
  induction s as [|c s IH]; [now left|].
  destruct (Str.mem c Str.blanks) eqn:E.
  - destruct IH as [IH|(l & m & r & -> & Hl & Hr & Hm)].
    + left. unfold blank_text in *. cbn [all_chars]. now rewrite E.
    + right. exists (String c l), m, r. repeat split; auto.
      unfold blank_text in *. cbn [all_chars]. now rewrite E.
  - right. destruct IH as [IH|(l & m & r & -> & Hl & Hr & (x & d & Hf & Hb & Hx & Hd))].
    + exists EmptyString, (String c EmptyString), s. repeat split; auto.
      exists c, c. unfold not_blank. rewrite E. now repeat split.
    + exists EmptyString, (String c (l ++ m)), r. repeat split; auto.
      * cbn [append]. now rewrite StrFacts.append_assoc.
      * exists c, d. unfold not_blank at 1. rewrite E. repeat split; auto.
        change (String c (l ++ m)) with (String c l ++ m).
        rewrite EndsFacts.back_app; [exact Hb|].
        destruct m; [discriminate|discriminate].
Qed.

Lemma trim_pad (l s r : string) :
  blank_text l = true -> blank_text r = true ->
  Str.trim (l ++ s ++ r) = Str.trim s.
Proof.
  intros Hl Hr. destruct (blank_or_core s) as [Hs|(l' & m & r' & -> & Hl' & Hr' & Hm)].
  - rewrite (blank_trim s Hs). apply blank_trim.
    now rewrite !blank_app, Hl, Hs, Hr.
  - rewrite (trim_core l' m r' Hl' Hr' Hm).
    replace (l ++ (l' ++ m ++ r') ++ r) with ((l ++ l') ++ m ++ (r' ++ r))
      by (now rewrite !StrFacts.append_assoc).
    apply trim_core; auto; now rewrite blank_app, ?Hl, ?Hl', ?Hr, ?Hr'.
Qed.

Lemma find_none_app_inv (c : ascii) (a b : string) :
  Str.find c (a ++ b) = None -> Str.find c a = None /\ Str.find c b = None.
Proof.
  induction a as [|d a IH]; cbn [append Str.find]; [now split|].
  destruct (Ascii.eqb d c); [discriminate|].
  destruct (Str.find c (a ++ b)) eqn:E; [discriminate|].
  intros _. destruct (IH eq_refl) as [-> ->]. now split.
Qed.

Lemma find_none_app2 (c : ascii) (a b : string) :
  Str.find c a = None -> Str.find c b = None -> Str.find c (a ++ b) = None.
Proof.
  induction a as [|d a IH]; cbn [append Str.find]; [auto|].
  destruct (Ascii.eqb d c); [discriminate|].
  destruct (Str.find c a) eqn:E; [discriminate|].
  intros _ Hb. now rewrite (IH eq_refl Hb).
Qed.

Lemma blank_no_equals (s : string) :
  blank_text s = true -> Str.find "=" s = None.
Proof.
  intros H. apply find_none_chars. apply blank_chars in H.
  revert H. apply chars_in_impl. intros c Hc.
  apply negb_true_iff, Ascii.eqb_neq. intros ->. discriminate.
Qed.

(** The trimmed text of an entry whose key side has no [=]. *)
Lemma trim_entry (a b : string) :
  exists key value,
    Str.trim (a ++ String "=" b) = key ++ String "=" value /\
    Str.trim key = Str.trim a /\ Str.trim value = Str.trim b /\
    (Str.find "=" a = None -> Str.find "=" key = None).
Proof.
  assert (Heq : ends_ok "=") by (exists "="%char, "="%char; now repeat split).
  destruct (blank_or_core a) as [Ha|(la & ma & ra & -> & Hla & Hra & Hma)];
    destruct (blank_or_core b) as [Hb|(lb & mb & rb & -> & Hlb & Hrb & Hmb)].
  - exists EmptyString, EmptyString.
    rewrite (blank_trim a Ha), (blank_trim b Hb).
    change (a ++ String "=" b) with (a ++ "=" ++ b).
    rewrite (trim_core a "=" b Ha Hb Heq). now repeat split.
  - exists EmptyString, (lb ++ mb).
    rewrite (blank_trim a Ha), (trim_core lb mb rb Hlb Hrb Hmb).
    replace (a ++ String "=" (lb ++ mb ++ rb))
      with (a ++ (String "=" (lb ++ mb)) ++ rb)
      by reassoc.
    rewrite trim_core; auto.
    + repeat split; auto.
      rewrite <- (StrFacts.append_nil_r (lb ++ mb)), StrFacts.append_assoc.
      now apply trim_core.
    + destruct Hmb as (c & d & Hf & Hbk & Hc & Hd).
      exists "="%char, d. repeat split; auto.
      change (String "=" (lb ++ mb)) with (String "=" lb ++ mb).
      rewrite EndsFacts.back_app; [exact Hbk|]. now destruct mb.
  - exists (ma ++ ra), EmptyString.
    rewrite (blank_trim b Hb), (trim_core la ma ra Hla Hra Hma).
    replace ((la ++ ma ++ ra) ++ String "=" b)
      with (la ++ (ma ++ ra ++ "=") ++ b)
      by reassoc.
    rewrite trim_core; auto.
    + split; [now rewrite !StrFacts.append_assoc|]. split.
      * change (ma ++ ra) with (EmptyString ++ ma ++ ra). now apply trim_core.
      * split; [reflexivity|]. intros H.
        apply find_none_app_inv in H. now destruct H.
    + destruct Hma as (c & d & Hf & Hbk & Hc & Hd).
      exists c, "="%char. repeat split; auto.
      * rewrite EndsFacts.front_app; [exact Hf|]. now destruct ma.
      * rewrite !EndsFacts.back_app; [reflexivity|discriminate|].
        destruct ra; discriminate.
  - exists (ma ++ ra), (lb ++ mb).
    rewrite (trim_core la ma ra Hla Hra Hma), (trim_core lb mb rb Hlb Hrb Hmb).
    replace ((la ++ ma ++ ra) ++ String "=" (lb ++ mb ++ rb))
      with (la ++ (ma ++ ra ++ String "=" (lb ++ mb)) ++ rb)
      by reassoc.
    rewrite trim_core; auto.
    + split; [now rewrite !StrFacts.append_assoc|]. split.
      * change (ma ++ ra) with (EmptyString ++ ma ++ ra). now apply trim_core.
      * split.
        -- rewrite <- (StrFacts.append_nil_r (lb ++ mb)), StrFacts.append_assoc.
           now apply trim_core.
        -- intros H. apply find_none_app_inv in H. now destruct H.
    + destruct Hma as (c & d & Hf & Hbk & Hc & Hd).
      destruct Hmb as (c' & d' & Hf' & Hbk' & Hc' & Hd').
      exists c, d'. repeat split; auto.
      * rewrite EndsFacts.front_app; [exact Hf|]. now destruct ma.
      * rewrite EndsFacts.back_app by (destruct ra; discriminate).
        change (String "=" (lb ++ mb)) with (String "=" lb ++ mb).
        rewrite EndsFacts.back_app; [|discriminate].
        rewrite EndsFacts.back_app; [exact Hbk'|]. now destruct mb.
Qed.

(** An entry with no [=] on its key side is read by the trimmed texts
    of its two sides only. *)
Lemma object_item_sides (deser : string -> M Value) (a b : string)
      (map : Map) (n : addr) :
  Str.find "=" a = None ->
  object_item deser (a ++ String "=" b) map n =
  if negb (Str.empty (Str.trim a)) && negb (Str.empty (Str.trim b))
  then bind (deser (Str.trim b))
         (fun v => bind (deser (Str.trim a))
                     (fun k => ret (map_set k v map))) n
  else Ok (map, n).
Proof.
  intros Ha. destruct (trim_entry a b) as (key & value & Ht & Hk & Hv & Hn).
  rewrite (object_item_split deser _ key value map n Ht (Hn Ha)).
  now rewrite Hk, Hv.
Qed.

End BlankFacts.

Module BalancedFacts.

(** The scan passes over a balanced text. *)
Lemma balanced_from_segments (s : string) :
  forall k d rest cur,
    balanced_from k s = true -> (0 <= d)%Z ->
    segments (s ++ rest) cur (d + Z.of_nat k)
    = segments rest (cur ++ s) d.
Proof.
  induction s as [|c s IH]; intros k d rest cur H Hd.
  - cbn [balanced_from] in H. apply Nat.eqb_eq in H. subst k.
    cbn [append]. now rewrite StrFacts.append_nil_r, Z.add_0_r.
  - cbn [balanced_from] in H. cbn [append segments].
    replace (cur ++ String c s) with ((cur ++ String c EmptyString) ++ s)
      by (now rewrite StrFacts.append_assoc).
    destruct (is_open c).
    { rewrite <- (IH (S k) d rest _ H Hd). f_equal. lia. }
    destruct (is_close c).
    { destruct k as [|k]; [discriminate|].
      rewrite <- (IH k d rest _ H Hd). f_equal. lia. }
    destruct (Ascii.eqb c ",").
    { apply andb_true_iff in H. destruct H as [Hk H].
      apply negb_true_iff, Nat.eqb_neq in Hk.
      destruct (Z.eqb_spec (d + Z.of_nat k) 0); [lia|].
      cbn [andb]. now apply IH. }
    cbn [andb]. now apply IH.
Qed.

Lemma balanced_chunk (s : string) : balanced s = true -> chunk_at 0 s.
Proof.
  intros H d Hd rest cur.
  rewrite <- (balanced_from_segments s 0 d rest cur H Hd).
  f_equal. cbn. lia.
Qed.

Lemma blank_inert (s : string) : blank_text s = true -> chars_in inert s.
Proof.
  intros H. apply BlankFacts.blank_chars in H. revert H.
  apply chars_in_impl. intros c Hc.
  cbn [Str.mem Str.blanks] in Hc. rewrite orb_false_r in Hc.
  apply orb_true_iff in Hc.
  destruct Hc as [Hc|Hc]; apply Ascii.eqb_eq in Hc; now subst.
Qed.

Lemma spaced_parts (x : spaced) :
  spaced_ok x = true ->
  blank_text (before x) = true /\ balanced (text x) = true /\
  blank_text (after x) = true.
Proof.
  unfold spaced_ok. intros H.
  apply andb_true_iff in H. destruct H as [H Ha].
  apply andb_true_iff in H. now destruct H.
Qed.

Lemma spaced_chunk (x : spaced) :
  spaced_ok x = true -> chunk_at 0 (spaced_text x) /\ chunk_at 0 (text x).
Proof.
  intros H. destruct (spaced_parts x H) as (Hb & Ht & Ha).
  split; [|now apply balanced_chunk].
  unfold spaced_text.
  apply ChunkFacts.chunk_app; [now apply ChunkFacts.chunk_inert, blank_inert|].
  apply ChunkFacts.chunk_app; [now apply balanced_chunk|].
  now apply ChunkFacts.chunk_inert, blank_inert.
Qed.

Lemma spaced_trim (x : spaced) :
  spaced_ok x = true -> Str.trim (spaced_text x) = Str.trim (text x).
Proof.
  intros H. destruct (spaced_parts x H) as (Hb & _ & Ha).
  now apply BlankFacts.trim_pad.
Qed.

Lemma fold_array_spaced (deser : string -> M Value) (xs : list spaced) :
  forallb spaced_ok xs = true ->
  forall acc n,
    fold_items (array_item deser) (List.map spaced_text xs) acc n
    = fold_items (array_item deser) (List.map text xs) acc n.
Proof.
  induction xs as [|x xs IH]; intros H acc n; [reflexivity|].
  cbn [forallb] in H. apply andb_true_iff in H. destruct H as [Hx Hxs].
  cbn [map fold_items]. unfold bind.
  rewrite (array_item_trimmed deser (spaced_text x)), spaced_trim by exact Hx.
  rewrite <- array_item_trimmed.
  destruct (array_item deser (text x) acc n) as [[a n']| |]; auto.
Qed.

Lemma entry_parts (kv : spaced * spaced) :
  spaced_entry_ok kv = true ->
  spaced_ok (fst kv) = true /\ spaced_ok (snd kv) = true /\
  Str.find "=" (text (fst kv)) = None /\
  Str.find "=" (spaced_text (fst kv)) = None.
Proof.
  unfold spaced_entry_ok. intros H.
  apply andb_true_iff in H. destruct H as [H He].
  apply andb_true_iff in H. destruct H as [Hk Hv].
  assert (Hn : Str.find "=" (text (fst kv)) = None).
  { apply find_none_chars. apply TextFacts.all_chars_spec in He. exact He. }
  repeat split; auto.
  destruct (spaced_parts _ Hk) as (Hb & _ & Ha).
  unfold spaced_text.
  apply BlankFacts.find_none_app2; [now apply BlankFacts.blank_no_equals|].
  apply BlankFacts.find_none_app2; [exact Hn|now apply BlankFacts.blank_no_equals].
Qed.

Lemma fold_object_spaced (deser : string -> M Value)
      (kvs : list (spaced * spaced)) :
  forallb spaced_entry_ok kvs = true ->
  forall acc n,
    fold_items (object_item deser) (List.map spaced_entry kvs) acc n
    = fold_items (object_item deser) (List.map plain_entry kvs) acc n.
Proof.
  induction kvs as [|kv kvs IH]; intros H acc n; [reflexivity|].
  cbn [forallb] in H. apply andb_true_iff in H. destruct H as [Hkv Hkvs].
  destruct (entry_parts kv Hkv) as (Hk & Hv & Hn & Hn').
  cbn [map fold_items]. unfold bind.
  change (spaced_entry kv)
    with (spaced_text (fst kv) ++ String "=" (spaced_text (snd kv))).
  change (plain_entry kv) with (text (fst kv) ++ String "=" (text (snd kv))).
  rewrite (BlankFacts.object_item_sides deser _ _ acc n Hn').
  rewrite (BlankFacts.object_item_sides deser _ _ acc n Hn).
  rewrite (spaced_trim _ Hk), (spaced_trim _ Hv).
  match goal with |- match ?x with _ => _ end = _ => destruct x as [[a n']| |] end;
    auto.
Qed.

Lemma entry_chunk (kv : spaced * spaced) :
  spaced_entry_ok kv = true ->
  chunk_at 0 (spaced_entry kv) /\ chunk_at 0 (plain_entry kv).
Proof.
  intros H. destruct (entry_parts kv H) as (Hk & Hv & _ & _).
  destruct (spaced_chunk _ Hk) as [Hk1 Hk2].
  destruct (spaced_chunk _ Hv) as [Hv1 Hv2].
  assert (He : chunk_at 0 "=") by (now apply ChunkFacts.chunk_inert_char).
  split.
  - unfold spaced_entry. apply ChunkFacts.chunk_app; [exact Hk1|].
    apply ChunkFacts.chunk_app; [exact He|exact Hv1].
  - unfold plain_entry. apply ChunkFacts.chunk_app; [exact Hk2|].
    apply ChunkFacts.chunk_app; [exact He|exact Hv2].
Qed.

End BalancedFacts.



Module FieldFacts.

Lemma read_fields_app (ls1 ls2 : list string) :
  forall result n,
    read_fields (ls1 ++ ls2) result n
    = (r <- read_fields ls1 result ;; read_fields ls2 r) n.
Proof.
  induction ls1 as [|l ls1 IH]; intros result n; [reflexivity|].
  cbn [app read_fields]. rewrite bind_assoc. apply bind_ext.
  intros a n'. apply IH.
Qed.

Lemma fields_find_set_same (k : string) (v : Value) (m : Fields) :
  fields_find k (fields_set k v m) = Some v.
Proof.
  induction m as [|[k' v'] m IH]; cbn [fields_set fields_find].
  - now rewrite EnvelopeFacts.string_ltb_irrefl.
  - destruct (String.ltb k k') eqn:E1.
    + cbn [fields_find]. now rewrite EnvelopeFacts.string_ltb_irrefl.
    + destruct (String.ltb k' k) eqn:E2; cbn [fields_find]; now rewrite E1, E2.
Qed.

Lemma value_text_parts (t : string) :
  value_text_ok t = true ->
  (exists c r, t = String c r /\ Str.mem c Str.blanks = false) /\
  one_line t = true /\ Str.find_str "//" t = None.
Proof.
  unfold value_text_ok, no_comment. intros H.
  apply andb_true_iff in H. destruct H as [H Hc].
  apply andb_true_iff in H. destruct H as [Hf Ho].
  repeat split; auto.
  - destruct t as [|c r]; [discriminate|]. exists c, r.
    now apply negb_true_iff in Hf.
  - now destruct (Str.find_str "//" t).
Qed.

(** A line [key value] after the lines [ls], when the event name was
    read from one of them. *)
Lemma read_lines_field (ls : list string) (k t : string) (n : addr) :
  existsb (fun l => negb (ignorable l)) ls = true ->
  field_name_ok k = true -> value_text_ok t = true ->
  read_lines (ls ++ [k ++ " " ++ t]) n
  = (r <- read_lines ls ;;
     v <- Value_deserialize t ;; ret (fst r, fields_set k v (snd r))) n.
Proof.
  intros Hex Hk Ht. destruct (value_text_parts t Ht) as (Hfront & _ & Hnc).
  induction ls as [|l ls IH]; [discriminate|].
  cbn [existsb] in Hex. cbn [app].
  unfold bind at 1. rewrite !LoopFacts.read_lines_cons.
  destruct (ignorable l); cbn [negb orb] in Hex.
  - rewrite (IH Hex). reflexivity.
  - clear IH Hex. unfold bind, ret.
    destruct (Value_deserialize (event_line l) n) as [[ev n1]| |]; auto.
    rewrite read_fields_app. unfold bind.
    destruct (read_fields ls [] n1) as [[r n2]| |]; auto.
    cbn [read_fields]. unfold bind.
    rewrite EnvelopeFacts.read_field_written by assumption.
    unfold bind, ret. cbn [fst snd].
    destruct (Value_deserialize t n2) as [[v n3]| |]; reflexivity.
Qed.

End FieldFacts.

(** X10: a line [key value] after the event name is the assignment
    [result[key] = Value::deserialize(value)].  Reading an input whose
    event name was found, followed by one more line made of a key (no
    space in it), one space and the text of a value, is reading the
    input and then assigning the parsed value at the key, so that a
    later line for a key replaces an earlier one: after the assignment
    the key is found with the new value. *)
Theorem field_line_assigns (ls : list string) (k t : string) (n : addr) :
  Forall (fun l => one_line l = true) ls ->
  existsb (fun l => negb (ignorable l)) ls = true ->
  field_name_ok k = true -> value_text_ok t = true ->
  deserialize_from_netvent (unlines (ls ++ [k ++ " " ++ t])) n
  = (r <- deserialize_from_netvent (unlines ls) ;;
     v <- Value_deserialize t ;; ret (fst r, fields_set k v (snd r))) n /\
  forall v m, fields_find k (fields_set k v m) = Some v.
Proof.
  intros Hls Hex Hk Ht. split; [|intros; apply FieldFacts.fields_find_set_same].
  destruct (FieldFacts.value_text_parts t Ht) as (_ & Hone & _).
  unfold deserialize_from_netvent. unfold bind at 1.
  rewrite !LineFacts.stream_lines_unlines.
  - now apply FieldFacts.read_lines_field.
  - exact Hls.
  - apply Forall_app. split; [exact Hls|]. constructor; [|constructor].
    rewrite !LoopFacts.one_line_app, Hone.
    now rewrite (EnvelopeFacts.field_name_one_line k Hk).
Qed.

Lemma field_line_assigns_witness :
  Forall (fun l => one_line l = true) [quoted "shoot"; "x 0"] /\
  deserialize_from_netvent (unlines [quoted "shoot"; "x 0"; "x 5"]) 0%N
  = Ok (VString "shoot", [("x", VInt 5)], 0%N).
Proof.
  split; [repeat constructor|].
  destruct (field_line_assigns [quoted "shoot"; "x 0"] "x" "5" 0%N) as [H _];
    [repeat constructor|reflexivity|reflexivity|reflexivity|].
  exact H.
Defined.


(** ** A field line without a value *)

Module DropFacts.

Lemma find_app_none (c : ascii) (m y : string) :
  Str.find c m = None ->
  Str.find c (m ++ y)
  = match Str.find c y with
    | Some j => Some (String.length m + j)%nat
    | None => None
    end.
Proof.
  induction m as [|d m IH]; cbn [append Str.find String.length].
  - intros _. now destruct (Str.find c y).
  - destruct (Ascii.eqb d c); [discriminate|].
    destruct (Str.find c m) eqn:E; [discriminate|]. intros _.
    rewrite (IH eq_refl). now destruct (Str.find c y).
Qed.

Lemma blank_substr_from (j : nat) (pad : string) :
  blank_text pad = true -> blank_text (Str.substr_from j pad) = true.
Proof.
  unfold blank_text. revert pad. induction j as [|j IH]; intros pad H;
    [exact H|].
  destruct pad as [|c pad]; [reflexivity|].
  cbn [all_chars] in H. apply andb_true_iff in H. destruct H as [_ H].
  cbn [Str.substr_from]. now apply IH.
Qed.

Lemma blank_find_first_not_of (pad : string) :
  blank_text pad = true -> Str.find_first_not_of Str.blanks pad = None.
Proof.
  unfold blank_text. induction pad as [|c pad IH]; intros H; [reflexivity|].
  cbn [all_chars] in H. apply andb_true_iff in H. destruct H as [Hc H].
  cbn [Str.find_first_not_of]. now rewrite Hc, (IH H).
Qed.

(** The second loop drops a line that holds, between blanks, a text
    without a space. *)
Lemma read_field_key_only (lead k trail : string) (result : Fields) (n : addr) :
  blank_text lead = true -> blank_text trail = true ->
  Str.find " " k = None -> no_comment k = true ->
  read_field (lead ++ k ++ trail) result n = Ok (result, n).
Proof.
  intros Hlead Htrail Hsp Hnc. unfold no_comment in Hnc.
  destruct (Str.find_str "//" k) eqn:Ek; [discriminate|]. clear Hnc.
  unfold read_field. rewrite CommentFacts.field_line_eq.
  rewrite CommentFacts.lstrip_pad by exact Hlead.
  rewrite (CutFacts.lstrip_no_comment (k ++ trail))
    by now apply CommentFacts.no_comment_app_blank.
  destruct (BlankFacts.blank_or_core k) as [Hk|(l & m & r & -> & Hl & Hr & Hm)].
  - rewrite <- (StrFacts.append_nil_r (k ++ trail)).
    rewrite CommentFacts.lstrip_pad
      by (now rewrite BlankFacts.blank_app, Hk, Htrail).
    reflexivity.
  - replace ((l ++ m ++ r) ++ trail) with (l ++ m ++ (r ++ trail))
      by (now rewrite !StrFacts.append_assoc).
    rewrite CommentFacts.lstrip_pad by exact Hl.
    assert (Hpad : blank_text (r ++ trail) = true)
      by (now rewrite BlankFacts.blank_app, Hr, Htrail).
    set (pad := r ++ trail) in *. clearbody pad.
    destruct Hm as (c & d & Hf & _ & Hc & _). apply negb_true_iff in Hc.
    destruct m as [|x m]; [discriminate|]. injection Hf as ->.
    change (String c m ++ pad) with (String c (m ++ pad)).
    rewrite CommentFacts.lstrip_front by exact Hc.
    change (String c (m ++ pad)) with (String c m ++ pad).
    destruct (skipped (String c m ++ pad)); [reflexivity|].
    apply BlankFacts.find_none_app_inv in Hsp. destruct Hsp as [_ Hsp].
    apply BlankFacts.find_none_app_inv in Hsp. destruct Hsp as [Hsp _].
    rewrite (find_app_none " " (String c m) pad Hsp).
    destruct (Str.find " " pad) as [j|]; [|reflexivity].
    unfold Str.find_first_not_of_from.
    rewrite EnvelopeErrors.substr_from_add, StrFacts.substr_from_app.
    now rewrite blank_find_first_not_of by now apply blank_substr_from.
Qed.

Lemma read_fields_drop (ls1 ls2 : list string) (l : string) :
  (forall result n, read_field l result n = Ok (result, n)) ->
  forall result n,
    read_fields (ls1 ++ l :: ls2) result n = read_fields (ls1 ++ ls2) result n.
Proof.
  intros Hl result n. rewrite !FieldFacts.read_fields_app.
  apply bind_ext. intros r n'. cbn [read_fields]. unfold bind at 1.
  now rewrite Hl.
Qed.

Lemma read_lines_drop (ls1 ls2 : list string) (l : string) (n : addr) :
  existsb (fun x => negb (ignorable x)) ls1 = true ->
  (forall result n, read_field l result n = Ok (result, n)) ->
  read_lines (ls1 ++ l :: ls2) n = read_lines (ls1 ++ ls2) n.
Proof.
  intros Hex Hl. induction ls1 as [|a ls1 IH]; [discriminate|].
  cbn [existsb] in Hex. cbn [app]. rewrite !LoopFacts.read_lines_cons.
  destruct (ignorable a); cbn [negb orb] in Hex; [now apply IH|].
  apply bind_ext. intros ev n1. unfold bind.
  now rewrite read_fields_drop.
Qed.

End DropFacts.

(** X11: a field line without a value is dropped without an error.
    After the event name, a line that holds, between blanks, a text
    with no space in it (a key alone, or a key and a value with only a
    tab between them) adds no field and throws nothing:
    [deserialize_from_netvent] returns (or throws) the same with and
    without it. *)
Theorem field_without_value_is_dropped (ls1 ls2 : list string)
        (lead k trail : string) (n : addr) :
  Forall (fun l => one_line l = true) (ls1 ++ ls2) ->
  existsb (fun l => negb (ignorable l)) ls1 = true ->
  blank_text lead = true -> blank_text trail = true ->
  Str.find " " k = None -> no_comment k = true -> one_line k = true ->
  deserialize_from_netvent (unlines (ls1 ++ (lead ++ k ++ trail) :: ls2)) n
  = deserialize_from_netvent (unlines (ls1 ++ ls2)) n.
Proof.
  intros Hls Hex Hlead Htrail Hsp Hnc Hone.
  unfold deserialize_from_netvent.
  rewrite !LineFacts.stream_lines_unlines.
  - apply DropFacts.read_lines_drop; [exact Hex|].
    intros result n'. now apply DropFacts.read_field_key_only.
  - exact Hls.
  - apply Forall_app in Hls. destruct Hls as [H1 H2].
    apply Forall_app. split; [exact H1|]. constructor; [|exact H2].
    rewrite !LoopFacts.one_line_app, Hone.
    now rewrite !CutFacts.blank_one_line.
Qed.

Lemma field_without_value_is_dropped_witness :
  Forall (fun l => one_line l = true) [quoted "shoot"; "y 2"] /\
  deserialize_from_netvent
    (unlines [quoted "shoot"; " " ++ String "x" (String "009" "1") ++ " "; "y 2"])
    0%N
  = deserialize_from_netvent (unlines [quoted "shoot"; "y 2"]) 0%N.
Proof.
  split; [repeat constructor|].
  apply (field_without_value_is_dropped
           [quoted "shoot"] ["y 2"] " " (String "x" (String "009" "1")) " " 0%N);
    try reflexivity.
  repeat constructor.
Defined.
